(** * react-clean-architecture-template: entities, use cases and HTTP client

    A shallow embedding of the domain layer (User and Product entities, the
    four user use cases) and of the infrastructure HTTP client, with the
    properties the specification states about them.

    Conventions of the embedding:
    - a JavaScript string is the list of its UTF-16 code units ([jstring]);
    - a [Date] is its millisecond timestamp ([Z]); every [new Date()] is a
      reading of the clock, passed in explicitly;
    - a JavaScript [number] is [NaN], an infinity or a finite value, finite
      values being represented by the rational they denote; the counts and
      durations of the HTTP client are integers ([Z]);
    - code that throws returns an [outcome]; asynchronous code runs in a small
      monad that records the calls made to the injected dependencies;
    - an optional key of an object literal is either absent ([None]) or holds
      a value of its declared type ([Some]). *)

From Stdlib Require Import String Ascii.
From Stdlib Require Import List ZArith NArith QArith Bool Lia Lqa.
Import ListNotations.



(* ===================================================================== *)
(** * JavaScript values *)
(* ===================================================================== *)

Module Js.

(** A string, as the sequence of its UTF-16 code units. *)
Definition jstring := list N.

(** A literal of the source, for ASCII text. *)
Fixpoint str (s : string) : jstring :=
  match s with
  | EmptyString => []
  | String a rest => N_of_ascii a :: str rest
  end.

Definition code_eqb (a b : N) : bool := N.eqb a b.

Fixpoint jstring_eqb (a b : jstring) : bool :=
  match a, b with
  | [], [] => true
  | x :: a', y :: b' => code_eqb x y && jstring_eqb a' b'
  | _, _ => false
  end.

Lemma jstring_eqb_spec a b : jstring_eqb a b = true <-> a = b.
Proof.
  revert b; induction a as [|x a IH]; intros [|y b]; simpl;
    try (split; [discriminate | congruence]); try tauto.
  unfold code_eqb. rewrite andb_true_iff, N.eqb_eq, IH.
  split; [intros [-> ->]; reflexivity | intros E; inversion E; auto].
Qed.

Lemma jstring_eqb_refl a : jstring_eqb a a = true.
Proof. apply jstring_eqb_spec; reflexivity. Qed.

(** [Array.prototype.includes] on an array of strings. *)
Definition array_includes (l : list jstring) (x : jstring) : bool :=
  existsb (jstring_eqb x) l.

(** WhiteSpace and LineTerminator code units: what [\s] matches and what
    [String.prototype.trim] strips. *)
Definition is_whitespace (c : N) : bool :=
  ((9 <=? c) && (c <=? 13) || (c =? 32) || (c =? 160) || (c =? 5760)
   || (8192 <=? c) && (c <=? 8202) || (c =? 8232) || (c =? 8233)
   || (c =? 8239) || (c =? 8287) || (c =? 12288) || (c =? 65279))%N.

Fixpoint dropWhile (p : N -> bool) (s : jstring) : jstring :=
  match s with
  | [] => []
  | c :: s' => if p c then dropWhile p s' else s
  end.

(** [String.prototype.trim]. *)
Definition trim (s : jstring) : jstring :=
  rev (dropWhile is_whitespace (rev (dropWhile is_whitespace s))).

(** Truthiness of a string: the empty string is falsy. *)
Definition truthy (s : jstring) : bool :=
  match s with [] => false | _ => true end.

(** Truthiness of an optional string: [undefined] is falsy too. *)
Definition truthy_opt (s : option jstring) : bool :=
  match s with Some v => truthy v | None => false end.

(** [s || d] for an optional string. *)
Definition or_else (s : option jstring) (d : jstring) : jstring :=
  match s with
  | Some v => if truthy v then v else d
  | None => d
  end.

Fixpoint startsWith (s p : jstring) : bool :=
  match p, s with
  | [], _ => true
  | _ :: _, [] => false
  | x :: p', y :: s' => code_eqb x y && startsWith s' p'
  end.

(** [String.prototype.includes]. *)
Fixpoint includes (s p : jstring) : bool :=
  startsWith s p ||
  match s with
  | [] => false
  | _ :: s' => includes s' p
  end.

(** [String.prototype.toLowerCase] on the Basic Latin and Latin-1 range;
    code units beyond it are left as they are. *)
Definition lower_code (c : N) : N :=
  if ((65 <=? c) && (c <=? 90))%N then (c + 32)%N
  else if ((192 <=? c) && (c <=? 222) && negb (c =? 215))%N then (c + 32)%N
  else c.

Definition toLowerCase (s : jstring) : jstring := map lower_code s.

Lemma dropWhile_all p s :
  dropWhile p s = [] <-> Forall (fun c => p c = true) s.
Proof.
  induction s as [|c s IH]; simpl.
  - split; auto.
  - destruct (p c) eqn:E.
    + rewrite IH. split; [intros; constructor; auto | intros H; inversion H; auto].
    + split; [discriminate | intros H; inversion H; congruence].
Qed.

Lemma dropWhile_suffix p s : exists pre, s = pre ++ dropWhile p s /\ Forall (fun c => p c = true) pre.
Proof.
  induction s as [|c s [pre [E F]]]; simpl.
  - exists []; split; auto.
  - destruct (p c) eqn:Hc.
    + exists (c :: pre); simpl; split; [congruence | constructor; auto].
    + exists []; split; auto.
Qed.

(** A string trims to the empty string exactly when it is all whitespace. *)
Lemma trim_empty_iff s :
  trim s = [] <-> Forall (fun c => is_whitespace c = true) s.
Proof.
  unfold trim. split.
  - intros H.
    assert (H1 : dropWhile is_whitespace (rev (dropWhile is_whitespace s)) = []).
    { destruct (dropWhile is_whitespace (rev (dropWhile is_whitespace s)))
        as [|x l]; auto.
      simpl in H. apply app_eq_nil in H. destruct H; discriminate. }
    destruct (dropWhile_suffix is_whitespace s) as [pre [E F]].
    apply dropWhile_all in H1.
    rewrite E. apply Forall_app; split; auto.
    apply Forall_rev in H1. rewrite rev_involutive in H1. exact H1.
  - intros H. apply dropWhile_all in H. rewrite H. reflexivity.
Qed.

End Js.

Import Js.


(* ===================================================================== *)
(** * Anchored regular expressions *)
(* ===================================================================== *)

(** The regular expressions of the source are all of the shape [^ ... $],
    a sequence of single characters and of character classes under [+].
    [test] is the backtracking matcher of [RegExp.prototype.test] for that
    shape; [matches] is the language it decides. *)

Module Regex.

Inductive item : Type :=
| One (p : N -> bool)       (* a literal character or a class, once *)
| Many1 (p : N -> bool).    (* a class under [+] *)

Definition regex := list item.

Fixpoint test (r : regex) (s : jstring) {struct s} : bool :=
  match s with
  | [] => match r with [] => true | _ => false end
  | c :: s' =>
      match r with
      | [] => false
      | One p :: r' => p c && test r' s'
      | Many1 p :: r' => p c && (test (Many1 p :: r') s' || test r' s')
      end
  end.

Inductive matches : regex -> jstring -> Prop :=
| matches_nil : matches [] []
| matches_one p r c s :
    p c = true -> matches r s -> matches (One p :: r) (c :: s)
| matches_many p r w s :
    w <> [] -> Forall (fun c => p c = true) w -> matches r s ->
    matches (Many1 p :: r) (w ++ s).

Lemma test_sound r s : test r s = true -> matches r s.
Proof.
  revert r; induction s as [|c s IH]; intros r H; simpl in H.
  - destruct r; [constructor | discriminate].
  - destruct r as [|[p|p] r]; try discriminate;
      apply andb_true_iff in H; destruct H as [Hc H].
    + constructor; auto.
    + apply orb_true_iff in H. destruct H as [H|H].
      * apply IH in H. inversion H as [| |p' r' w s0 Hw Hall Hr E1 E2]; subst.
        change (matches (Many1 p :: r) ((c :: w) ++ s0)).
        constructor; auto; discriminate.
      * apply IH in H.
        change (matches (Many1 p :: r) ([c] ++ s)).
        constructor; auto; discriminate.
Qed.

Lemma test_complete r s : matches r s -> test r s = true.
Proof.
  induction 1 as [|p r c s Hc Hm IH|p r w s Hw Hall Hm IH]; simpl; auto.
  - rewrite Hc, IH. reflexivity.
  - induction w as [|c w IHw]; [congruence|].
    inversion Hall as [|? ? Hc Hall']; subst. simpl. rewrite Hc. simpl.
    destruct w as [|c' w].
    + simpl. rewrite IH. apply orb_true_r.
    + rewrite IHw; auto; discriminate.
Qed.

Theorem test_spec r s : test r s = true <-> matches r s.
Proof. split; [apply test_sound | apply test_complete]. Qed.

End Regex.

(* ===================================================================== *)
(** * Errors and results (shared/types/common.ts) *)
(* ===================================================================== *)

Module Errors.

(** The class a thrown error was constructed from. *)
Inductive error_class : Type :=
| ErrorCls
| TypeErrorCls
| DOMExceptionCls
| DomainErrorCls
| ValidationErrorCls
| NotFoundErrorCls
| UnauthorizedErrorCls.

(** A value stored in the [context] object of a domain error. *)
Inductive context_value : Type :=
| CtxString (s : jstring)
| CtxArray (l : list jstring).

(** An instance of [Error]: its [name], [message], and for the domain errors
    the [code], the [field] and the [context] object. *)
Record js_error : Type := mkError {
  err_class : error_class;
  err_name : jstring;
  err_message : jstring;
  err_code : option jstring;
  err_field : option jstring;
  err_context : list (jstring * context_value)
}.

Definition new_Error (message : jstring) : js_error :=
  mkError ErrorCls (str "Error") message None None [].

Definition new_TypeError (message : jstring) : js_error :=
  mkError TypeErrorCls (str "TypeError") message None None [].

Definition new_DomainError (message code : jstring)
    (context : list (jstring * context_value)) : js_error :=
  mkError DomainErrorCls (str "DomainError") message (Some code) None context.

Definition new_ValidationError (message field : jstring) : js_error :=
  mkError ValidationErrorCls (str "ValidationError") message
          (Some (str "VALIDATION_ERROR")) (Some field)
          [(str "field", CtxString field)].

Definition new_NotFoundError (resource id : jstring) : js_error :=
  mkError NotFoundErrorCls (str "NotFoundError")
          (resource ++ str " mit ID " ++ id ++ str " wurde nicht gefunden")
          (Some (str "NOT_FOUND")) None
          [(str "resource", CtxString resource); (str "id", CtxString id)].

Definition is_ValidationError (e : js_error) : bool :=
  match err_class e with ValidationErrorCls => true | _ => false end.

(** Anything can be thrown or be the reason of a rejected promise: an
    instance of [Error], or some other value. *)
Inductive thrown : Type :=
| ThrownError (e : js_error)
| ThrownOther (v : jstring).

(** [error instanceof Error ? error : new Error(fallback)] *)
Definition error_or (t : thrown) (fallback : jstring) : js_error :=
  match t with
  | ThrownError e => e
  | ThrownOther _ => new_Error fallback
  end.

(** Code that may throw: its value, or the error thrown. *)
Inductive outcome (A : Type) : Type :=
| Ok (a : A)
| Throw (e : js_error).

Arguments Ok {A} a.
Arguments Throw {A} e.

Definition obind {A B} (m : outcome A) (f : A -> outcome B) : outcome B :=
  match m with
  | Ok a => f a
  | Throw e => Throw e
  end.

(** [Result<T, E = Error>]. *)
Inductive Result (T : Type) : Type :=
| Success (data : T)
| Failure (error : js_error).

Arguments Success {T} data.
Arguments Failure {T} error.

Definition is_failure {T} (r : Result T) : bool :=
  match r with Failure _ => true | Success _ => false end.

End Errors.

Import Errors.

Declare Scope outcome_scope.
Notation "x <-! m ;; k" := (obind m (fun x => k))
  (at level 61, m at next level, right associativity) : outcome_scope.
Notation "m ;;! k" := (obind m (fun _ => k))
  (at level 61, right associativity) : outcome_scope.

Local Open Scope outcome_scope.

(** ** Idioms of object literals *)

(** [a ?? b] *)
Definition nullish {A} (a : option A) (b : A) : A :=
  match a with Some v => v | None => b end.

(** A key of a spread object overrides the earlier one when it is there. *)
Definition spread {A} (old : A) (upd : option A) : A :=
  match upd with Some v => v | None => old end.

Definition spread_opt {A} (old : option A) (upd : option A) : option A :=
  match upd with Some v => Some v | None => old end.

(** [if (x) validate(x)] *)
Definition when_truthy (x : option jstring) (f : jstring -> outcome unit)
  : outcome unit :=
  match x with
  | Some v => if truthy v then f v else Ok tt
  | None => Ok tt
  end.

(* ===================================================================== *)
(** * Constants (shared/constants/app.ts) *)
(* ===================================================================== *)

Module VALIDATION_RULES.

(** The class [[^\s@]]. *)
Definition not_space_or_at (c : N) : bool :=
  negb (is_whitespace c || (c =? 64)%N).

(** [/^[^\s@]+@[^\s@]+\.[^\s@]+$/] *)
Definition EMAIL_REGEX : Regex.regex :=
  [ Regex.Many1 not_space_or_at; Regex.One (N.eqb 64);
    Regex.Many1 not_space_or_at; Regex.One (N.eqb 46);
    Regex.Many1 not_space_or_at ].

Definition PASSWORD_MIN_LENGTH : nat := 8.

End VALIDATION_RULES.

Module API_CONFIG.
Definition timeout : Z := 10000.
Definition retryAttempts : Z := 3.
Definition retryDelay : Z := 1000.
End API_CONFIG.

Module PAGINATION.
Definition DEFAULT_PAGE_SIZE : Z := 10.
Definition MAX_PAGE_SIZE : Z := 100.
Definition MIN_PAGE_SIZE : Z := 5.
End PAGINATION.

(* ===================================================================== *)
(** * The User entity (domain/entities/User.ts) *)
(* ===================================================================== *)

Module User.

Record UserProps : Type := mkProps {
  id : jstring;
  email : jstring;
  firstName : jstring;
  lastName : jstring;
  avatar : option jstring;
  isActive : bool;
  roles : list jstring;
  lastLoginAt : option Z;
  createdAt : Z;
  updatedAt : Z
}.

(** An instance holds its props; the constructor is private, so an instance
    exists only as the value of [new]. *)
Definition User := UserProps.

(** The letters of the class in [validateName]:
    [a-zA-Z], the German umlauts and sharp s, and U+00E0..U+00FF without
    the division sign. *)
Definition is_name_letter (c : N) : bool :=
  ((97 <=? c) && (c <=? 122) || (65 <=? c) && (c <=? 90)
   || (c =? 228) || (c =? 246) || (c =? 252)
   || (c =? 196) || (c =? 214) || (c =? 220) || (c =? 223)
   || (224 <=? c) && (c <=? 246) || (248 <=? c) && (c <=? 255))%N.

(** The whole class: the letters, [\s], the hyphen and the apostrophe. *)
Definition is_name_char (c : N) : bool :=
  is_name_letter c || is_whitespace c || (c =? 45)%N || (c =? 39)%N.

Definition NAME_REGEX : Regex.regex := [ Regex.Many1 is_name_char ].

Definition validateEmail (email : jstring) : outcome unit :=
  if negb (truthy email) || (length (trim email) =? 0)%nat then
    Throw (new_ValidationError (str "E-Mail ist erforderlich") (str "email"))
  else if negb (Regex.test VALIDATION_RULES.EMAIL_REGEX email) then
    Throw (new_ValidationError
             (str "Ung" ++ [252%N] ++ str "ltige E-Mail-Adresse") (str "email"))
  else Ok tt.

Definition validateName (name fieldName : jstring) : outcome unit :=
  if negb (truthy name) || (length (trim name) =? 0)%nat then
    Throw (new_ValidationError (fieldName ++ str " ist erforderlich")
                               (toLowerCase fieldName))
  else if (length name <? 2)%nat then
    Throw (new_ValidationError (fieldName ++ str " muss mindestens 2 Zeichen haben")
                               (toLowerCase fieldName))
  else if (50 <? length name)%nat then
    Throw (new_ValidationError (fieldName ++ str " darf maximal 50 Zeichen haben")
                               (toLowerCase fieldName))
  else if negb (Regex.test NAME_REGEX name) then
    Throw (new_ValidationError
             (fieldName ++
              str " darf nur Buchstaben, Leerzeichen, Bindestriche und Apostrophe enthalten")
             (toLowerCase fieldName))
  else Ok tt.

(** The constructor. *)
Definition new (props : UserProps) : outcome User :=
  validateEmail (email props) ;;!
  validateName (firstName props) (str "Vorname") ;;!
  validateName (lastName props) (str "Nachname") ;;!
  Ok props.

(** [Omit<UserProps, 'id' | 'createdAt' | 'updatedAt'>], with the two keys
    that [create] defaults when they are missing. *)
Record CreateProps : Type := mkCreateProps {
  c_email : jstring;
  c_firstName : jstring;
  c_lastName : jstring;
  c_avatar : option jstring;
  c_isActive : option bool;
  c_roles : option (list jstring);
  c_lastLoginAt : option Z
}.

(** [uuid] is the value of [crypto.randomUUID()], [now] the clock reading. *)
Definition create (uuid : jstring) (now : Z) (props : CreateProps) : outcome User :=
  new {| id := uuid;
         email := c_email props;
         firstName := c_firstName props;
         lastName := c_lastName props;
         avatar := c_avatar props;
         isActive := nullish (c_isActive props) true;
         roles := nullish (c_roles props) [str "user"];
         lastLoginAt := c_lastLoginAt props;
         createdAt := now;
         updatedAt := now |}.

Definition fromPersistence (props : UserProps) : outcome User := new props.

(** The argument of [updateProfile]. *)
Record ProfileUpdates : Type := mkUpdates {
  upd_firstName : option jstring;
  upd_lastName : option jstring;
  upd_email : option jstring;
  upd_avatar : option jstring
}.

Definition updateProfile (clock : Z) (this : User) (updates : ProfileUpdates)
  : outcome User :=
  when_truthy (upd_firstName updates) (fun n => validateName n (str "Vorname")) ;;!
  when_truthy (upd_lastName updates) (fun n => validateName n (str "Nachname")) ;;!
  when_truthy (upd_email updates) validateEmail ;;!
  let now := if (clock =? updatedAt this)%Z then (clock + 1)%Z else clock in
  new {| id := id this;
         email := spread (email this) (upd_email updates);
         firstName := spread (firstName this) (upd_firstName updates);
         lastName := spread (lastName this) (upd_lastName updates);
         avatar := spread_opt (avatar this) (upd_avatar updates);
         isActive := isActive this;
         roles := roles this;
         lastLoginAt := lastLoginAt this;
         createdAt := createdAt this;
         updatedAt := now |}.

Definition with_email (this : User) (e : jstring) (now : Z) : UserProps :=
  {| id := id this; email := e; firstName := firstName this;
     lastName := lastName this; avatar := avatar this;
     isActive := isActive this; roles := roles this;
     lastLoginAt := lastLoginAt this; createdAt := createdAt this;
     updatedAt := now |}.

Definition with_isActive (this : User) (b : bool) (now : Z) : UserProps :=
  {| id := id this; email := email this; firstName := firstName this;
     lastName := lastName this; avatar := avatar this;
     isActive := b; roles := roles this;
     lastLoginAt := lastLoginAt this; createdAt := createdAt this;
     updatedAt := now |}.

Definition with_roles (this : User) (r : list jstring) (now : Z) : UserProps :=
  {| id := id this; email := email this; firstName := firstName this;
     lastName := lastName this; avatar := avatar this;
     isActive := isActive this; roles := r;
     lastLoginAt := lastLoginAt this; createdAt := createdAt this;
     updatedAt := now |}.

Definition changeEmail (clock : Z) (this : User) (newEmail : jstring)
  : outcome User :=
  validateEmail newEmail ;;!
  if jstring_eqb newEmail (email this) then
    Throw (new_DomainError (str "Neue E-Mail ist identisch mit der aktuellen E-Mail")
                           (str "EMAIL_UNCHANGED") [])
  else new (with_email this newEmail clock).

Definition activate (clock : Z) (this : User) : outcome User :=
  if isActive this then
    Throw (new_DomainError (str "Benutzer ist bereits aktiv")
                           (str "USER_ALREADY_ACTIVE") [])
  else new (with_isActive this true clock).

Definition deactivate (clock : Z) (this : User) : outcome User :=
  if negb (isActive this) then
    Throw (new_DomainError (str "Benutzer ist bereits deaktiviert")
                           (str "USER_ALREADY_INACTIVE") [])
  else new (with_isActive this false clock).

(** Two readings of the clock: the first for [lastLoginAt], the second for
    [updatedAt]. *)
Definition updateLastLogin (clock1 clock2 : Z) (this : User) : outcome User :=
  new {| id := id this; email := email this; firstName := firstName this;
         lastName := lastName this; avatar := avatar this;
         isActive := isActive this; roles := roles this;
         lastLoginAt := Some clock1; createdAt := createdAt this;
         updatedAt := clock2 |}.

Definition addRole (clock : Z) (this : User) (role : jstring) : outcome User :=
  if array_includes (roles this) role then
    Throw (new_DomainError (str "Benutzer hat bereits die Rolle: " ++ role)
                           (str "ROLE_ALREADY_EXISTS") [])
  else new (with_roles this (roles this ++ [role]) clock).

Definition removeRole (clock : Z) (this : User) (role : jstring) : outcome User :=
  if negb (array_includes (roles this) role) then
    Throw (new_DomainError (str "Benutzer hat die Rolle nicht: " ++ role)
                           (str "ROLE_NOT_FOUND") [])
  else new (with_roles this
              (filter (fun r => negb (jstring_eqb r role)) (roles this)) clock).

(** The update methods, as one type, and their dispatch.  [clock k] is the
    [k]-th reading of [new Date()] made during the call. *)
Inductive update_op : Type :=
| OpUpdateProfile (updates : ProfileUpdates)
| OpChangeEmail (newEmail : jstring)
| OpActivate
| OpDeactivate
| OpUpdateLastLogin
| OpAddRole (role : jstring)
| OpRemoveRole (role : jstring).

Definition update (clock : nat -> Z) (this : User) (op : update_op)
  : outcome User :=
  match op with
  | OpUpdateProfile updates => updateProfile (clock 0%nat) this updates
  | OpChangeEmail e => changeEmail (clock 0%nat) this e
  | OpActivate => activate (clock 0%nat) this
  | OpDeactivate => deactivate (clock 0%nat) this
  | OpUpdateLastLogin => updateLastLogin (clock 0%nat) (clock 1%nat) this
  | OpAddRole r => addRole (clock 0%nat) this r
  | OpRemoveRole r => removeRole (clock 0%nat) this r
  end.

(** ** The invariant, as the specification words it *)

Definition name_ok (n : jstring) : Prop :=
  n <> [] /\ (2 <= length n <= 50)%nat /\
  Forall (fun c => is_name_letter c = true \/ is_whitespace c = true \/
                   c = 45%N \/ c = 39%N) n.

Definition invariant (u : UserProps) : Prop :=
  Regex.matches VALIDATION_RULES.EMAIL_REGEX (email u) /\
  name_ok (firstName u) /\ name_ok (lastName u).

End User.

(* ===================================================================== *)
(** * Facts about the User entity *)
(* ===================================================================== *)

(** Unfolds one sequencing step of code that may throw. *)
Ltac step_outcome H :=
  match type of H with
  | obind ?m _ = _ =>
      let E := fresh "E" in
      destruct m eqn:E; cbn [obind] in H; [| try discriminate]
  end.

Module UserFacts.
Import User.

Example trim_example : trim (str "  Mary Ann ") = str "Mary Ann".
Proof. reflexivity. Qed.

Example email_regex_examples :
  Regex.test VALIDATION_RULES.EMAIL_REGEX (str "john.doe@example.com") = true /\
  Regex.test VALIDATION_RULES.EMAIL_REGEX (str "a@b.c") = true /\
  Regex.test VALIDATION_RULES.EMAIL_REGEX (str "invalid-email") = false /\
  Regex.test VALIDATION_RULES.EMAIL_REGEX (str "a@b") = false /\
  Regex.test VALIDATION_RULES.EMAIL_REGEX (str "a b@c.d") = false /\
  Regex.test VALIDATION_RULES.EMAIL_REGEX (str "a@b@c.d") = false.
Proof. repeat split. Qed.

Example name_regex_examples :
  Regex.test NAME_REGEX (str "Jean-Luc") = true /\
  Regex.test NAME_REGEX (str "O'Brien") = true /\
  Regex.test NAME_REGEX (str "M" ++ [252%N] ++ str "ller") = true /\
  Regex.test NAME_REGEX (str "R2D2") = false /\
  Regex.test NAME_REGEX [] = false.
Proof. repeat split. Qed.

Lemma validateEmail_ok e :
  validateEmail e = Ok tt -> Regex.matches VALIDATION_RULES.EMAIL_REGEX e.
Proof.
  unfold validateEmail. intros H.
  destruct (negb (truthy e) || (length (trim e) =? 0)%nat); [discriminate|].
  destruct (Regex.test VALIDATION_RULES.EMAIL_REGEX e) eqn:T; [|discriminate].
  apply Regex.test_spec; exact T.
Qed.

Lemma validateEmail_complete e :
  Regex.matches VALIDATION_RULES.EMAIL_REGEX e -> validateEmail e = Ok tt.
Proof.
  intros M. unfold validateEmail.
  assert (T : Regex.test VALIDATION_RULES.EMAIL_REGEX e = true)
    by (apply Regex.test_spec; exact M).
  rewrite T.
  inversion M as [| |p r w s Hw Hall Hm E1 E2]; subst.
  destruct w as [|c w]; [congruence|].
  inversion Hall as [|? ? Hc _]; subst. simpl truthy. simpl negb.
  replace (length (trim ((c :: w) ++ s)) =? 0)%nat with false; [reflexivity|].
  symmetry. apply Nat.eqb_neq. intros L.
  apply length_zero_iff_nil in L. apply trim_empty_iff in L.
  inversion L as [|? ? Hws _]; subst.
  unfold VALIDATION_RULES.not_space_or_at in Hc. rewrite Hws in Hc. discriminate.
Qed.

Lemma validateEmail_throws e err :
  validateEmail e = Throw err -> is_ValidationError err = true.
Proof.
  unfold validateEmail. intros H.
  destruct (negb (truthy e) || (length (trim e) =? 0)%nat);
    [inversion H; reflexivity|].
  destruct (negb (Regex.test VALIDATION_RULES.EMAIL_REGEX e));
    inversion H; reflexivity.
Qed.

Lemma name_char_cases c :
  is_name_char c = true ->
  is_name_letter c = true \/ is_whitespace c = true \/ c = 45%N \/ c = 39%N.
Proof.
  unfold is_name_char. rewrite !orb_true_iff, !N.eqb_eq. tauto.
Qed.

Lemma validateName_ok n f : validateName n f = Ok tt -> name_ok n.
Proof.
  unfold validateName. intros H.
  destruct (negb (truthy n) || (length (trim n) =? 0)%nat) eqn:E1; [discriminate|].
  destruct (length n <? 2)%nat eqn:E2; [discriminate|].
  destruct (50 <? length n)%nat eqn:E3; [discriminate|].
  destruct (Regex.test NAME_REGEX n) eqn:T; [|discriminate].
  apply Nat.ltb_ge in E2, E3.
  apply Regex.test_spec in T.
  inversion T as [| |p r w s Hw Hall Hm Ea Eb]; subst.
  inversion Hm; subst. rewrite app_nil_r in *.
  split; [assumption|]. split; [lia|].
  eapply Forall_impl; [|exact Hall]. intros c Hc. apply name_char_cases; exact Hc.
Qed.

Lemma validateName_throws n f err :
  validateName n f = Throw err -> is_ValidationError err = true.
Proof.
  unfold validateName. intros H.
  destruct (negb (truthy n) || (length (trim n) =? 0)%nat);
    [inversion H; reflexivity|].
  destruct (length n <? 2)%nat; [inversion H; reflexivity|].
  destruct (50 <? length n)%nat; [inversion H; reflexivity|].
  destruct (negb (Regex.test NAME_REGEX n)); inversion H; reflexivity.
Qed.

(** The constructor returns the props it was given, and only valid ones. *)
Lemma new_ok p u : new p = Ok u -> u = p /\ invariant p.
Proof.
  unfold new. intros H.
  step_outcome H. step_outcome H. step_outcome H.
  destruct a, a0, a1.
  inversion H; subst. split; [reflexivity|].
  split; [apply validateEmail_ok; assumption|].
  split; eapply validateName_ok; eassumption.
Qed.

(** Whatever the constructor throws is a [ValidationError]. *)
Lemma new_throws p e : new p = Throw e -> is_ValidationError e = true.
Proof.
  unfold new. intros H.
  destruct (validateEmail (email p)) eqn:E0; cbn [obind] in H;
    [| inversion H; subst; eapply validateEmail_throws; eassumption].
  destruct (validateName (firstName p) (str "Vorname")) eqn:E1; cbn [obind] in H;
    [| inversion H; subst; eapply validateName_throws; eassumption].
  destruct (validateName (lastName p) (str "Nachname")) eqn:E2; cbn [obind] in H;
    [discriminate | inversion H; subst; eapply validateName_throws; eassumption].
Qed.

(** Every update method that returns does so through the constructor. *)
Lemma update_constructs clock this op u :
  update clock this op = Ok u -> exists p, new p = Ok u.
Proof.
  destruct op; simpl; intros H.
  - unfold updateProfile in H.
    step_outcome H. step_outcome H. step_outcome H. eauto.
  - unfold changeEmail in H. step_outcome H.
    destruct (jstring_eqb newEmail (email this)); [discriminate | eauto].
  - unfold activate in H. destruct (isActive this); [discriminate | eauto].
  - unfold deactivate in H. destruct (negb (isActive this)); [discriminate | eauto].
  - unfold updateLastLogin in H. eauto.
  - unfold addRole in H.
    destruct (array_includes (roles this) role); [discriminate | eauto].
  - unfold removeRole in H.
    destruct (negb (array_includes (roles this) role)); [discriminate | eauto].
Qed.

(** The [updatedAt] an update method writes: the clock reading, moved one
    millisecond on by [updateProfile] alone when it equals the old value. *)
Definition written_updatedAt (clock : nat -> Z) (this : User) (op : update_op) : Z :=
  match op with
  | OpUpdateProfile _ =>
      if (clock 0%nat =? updatedAt this)%Z then (clock 0%nat + 1)%Z else clock 0%nat
  | OpUpdateLastLogin => clock 1%nat
  | _ => clock 0%nat
  end.

Lemma update_fields clock this op u :
  update clock this op = Ok u ->
  id u = id this /\ createdAt u = createdAt this /\
  updatedAt u = written_updatedAt clock this op.
Proof.
  destruct op; simpl; intros H.
  - unfold updateProfile in H.
    step_outcome H. step_outcome H. step_outcome H.
    apply new_ok in H. destruct H as [-> _]. simpl. auto.
  - unfold changeEmail in H. step_outcome H.
    destruct (jstring_eqb newEmail (email this)); [discriminate|].
    apply new_ok in H. destruct H as [-> _]. simpl. auto.
  - unfold activate in H. destruct (isActive this); [discriminate|].
    apply new_ok in H. destruct H as [-> _]. simpl. auto.
  - unfold deactivate in H. destruct (negb (isActive this)); [discriminate|].
    apply new_ok in H. destruct H as [-> _]. simpl. auto.
  - unfold updateLastLogin in H.
    apply new_ok in H. destruct H as [-> _]. simpl. auto.
  - unfold addRole in H.
    destruct (array_includes (roles this) role); [discriminate|].
    apply new_ok in H. destruct H as [-> _]. simpl. auto.
  - unfold removeRole in H.
    destruct (negb (array_includes (roles this) role)); [discriminate|].
    apply new_ok in H. destruct H as [-> _]. simpl. auto.
Qed.

(** [updateProfile] moves [updatedAt] strictly forward whenever the clock has
    not fallen behind the stored value. *)
Lemma updateProfile_bumps clock this updates u :
  updateProfile clock this updates = Ok u ->
  (updatedAt this <= clock)%Z -> (updatedAt this < updatedAt u)%Z.
Proof.
  intros H Hle.
  destruct (update_fields (fun _ => clock) this (OpUpdateProfile updates) u H)
    as (_ & _ & E).
  rewrite E. simpl.
  destruct (Z.eqb_spec clock (updatedAt this)); lia.
Qed.

(** The other update methods write the clock reading as it is. *)
Lemma update_not_earlier clock this op u :
  update clock this op = Ok u ->
  (forall k, updatedAt this <= clock k)%Z -> (updatedAt this <= updatedAt u)%Z.
Proof.
  intros H Hle.
  destruct (update_fields clock this op u H) as (_ & _ & E). rewrite E.
  destruct op; simpl; try apply Hle.
  destruct (Z.eqb_spec (clock 0%nat) (updatedAt this));
    [specialize (Hle 0%nat); lia | apply Hle].
Qed.

(** ** Concrete users *)

Definition john_props : CreateProps :=
  {| c_email := str "john.doe@example.com";
     c_firstName := str "John";
     c_lastName := str "Doe";
     c_avatar := None;
     c_isActive := None;
     c_roles := None;
     c_lastLoginAt := None |}.

Definition john : User :=
  {| id := str "user-1";
     email := str "john.doe@example.com";
     firstName := str "John";
     lastName := str "Doe";
     avatar := None;
     isActive := true;
     roles := [str "user"];
     lastLoginAt := None;
     createdAt := 1000;
     updatedAt := 1000 |}.

Definition bad_email_props : UserProps :=
  {| id := str "user-2";
     email := str "invalid-email";
     firstName := str "John";
     lastName := str "Doe";
     avatar := None;
     isActive := true;
     roles := [str "user"];
     lastLoginAt := None;
     createdAt := 1000;
     updatedAt := 1000 |}.

Example create_john : create (str "user-1") 1000 john_props = Ok john.
Proof. reflexivity. Qed.

Example create_rejects_short_name :
  exists e, create (str "user-1") 1000
              {| c_email := str "a@b.c"; c_firstName := str "J";
                 c_lastName := str "Doe"; c_avatar := None; c_isActive := None;
                 c_roles := None; c_lastLoginAt := None |} = Throw e
            /\ err_field e = Some (str "vorname").
Proof. eexists; split; reflexivity. Qed.

(** C3. Every User built by [create] or [fromPersistence], or returned by an
    update method ([updateProfile], [changeEmail], [activate], [deactivate],
    [updateLastLogin], [addRole], [removeRole]), has an email that matches the
    email regex and a first and a last name that are non-empty, 2 to 50
    characters long and made of letters, whitespace characters (the class
    [\s]), hyphens and apostrophes only; props that violate this make the
    constructor throw a ValidationError. *)
Theorem user_invariant_holds :
  (forall uuid now props u, create uuid now props = Ok u -> invariant u) /\
  (forall props u, fromPersistence props = Ok u -> invariant u) /\
  (forall clock this op u, update clock this op = Ok u -> invariant u) /\
  (forall props, ~ invariant props ->
     exists e, new props = Throw e /\ is_ValidationError e = true).
Proof.
  split; [| split; [| split]].
  - intros uuid now props u H. unfold create in H.
    apply new_ok in H. destruct H as [-> I]. exact I.
  - intros props u H. unfold fromPersistence in H.
    apply new_ok in H. destruct H as [-> I]. exact I.
  - intros clock this op u H.
    destruct (update_constructs _ _ _ _ H) as [p Hp].
    apply new_ok in Hp. destruct Hp as [-> I]. exact I.
  - intros props Hbad. destruct (new props) as [u|e] eqn:E.
    + apply new_ok in E. destruct E as [_ I]. contradiction.
    + exists e. split; [reflexivity | eapply new_throws; exact E].
Qed.

Lemma bad_email_violates : ~ invariant bad_email_props.
Proof.
  intros (M & _). apply Regex.test_spec in M. vm_compute in M. discriminate.
Qed.

Lemma user_invariant_holds_witness :
  invariant john /\
  (exists u, update (fun _ => 2000%Z) john (OpAddRole (str "admin")) = Ok u /\
             invariant u) /\
  (exists e, new bad_email_props = Throw e /\ is_ValidationError e = true).
Proof.
  destruct user_invariant_holds as (Hcreate & _ & Hupdate & Hnew).
  split; [| split].
  - apply (Hcreate (str "user-1") 1000%Z john_props john). reflexivity.
  - eexists. split; [reflexivity|].
    eapply (Hupdate (fun _ => 2000%Z) john (OpAddRole (str "admin"))).
    reflexivity.
  - apply (Hnew bad_email_props). exact bad_email_violates.
Defined.

(** The name rule as the specification words it, for any reading
    [is_letter] of "letters": letters, spaces (U+0020), hyphens and
    apostrophes. *)
Definition stated_name_ok (is_letter : N -> bool) (n : jstring) : Prop :=
  n <> [] /\ (2 <= length n <= 50)%nat /\
  Forall (fun c => is_letter c = true \/ c = 32%N \/ c = 45%N \/ c = 39%N) n.

Definition mary_ann_props : CreateProps :=
  {| c_email := str "mary.ann@example.com";
     c_firstName := str "Mary" ++ [9%N] ++ str "Ann";
     c_lastName := str "Doe";
     c_avatar := None;
     c_isActive := None;
     c_roles := None;
     c_lastLoginAt := None |}.

(** C3, as stated, fails: the class of [validateName] has [\s], so a first
    name with a tab (U+0009) in it is accepted; a tab is no space, and no
    letter, hyphen or apostrophe. *)
Lemma tab_in_name_accepted :
  exists u,
    create (str "user-3") 1000 mary_ann_props = Ok u /\
    firstName u = str "Mary" ++ [9%N] ++ str "Ann" /\
    forall is_letter, is_letter 9%N = false ->
                      ~ stated_name_ok is_letter (firstName u).
Proof.
  eexists. split; [reflexivity|]. split; [reflexivity|].
  intros is_letter Hl (_ & _ & F).
  rewrite Forall_forall in F.
  destruct (F 9%N) as [H | [H | [H | H]]].
  - simpl. right. right. right. right. left. reflexivity.
  - congruence.
  - discriminate H.
  - discriminate H.
  - discriminate H.
Qed.

(** The six update methods other than [updateProfile] write the clock reading
    unchanged, so a call in the millisecond of the last update leaves
    [updatedAt] where it was. *)
Lemma update_same_reading clock this op u :
  update clock this op = Ok u ->
  (forall k, clock k = updatedAt this) ->
  (forall updates, op <> OpUpdateProfile updates) ->
  updatedAt u = updatedAt this.
Proof.
  intros H Hclock Hop.
  destruct (update_fields clock this op u H) as (_ & _ & E). rewrite E.
  destruct op; simpl; try apply Hclock.
  exfalso. eapply Hop. reflexivity.
Qed.

Definition john_inactive : User := with_isActive john false 1000.

(** C4. An update in the millisecond of the previous one.  [john] was
    created at clock reading 1000; each of [changeEmail], [deactivate],
    [updateLastLogin], [addRole], [removeRole] (and [activate], on the
    deactivated user) called at reading 1000 returns a User whose [updatedAt]
    is 1000 again: not strictly later.  [updateProfile] at the same reading
    returns 1001. *)
Theorem update_in_same_millisecond :
  create (str "user-1") 1000 john_props = Ok john /\
  Forall (fun op => exists u, update (fun _ => 1000%Z) john op = Ok u /\
                              updatedAt u = updatedAt john /\
                              ~ (updatedAt john < updatedAt u)%Z)
         [ OpChangeEmail (str "jd@example.com"); OpDeactivate;
           OpUpdateLastLogin; OpAddRole (str "admin");
           OpRemoveRole (str "user") ] /\
  (exists u, update (fun _ => 1000%Z) john_inactive OpActivate = Ok u /\
             updatedAt u = updatedAt john_inactive) /\
  (exists u, update (fun _ => 1000%Z) john
               (OpUpdateProfile (mkUpdates (Some (str "Jane")) None None None))
             = Ok u /\ updatedAt u = 1001%Z).
Proof.
  split; [reflexivity|].
  split.
  - repeat constructor;
      (eexists; split; [reflexivity | split; [reflexivity | simpl; lia]]).
  - split; eexists; split; reflexivity.
Qed.

End UserFacts.

(* ===================================================================== *)
(** * JavaScript numbers *)
(* ===================================================================== *)

(** A [number] is [NaN], an infinity, or a finite value, given by the
    rational it denotes.  Comparisons are those of IEEE 754: every comparison
    with [NaN] is false.  Sums and differences of finite values are taken
    exactly. *)

Module Num.

Inductive number : Type :=
| NaN
| NegInf
| Fin (q : Q)
| PosInf.

Definition of_Z (z : Z) : number := Fin (inject_Z z).

Definition q_ltb (x y : Q) : bool :=
  match Qcompare x y with Lt => true | _ => false end.

(** [a < b] *)
Definition ltb (a b : number) : bool :=
  match a, b with
  | NaN, _ | _, NaN => false
  | _, NegInf => false
  | NegInf, _ => true
  | PosInf, _ => false
  | Fin _, PosInf => true
  | Fin x, Fin y => q_ltb x y
  end.

(** [a > b] *)
Definition gtb (a b : number) : bool := ltb b a.

(** [a <= b] *)
Definition leb (a b : number) : bool :=
  match a, b with
  | NaN, _ | _, NaN => false
  | NegInf, _ => true
  | _, PosInf => true
  | _, NegInf => false
  | PosInf, _ => false
  | Fin x, Fin y => negb (q_ltb y x)
  end.

(** [a === b] *)
Definition eqb (a b : number) : bool :=
  match a, b with
  | NegInf, NegInf | PosInf, PosInf => true
  | Fin x, Fin y => Qeq_bool x y
  | _, _ => false
  end.

(** [a + b] *)
Definition add (a b : number) : number :=
  match a, b with
  | NaN, _ | _, NaN => NaN
  | PosInf, NegInf | NegInf, PosInf => NaN
  | PosInf, _ | _, PosInf => PosInf
  | NegInf, _ | _, NegInf => NegInf
  | Fin x, Fin y => Fin (x + y)
  end.

(** [- a] *)
Definition neg (a : number) : number :=
  match a with
  | NaN => NaN
  | NegInf => PosInf
  | PosInf => NegInf
  | Fin x => Fin (- x)
  end.

(** [a - b] *)
Definition sub (a b : number) : number := add a (neg b).

(** [Number.isInteger] *)
Definition isInteger (a : number) : bool :=
  match a with
  | Fin q => (Qnum q mod Zpos (Qden q) =? 0)%Z
  | _ => false
  end.

(** Truthiness: [0] and [NaN] are falsy. *)
Definition truthy (a : number) : bool :=
  match a with
  | NaN => false
  | Fin q => negb (Qeq_bool q 0)
  | _ => true
  end.

(** [a || d] for an optional number. *)
Definition or_default (a : option number) (d : number) : number :=
  match a with
  | Some v => if truthy v then v else d
  | None => d
  end.

(** [Math.max(a, b)] *)
Definition max (a b : number) : number :=
  match a, b with
  | NaN, _ | _, NaN => NaN
  | _, _ => if ltb a b then b else a
  end.

(** [Math.min(a, b)] *)
Definition min (a b : number) : number :=
  match a, b with
  | NaN, _ | _, NaN => NaN
  | _, _ => if ltb b a then b else a
  end.

(** A finite value in a closed interval of rationals. *)
Definition in_range (lo hi : Q) (a : number) : Prop :=
  exists q, a = Fin q /\ lo <= q /\ q <= hi.

(** A non-negative integer. *)
Definition nonneg_integer (a : number) : Prop :=
  exists q z, a = Fin q /\ (0 <= z)%Z /\ q == inject_Z z.

Lemma q_ltb_lt x y : q_ltb x y = true <-> x < y.
Proof.
  unfold q_ltb. rewrite Qlt_alt. destruct (x ?= y); split; congruence.
Qed.

Lemma q_ltb_ge x y : q_ltb x y = false <-> y <= x.
Proof.
  rewrite <- Bool.not_true_iff_false, q_ltb_lt. split.
  - apply Qnot_lt_le.
  - apply Qle_not_lt.
Qed.

Lemma isInteger_spec q :
  isInteger (Fin q) = true -> exists z, q == inject_Z z.
Proof.
  simpl. intros H. apply Z.eqb_eq in H.
  apply Z.mod_divide in H; [| discriminate].
  destruct H as [k Hk]. exists k.
  unfold Qeq, inject_Z. simpl. rewrite Hk. ring.
Qed.

Lemma q_ltb_irrefl x : q_ltb x x = false.
Proof. apply q_ltb_ge. apply Qle_refl. Qed.

Lemma q_ltb_asym x y : q_ltb x y = true -> q_ltb y x = false.
Proof. rewrite q_ltb_lt, q_ltb_ge. apply Qlt_le_weak. Qed.

Lemma truthy_not_NaN v : truthy v = true -> v <> NaN.
Proof. destruct v; simpl; congruence. Qed.

(** [a || d] is never [NaN] when the default is not. *)
Lemma or_default_not_NaN a d : d <> NaN -> or_default a d <> NaN.
Proof.
  intros Hd. destruct a as [v|]; simpl; auto.
  destruct (truthy v) eqn:T; auto. apply truthy_not_NaN; exact T.
Qed.

Lemma max_not_NaN a b : a <> NaN -> b <> NaN -> max a b <> NaN.
Proof.
  intros Ha Hb. destruct a, b; simpl; try congruence;
    match goal with |- (if ?c then _ else _) <> _ => destruct c end; congruence.
Qed.

(** The lower bound of [Math.max(x, b)]. *)
Lemma leb_max_l x b : b <> NaN -> leb (Fin x) (max (Fin x) b) = true.
Proof.
  intros Hb. destruct b as [| |y|]; simpl.
  - congruence.
  - rewrite q_ltb_irrefl. reflexivity.
  - destruct (q_ltb x y) eqn:L; simpl.
    + rewrite (q_ltb_asym _ _ L). reflexivity.
    + rewrite q_ltb_irrefl. reflexivity.
  - reflexivity.
Qed.

(** The upper bound of [Math.min(h, m)]. *)
Lemma leb_min_l h m : m <> NaN -> leb (min (Fin h) m) (Fin h) = true.
Proof.
  intros Hm. destruct m as [| |y|]; simpl.
  - congruence.
  - reflexivity.
  - destruct (q_ltb y h) eqn:L; simpl.
    + rewrite (q_ltb_asym _ _ L). reflexivity.
    + rewrite q_ltb_irrefl. reflexivity.
  - rewrite q_ltb_irrefl. reflexivity.
Qed.

(** [Math.min(h, m)] stays above a bound that both arguments are above. *)
Lemma leb_min_lower l h m :
  leb (Fin l) (Fin h) = true -> leb (Fin l) m = true ->
  leb (Fin l) (min (Fin h) m) = true.
Proof.
  intros Hh Hm. destruct m as [| |y|]; simpl in *.
  - discriminate.
  - discriminate.
  - destruct (q_ltb y h); simpl; assumption.
  - exact Hh.
Qed.

End Num.

(* ===================================================================== *)
(** * The Product entity (domain/entities/Product.ts) *)
(* ===================================================================== *)

Module Product.

Record ProductProps : Type := mkProps {
  id : jstring;
  name : jstring;
  description : jstring;
  price : Num.number;
  currency : jstring;
  categoryId : jstring;
  images : list jstring;
  inStock : Num.number;
  isActive : bool;
  tags : list jstring;
  createdAt : Z;
  updatedAt : Z
}.

Definition Product := ProductProps.

(** The literal [999999.99]. *)
Definition MAX_PRICE : Q := 99999999 # 100.

Definition validateName (name : jstring) : outcome unit :=
  if negb (truthy name) || (length (trim name) =? 0)%nat then
    Throw (new_ValidationError (str "Produktname ist erforderlich") (str "name"))
  else if (length name <? 2)%nat then
    Throw (new_ValidationError (str "Produktname muss mindestens 2 Zeichen haben")
                               (str "name"))
  else if (100 <? length name)%nat then
    Throw (new_ValidationError (str "Produktname darf maximal 100 Zeichen haben")
                               (str "name"))
  else Ok tt.

Definition validateDescription (description : jstring) : outcome unit :=
  if negb (truthy description) || (length (trim description) =? 0)%nat then
    Throw (new_ValidationError (str "Produktbeschreibung ist erforderlich")
                               (str "description"))
  else if (length description <? 10)%nat then
    Throw (new_ValidationError
             (str "Produktbeschreibung muss mindestens 10 Zeichen haben")
             (str "description"))
  else if (1000 <? length description)%nat then
    Throw (new_ValidationError
             (str "Produktbeschreibung darf maximal 1000 Zeichen haben")
             (str "description"))
  else Ok tt.

Definition validatePrice (price : Num.number) : outcome unit :=
  if Num.ltb price (Num.of_Z 0) then
    Throw (new_ValidationError (str "Preis muss mindestens 0 sein") (str "price"))
  else if Num.gtb price (Num.Fin MAX_PRICE) then
    Throw (new_ValidationError (str "Preis ist zu hoch") (str "price"))
  else Ok tt.

Definition validateStock (stock : Num.number) : outcome unit :=
  if Num.ltb stock (Num.of_Z 0) then
    Throw (new_ValidationError (str "Lagerbestand muss mindestens 0 sein")
                               (str "inStock"))
  else if negb (Num.isInteger stock) then
    Throw (new_ValidationError (str "Lagerbestand muss eine ganze Zahl sein")
                               (str "inStock"))
  else Ok tt.

(** The constructor. *)
Definition new (props : ProductProps) : outcome Product :=
  validateName (name props) ;;!
  validateDescription (description props) ;;!
  validatePrice (price props) ;;!
  validateStock (inStock props) ;;!
  Ok props.

(** [Omit<ProductProps, 'id' | 'createdAt' | 'updatedAt'>] *)
Record CreateProps : Type := mkCreateProps {
  c_name : jstring;
  c_description : jstring;
  c_price : Num.number;
  c_currency : jstring;
  c_categoryId : jstring;
  c_images : list jstring;
  c_inStock : Num.number;
  c_isActive : bool;
  c_tags : list jstring
}.

Definition create (uuid : jstring) (now : Z) (props : CreateProps) : outcome Product :=
  new {| id := uuid;
         name := c_name props;
         description := c_description props;
         price := c_price props;
         currency := c_currency props;
         categoryId := c_categoryId props;
         images := c_images props;
         inStock := c_inStock props;
         isActive := c_isActive props;
         tags := c_tags props;
         createdAt := now;
         updatedAt := now |}.

Definition fromPersistence (props : ProductProps) : outcome Product := new props.

(** The argument of [updateBasicInfo]. *)
Record BasicInfo : Type := mkBasicInfo {
  upd_name : option jstring;
  upd_description : option jstring;
  upd_price : option Num.number;
  upd_categoryId : option jstring
}.

Definition set_stock (this : Product) (stock : Num.number) (now : Z) : ProductProps :=
  {| id := id this; name := name this; description := description this;
     price := price this; currency := currency this;
     categoryId := categoryId this; images := images this;
     inStock := stock; isActive := isActive this; tags := tags this;
     createdAt := createdAt this; updatedAt := now |}.

Definition set_images (this : Product) (imgs : list jstring) (now : Z) : ProductProps :=
  {| id := id this; name := name this; description := description this;
     price := price this; currency := currency this;
     categoryId := categoryId this; images := imgs;
     inStock := inStock this; isActive := isActive this; tags := tags this;
     createdAt := createdAt this; updatedAt := now |}.

Definition set_tags (this : Product) (ts : list jstring) (now : Z) : ProductProps :=
  {| id := id this; name := name this; description := description this;
     price := price this; currency := currency this;
     categoryId := categoryId this; images := images this;
     inStock := inStock this; isActive := isActive this; tags := ts;
     createdAt := createdAt this; updatedAt := now |}.

Definition set_isActive (this : Product) (b : bool) (now : Z) : ProductProps :=
  {| id := id this; name := name this; description := description this;
     price := price this; currency := currency this;
     categoryId := categoryId this; images := images this;
     inStock := inStock this; isActive := b; tags := tags this;
     createdAt := createdAt this; updatedAt := now |}.

Definition updateBasicInfo (clock : Z) (this : Product) (updates : BasicInfo)
  : outcome Product :=
  when_truthy (upd_name updates) validateName ;;!
  when_truthy (upd_description updates) validateDescription ;;!
  match upd_price updates with
  | Some p => validatePrice p
  | None => Ok tt
  end ;;!
  new {| id := id this;
         name := spread (name this) (upd_name updates);
         description := spread (description this) (upd_description updates);
         price := spread (price this) (upd_price updates);
         currency := currency this;
         categoryId := spread (categoryId this) (upd_categoryId updates);
         images := images this;
         inStock := inStock this;
         isActive := isActive this;
         tags := tags this;
         createdAt := createdAt this;
         updatedAt := clock |}.

Definition updateStock (clock : Z) (this : Product) (newStock : Num.number)
  : outcome Product :=
  validateStock newStock ;;!
  new (set_stock this newStock clock).

Definition reduceStock (clock : Z) (this : Product) (quantity : Num.number)
  : outcome Product :=
  if Num.leb quantity (Num.of_Z 0) then
    Throw (new_DomainError (str "Menge muss positiv sein") (str "INVALID_QUANTITY") [])
  else if Num.ltb (inStock this) quantity then
    Throw (new_DomainError (str "Nicht gen" ++ [252%N] ++ str "gend Lagerbestand")
                           (str "INSUFFICIENT_STOCK") [])
  else new (set_stock this (Num.sub (inStock this) quantity) clock).

Definition addStock (clock : Z) (this : Product) (quantity : Num.number)
  : outcome Product :=
  if Num.leb quantity (Num.of_Z 0) then
    Throw (new_DomainError (str "Menge muss positiv sein") (str "INVALID_QUANTITY") [])
  else new (set_stock this (Num.add (inStock this) quantity) clock).

Definition addImage (clock : Z) (this : Product) (imageUrl : jstring)
  : outcome Product :=
  if negb (truthy imageUrl) || (length (trim imageUrl) =? 0)%nat then
    Throw (new_ValidationError (str "Bild-URL ist erforderlich") (str "imageUrl"))
  else if array_includes (images this) imageUrl then
    Throw (new_DomainError (str "Bild ist bereits vorhanden")
                           (str "IMAGE_ALREADY_EXISTS") [])
  else new (set_images this (images this ++ [imageUrl]) clock).

Definition removeImage (clock : Z) (this : Product) (imageUrl : jstring)
  : outcome Product :=
  if negb (array_includes (images this) imageUrl) then
    Throw (new_DomainError (str "Bild nicht gefunden") (str "IMAGE_NOT_FOUND") [])
  else new (set_images this
              (filter (fun img => negb (jstring_eqb img imageUrl)) (images this))
              clock).

(** [Array.prototype.findIndex]; [None] stands for [-1]. *)
Fixpoint findIndex {A} (p : A -> bool) (l : list A) : option nat :=
  match l with
  | [] => None
  | x :: l' => if p x then Some 0%nat else option_map S (findIndex p l')
  end.

(** [l.filter((_, index) => index !== i)] *)
Fixpoint remove_at {A} (i : nat) (l : list A) : list A :=
  match l, i with
  | [], _ => []
  | _ :: l', O => l'
  | x :: l', S i' => x :: remove_at i' l'
  end.

Definition addTag (clock : Z) (this : Product) (tag : jstring) : outcome Product :=
  let normalizedTag := toLowerCase (trim tag) in
  if negb (truthy normalizedTag) then
    Throw (new_ValidationError (str "Tag ist erforderlich") (str "tag"))
  else if existsb (fun t => jstring_eqb (toLowerCase t) normalizedTag) (tags this) then
    Throw (new_DomainError (str "Tag ist bereits vorhanden")
                           (str "TAG_ALREADY_EXISTS") [])
  else new (set_tags this (tags this ++ [trim tag]) clock).

Definition removeTag (clock : Z) (this : Product) (tag : jstring) : outcome Product :=
  match findIndex (fun t => jstring_eqb (toLowerCase t) (toLowerCase tag))
                  (tags this) with
  | None =>
      Throw (new_DomainError (str "Tag nicht gefunden") (str "TAG_NOT_FOUND") [])
  | Some tagIndex => new (set_tags this (remove_at tagIndex (tags this)) clock)
  end.

Definition activate (clock : Z) (this : Product) : outcome Product :=
  if isActive this then
    Throw (new_DomainError (str "Produkt ist bereits aktiv")
                           (str "PRODUCT_ALREADY_ACTIVE") [])
  else new (set_isActive this true clock).

Definition deactivate (clock : Z) (this : Product) : outcome Product :=
  if negb (isActive this) then
    Throw (new_DomainError (str "Produkt ist bereits deaktiviert")
                           (str "PRODUCT_ALREADY_INACTIVE") [])
  else new (set_isActive this false clock).

Inductive update_op : Type :=
| OpUpdateBasicInfo (updates : BasicInfo)
| OpUpdateStock (newStock : Num.number)
| OpReduceStock (quantity : Num.number)
| OpAddStock (quantity : Num.number)
| OpAddImage (imageUrl : jstring)
| OpRemoveImage (imageUrl : jstring)
| OpAddTag (tag : jstring)
| OpRemoveTag (tag : jstring)
| OpActivate
| OpDeactivate.

Definition update (clock : Z) (this : Product) (op : update_op) : outcome Product :=
  match op with
  | OpUpdateBasicInfo u => updateBasicInfo clock this u
  | OpUpdateStock n => updateStock clock this n
  | OpReduceStock q => reduceStock clock this q
  | OpAddStock q => addStock clock this q
  | OpAddImage i => addImage clock this i
  | OpRemoveImage i => removeImage clock this i
  | OpAddTag t => addTag clock this t
  | OpRemoveTag t => removeTag clock this t
  | OpActivate => activate clock this
  | OpDeactivate => deactivate clock this
  end.

(** ** The invariant, as the specification words it *)

Definition price_ok (p : Num.number) : Prop := Num.in_range 0 MAX_PRICE p.

Definition stock_ok (s : Num.number) : Prop := Num.nonneg_integer s.

Definition text_ok (p : ProductProps) : Prop :=
  (2 <= length (name p) <= 100)%nat /\
  (10 <= length (description p) <= 1000)%nat.

Definition invariant (p : ProductProps) : Prop :=
  price_ok (price p) /\ stock_ok (inStock p) /\ text_ok p.

End Product.

(* ===================================================================== *)
(** * Facts about the Product entity *)
(* ===================================================================== *)

Module ProductFacts.
Import Product.

Lemma validateName_bounds n : validateName n = Ok tt -> (2 <= length n <= 100)%nat.
Proof.
  unfold validateName. intros H.
  destruct (negb (truthy n) || (length (trim n) =? 0)%nat); [discriminate|].
  destruct (length n <? 2)%nat eqn:E2; [discriminate|].
  destruct (100 <? length n)%nat eqn:E3; [discriminate|].
  apply Nat.ltb_ge in E2, E3. lia.
Qed.

Lemma validateDescription_bounds d :
  validateDescription d = Ok tt -> (10 <= length d <= 1000)%nat.
Proof.
  unfold validateDescription. intros H.
  destruct (negb (truthy d) || (length (trim d) =? 0)%nat); [discriminate|].
  destruct (length d <? 10)%nat eqn:E2; [discriminate|].
  destruct (1000 <? length d)%nat eqn:E3; [discriminate|].
  apply Nat.ltb_ge in E2, E3. lia.
Qed.

(** What [validatePrice] lets through: the range, and [NaN]. *)
Lemma validatePrice_ok p :
  validatePrice p = Ok tt <-> p = Num.NaN \/ price_ok p.
Proof.
  unfold validatePrice, price_ok, Num.in_range, Num.gtb, Num.of_Z. split.
  - intros H. destruct p as [| |q|]; simpl in H; try discriminate; auto.
    destruct (Num.q_ltb q (inject_Z 0)) eqn:L; [discriminate|].
    destruct (Num.q_ltb MAX_PRICE q) eqn:G; [discriminate|].
    apply Num.q_ltb_ge in L, G. right. exists q. auto.
  - intros [-> | (q & -> & L & G)]; [reflexivity|]. simpl.
    apply Num.q_ltb_ge in L, G.
    change (inject_Z 0) with 0%Q. rewrite L, G. reflexivity.
Qed.

Lemma validateStock_ok s : validateStock s = Ok tt -> stock_ok s.
Proof.
  unfold validateStock, stock_ok, Num.nonneg_integer, Num.of_Z. intros H.
  destruct s as [| |q|]; simpl in H; try discriminate.
  destruct (Num.q_ltb q (inject_Z 0)) eqn:L; [discriminate|].
  destruct (Qnum q mod Z.pos (Qden q) =? 0)%Z eqn:I; [|discriminate].
  apply Num.q_ltb_ge in L.
  destruct (Num.isInteger_spec q I) as [z Hz].
  exists q, z. split; [reflexivity|]. split; [|exact Hz].
  rewrite Hz in L. change (inject_Z 0 <= inject_Z z) in L.
  rewrite <- Zle_Qle in L. exact L.
Qed.

(** Everything the constructor checks. *)
Definition checked (p : ProductProps) : Prop :=
  (price p = Num.NaN \/ price_ok (price p)) /\ stock_ok (inStock p) /\ text_ok p.

Lemma product_new_ok p u : new p = Ok u -> u = p /\ checked p.
Proof.
  unfold new. intros H.
  step_outcome H. step_outcome H. step_outcome H. step_outcome H.
  destruct a, a0, a1, a2. inversion H; subst. split; [reflexivity|].
  split; [apply validatePrice_ok; assumption|].
  split; [apply validateStock_ok; assumption|].
  split; [apply validateName_bounds | apply validateDescription_bounds]; assumption.
Qed.

Lemma product_update_constructs clock this op u :
  update clock this op = Ok u -> exists p, new p = Ok u.
Proof.
  destruct op; simpl; intros H.
  - unfold updateBasicInfo in H.
    step_outcome H. step_outcome H. step_outcome H. eauto.
  - unfold updateStock in H. step_outcome H. eauto.
  - unfold reduceStock in H.
    destruct (Num.leb quantity (Num.of_Z 0)); [discriminate|].
    destruct (Num.ltb (inStock this) quantity); [discriminate | eauto].
  - unfold addStock in H.
    destruct (Num.leb quantity (Num.of_Z 0)); [discriminate | eauto].
  - unfold addImage in H.
    destruct (negb (truthy imageUrl) || (length (trim imageUrl) =? 0)%nat);
      [discriminate|].
    destruct (array_includes (images this) imageUrl); [discriminate | eauto].
  - unfold removeImage in H.
    destruct (negb (array_includes (images this) imageUrl)); [discriminate | eauto].
  - unfold addTag in H.
    destruct (negb (truthy (toLowerCase (trim tag)))); [discriminate|].
    destruct (existsb _ (tags this)); [discriminate | eauto].
  - unfold removeTag in H.
    destruct (findIndex _ (tags this)); [eauto | discriminate].
  - unfold activate in H. destruct (isActive this); [discriminate | eauto].
  - unfold deactivate in H. destruct (negb (isActive this)); [discriminate | eauto].
Qed.

(** What does hold of every Product: the bounds on name and description, a
    non-negative integer stock, and a price that is in range unless it is
    [NaN]. *)
Lemma product_checked :
  (forall uuid now props u, create uuid now props = Ok u -> checked u) /\
  (forall props u, fromPersistence props = Ok u -> checked u) /\
  (forall clock this op u, update clock this op = Ok u -> checked u).
Proof.
  split; [| split].
  - intros uuid now props u H. unfold create in H.
    apply product_new_ok in H. destruct H as [-> I]. exact I.
  - intros props u H. apply product_new_ok in H. destruct H as [-> I]. exact I.
  - intros clock this op u H.
    destruct (product_update_constructs _ _ _ _ H) as [p Hp].
    apply product_new_ok in Hp. destruct Hp as [-> I]. exact I.
Qed.

(** With a price that is not [NaN], the invariant holds in full. *)
Lemma checked_invariant p : checked p -> price p <> Num.NaN -> invariant p.
Proof.
  intros ([E | P] & S & T) HN; [contradiction|]. unfold invariant. auto.
Qed.

Definition widget_props (p : Num.number) : CreateProps :=
  {| c_name := str "Widget";
     c_description := str "A sturdy widget";
     c_price := p;
     c_currency := str "EUR";
     c_categoryId := str "cat-1";
     c_images := [];
     c_inStock := Num.of_Z 5;
     c_isActive := true;
     c_tags := [] |}.

Definition widget (p : Num.number) : Product :=
  {| id := str "prod-1";
     name := str "Widget";
     description := str "A sturdy widget";
     price := p;
     currency := str "EUR";
     categoryId := str "cat-1";
     images := [];
     inStock := Num.of_Z 5;
     isActive := true;
     tags := [];
     createdAt := 1000;
     updatedAt := 1000 |}.

Example create_widget :
  create (str "prod-1") 1000 (widget_props (Num.Fin (1999 # 100)))
  = Ok (widget (Num.Fin (1999 # 100))).
Proof. reflexivity. Qed.

Example create_rejects_negative_price :
  exists e, create (str "prod-1") 1000 (widget_props (Num.Fin (-1 # 100))) = Throw e
            /\ err_field e = Some (str "price").
Proof. eexists; split; reflexivity. Qed.

Example create_rejects_NaN_stock :
  exists e, new (set_stock (widget (Num.of_Z 1)) Num.NaN 1000) = Throw e
            /\ err_field e = Some (str "inStock").
Proof. eexists; split; reflexivity. Qed.

Lemma NaN_not_price_ok : ~ price_ok Num.NaN.
Proof. intros (q & E & _). discriminate. Qed.

(** C9. A price of [NaN] passes [validatePrice], because [NaN < 0] and
    [NaN > 999999.99] are both false: [Product.create] and
    [updateBasicInfo] return a Product whose price is [NaN], which is not in
    [[0, 999999.99]].  [validateStock] does reject [NaN]. *)
Theorem product_price_NaN_accepted :
  create (str "prod-1") 1000 (widget_props Num.NaN) = Ok (widget Num.NaN) /\
  ~ invariant (widget Num.NaN) /\
  (exists u, update 2000 (widget (Num.of_Z 10))
               (OpUpdateBasicInfo (mkBasicInfo None None (Some Num.NaN) None)) = Ok u
             /\ price u = Num.NaN) /\
  (exists e, update 2000 (widget (Num.of_Z 10)) (OpUpdateStock Num.NaN) = Throw e).
Proof.
  split; [reflexivity|].
  split.
  - intros (P & _). exact (NaN_not_price_ok P).
  - split; eexists; [split|]; reflexivity.
Qed.

End ProductFacts.

(* ===================================================================== *)
(** * Asynchronous code *)
(* ===================================================================== *)

(** An [async] function runs to a promise.  The model keeps the events the
    run causes (the calls made to injected dependencies, the lines written to
    the console), in program order, and how the promise settles. *)

Module Async.

(** How a call to an injected dependency ends. *)
Inductive reaction (A : Type) : Type :=
| Resolves (a : A)          (* a promise fulfilled with [a] *)
| Rejects (e : thrown)      (* a promise rejected with [e] *)
| Throws (e : thrown)       (* a synchronous throw *)
| NeverSettles.             (* a promise that stays pending *)

Arguments Resolves {A} a.
Arguments Rejects {A} e.
Arguments Throws {A} e.
Arguments NeverSettles {A}.

Definition settles {A} (r : reaction A) : Prop := r <> NeverSettles.

(** The state of the promise an async function returns. *)
Inductive settled (A : Type) : Type :=
| Fulfilled (a : A)
| Rejected (e : thrown)
| Pending.

Arguments Fulfilled {A} a.
Arguments Rejected {A} e.
Arguments Pending {A}.

Definition async (E A : Type) : Type := (list E * settled A)%type.

Definition events {E A} (m : async E A) : list E := fst m.
Definition promise {E A} (m : async E A) : settled A := snd m.

Definition ret {E A} (a : A) : async E A := ([], Fulfilled a).

Definition bind {E A B} (m : async E A) (f : A -> async E B) : async E B :=
  match m with
  | (l, Fulfilled a) => let (l', r) := f a in (l ++ l', r)
  | (l, Rejected e) => (l, Rejected e)
  | (l, Pending) => (l, Pending)
  end.

(** [await dep.method(args)]: the call is recorded; a rejected promise and
    a synchronous throw both surface as an exception at the [await]. *)
Definition await {E A} (call : E) (r : reaction A) : async E A :=
  ([call],
   match r with
   | Resolves a => Fulfilled a
   | Rejects e | Throws e => Rejected e
   | NeverSettles => Pending
   end).

(** An effect with no result to wait for, such as [console.error]. *)
Definition emit {E} (e : E) : async E unit := ([e], Fulfilled tt).

(** [try { m } catch (error) { h error }] *)
Definition try_catch {E A} (m : async E A) (h : thrown -> async E A) : async E A :=
  match m with
  | (l, Rejected e) => let (l', r) := h e in (l ++ l', r)
  | _ => m
  end.

(** Code that may throw, inside an async function. *)
Definition lift {E A} (o : outcome A) : async E A :=
  match o with
  | Ok a => ret a
  | Throw e => ([], Rejected (ThrownError e))
  end.

(** A call to an async function whose promise is dropped: what the callee
    does happens, the caller goes on without waiting for it. *)
Definition fire_and_forget {E A} (m : async E A) : async E unit :=
  (events m, Fulfilled tt).








End Async.

Import Async.

Declare Scope async_scope.
Notation "x <- m ;; k" := (Async.bind m (fun x => k))
  (at level 61, m at next level, right associativity) : async_scope.
Notation "m ;; k" := (Async.bind m (fun _ => k))
  (at level 61, right associativity) : async_scope.
Local Open Scope async_scope.

(* ===================================================================== *)
(** * Types and injected dependencies of the use cases *)
(* ===================================================================== *)

Module Domain.

Inductive sort_order : Type := Asc | Desc.

(** shared/types/common.ts *)
Record PaginationParams : Type := mkPagination {
  page : option Num.number;
  pageSize : option Num.number;
  sortBy : option jstring;
  sortOrder : option sort_order
}.

Record FilterParams : Type := mkFilters {
  search : option jstring;
  status : option jstring;
  dateFrom : option Z;
  dateTo : option Z
}.

Record PaginatedUsers : Type := mkPaginated {
  pr_data : list User.User;
  pr_success : bool;
  pr_message : option jstring;
  pr_page : Num.number;
  pr_pageSize : Num.number;
  pr_total : Num.number;
  pr_totalPages : Num.number;
  pr_hasNext : bool;
  pr_hasPrevious : bool
}.

(** One entry of the [changes] object of the audit log: the key, the old and
    the new value. *)
Definition change : Type := (jstring * option jstring * option jstring)%type.

(** domain/repositories/UserRepository.ts: the methods the use cases call. *)
Record UserRepository : Type := mkRepository {
  findById : jstring -> reaction (Result (option User.User));
  findAll : PaginationParams -> FilterParams -> reaction (Result PaginatedUsers);
  save : User.User -> reaction (Result User.User);
  update : User.User -> reaction (Result User.User);
  emailExists : jstring -> reaction (Result bool)
}.

Record PasswordHasher : Type := mkHasher {
  hash : jstring -> reaction jstring
}.

Record EmailService : Type := mkEmailService {
  sendWelcomeEmail : jstring -> jstring -> reaction unit
}.

Record AuditLogger : Type := mkAuditLogger {
  logUserUpdate : jstring -> list change -> reaction unit
}.

(** What a use case does to the outside: a call of a dependency method, or
    a line on the console. *)
Inductive event : Type :=
| CallFindById (id : jstring)
| CallFindAll (pagination : PaginationParams) (filters : FilterParams)
| CallSave (user : User.User)
| CallUpdate (user : User.User)
| CallEmailExists (email : jstring)
| CallHash (password : jstring)
| CallSendWelcomeEmail (email firstName : jstring)
| CallLogUserUpdate (userId : jstring) (changes : list change)
| ConsoleError (message : jstring) (error : thrown).

Definition is_dependency_call (e : event) : bool :=
  match e with ConsoleError _ _ => false | _ => true end.

(** [errors.join(', ')] *)
Fixpoint join (sep : jstring) (l : list jstring) : jstring :=
  match l with
  | [] => []
  | [x] => x
  | x :: rest => x ++ sep ++ join sep rest
  end.

End Domain.

Import Domain.

(* ===================================================================== *)
(** * CreateUserUseCase (domain/use-cases/CreateUser.ts) *)
(* ===================================================================== *)

Module CreateUser.

Record CreateUserInput : Type := mkInput {
  email : jstring;
  firstName : jstring;
  lastName : jstring;
  password : jstring
}.

Record CreateUserOutput : Type := mkOutput {
  user : User.User
}.

(** The local [emailRegex] of [validateInput]: the same pattern as
    [VALIDATION_RULES.EMAIL_REGEX]. *)
Definition emailRegex : Regex.regex :=
  [ Regex.Many1 VALIDATION_RULES.not_space_or_at; Regex.One (N.eqb 64);
    Regex.Many1 VALIDATION_RULES.not_space_or_at; Regex.One (N.eqb 46);
    Regex.Many1 VALIDATION_RULES.not_space_or_at ].

Definition validateInput (input : CreateUserInput) : Result unit :=
  if negb (truthy (email input)) || (length (trim (email input)) =? 0)%nat then
    Failure (new_ValidationError (str "E-Mail ist erforderlich") (str "email"))
  else if negb (Regex.test emailRegex (email input)) then
    Failure (new_ValidationError
               (str "Ung" ++ [252%N] ++ str "ltige E-Mail-Adresse") (str "email"))
  else if negb (truthy (firstName input))
          || (length (trim (firstName input)) =? 0)%nat then
    Failure (new_ValidationError (str "Vorname ist erforderlich") (str "firstName"))
  else if negb (truthy (lastName input))
          || (length (trim (lastName input)) =? 0)%nat then
    Failure (new_ValidationError (str "Nachname ist erforderlich") (str "lastName"))
  else if negb (truthy (password input)) || (length (password input) =? 0)%nat then
    Failure (new_ValidationError (str "Passwort ist erforderlich") (str "password"))
  else if truthy (password input) && (length (password input) <? 8)%nat then
    Failure (new_ValidationError (str "Passwort muss mindestens 8 Zeichen haben")
                                 (str "password"))
  else Success tt.

(** The welcome email: its failure is written to the console and goes no
    further. *)
Definition sendWelcomeEmailAsync (emailService : EmailService)
    (email firstName : jstring) : async event unit :=
  try_catch
    (await (CallSendWelcomeEmail email firstName)
           (sendWelcomeEmail emailService email firstName))
    (fun error =>
       emit (ConsoleError (str "Fehler beim Senden der Willkommens-E-Mail:") error)).

(** [uuid] and [now] are what [crypto.randomUUID()] and [new Date()] give
    inside [User.create]. *)
Definition execute (userRepository : UserRepository)
    (passwordHasher : PasswordHasher) (emailService : EmailService)
    (uuid : jstring) (now : Z) (input : CreateUserInput)
  : async event (Result CreateUserOutput) :=
  try_catch
    (match validateInput input with
     | Failure e => ret (Failure e)
     | Success _ =>
         emailExistsResult <-
           await (CallEmailExists (email input))
                 (emailExists userRepository (email input)) ;;
         match emailExistsResult with
         | Failure e => ret (Failure e)
         | Success true =>
             ret (Failure (new_DomainError
                             (str "E-Mail-Adresse ist bereits registriert")
                             (str "EMAIL_ALREADY_EXISTS")
                             [(str "email", CtxString (email input))]))
         | Success false =>
             hashedPassword <-
               await (CallHash (password input))
                     (hash passwordHasher (password input)) ;;
             user <- lift (User.create uuid now
                             {| User.c_email := email input;
                                User.c_firstName := firstName input;
                                User.c_lastName := lastName input;
                                User.c_avatar := None;
                                User.c_isActive := Some true;
                                User.c_roles := Some [str "user"];
                                User.c_lastLoginAt := None |}) ;;
             saveResult <- await (CallSave user) (save userRepository user) ;;
             match saveResult with
             | Failure e => ret (Failure e)
             | Success saved =>
                 fire_and_forget
                   (sendWelcomeEmailAsync emailService (email input)
                                          (firstName input)) ;;
                 ret (Success {| user := saved |})
             end
         end
     end)
    (fun error =>
       ret (Failure (error_or error
                       (str "Unbekannter Fehler beim Erstellen des Benutzers")))).

End CreateUser.

(* ===================================================================== *)
(** * GetUserUseCase (domain/use-cases/GetUser.ts) *)
(* ===================================================================== *)

Module GetUser.

Record GetUserInput : Type := mkInput {
  id : jstring
}.

Record GetUserOutput : Type := mkOutput {
  user : User.User
}.

(** Step 1 of [execute], the check of the input. *)
Definition validateInput (input : GetUserInput) : Result unit :=
  if negb (truthy (id input)) || (length (trim (id input)) =? 0)%nat then
    Failure (new_DomainError (str "Benutzer-ID ist erforderlich")
                             (str "INVALID_INPUT") [])
  else Success tt.

Definition execute (userRepository : UserRepository) (input : GetUserInput)
  : async event (Result GetUserOutput) :=
  try_catch
    (match validateInput input with
     | Failure e => ret (Failure e)
     | Success _ =>
         userResult <-
           await (CallFindById (id input)) (findById userRepository (id input)) ;;
         match userResult with
         | Failure e => ret (Failure e)
         | Success None =>
             ret (Failure (new_NotFoundError (str "Benutzer") (id input)))
         | Success (Some found) => ret (Success {| user := found |})
         end
     end)
    (fun error =>
       ret (Failure (error_or error
                       (str "Unbekannter Fehler beim Abrufen des Benutzers")))).

End GetUser.

(* ===================================================================== *)
(** * ListUsersUseCase (domain/use-cases/ListUsers.ts) *)
(* ===================================================================== *)

Module ListUsers.

Record ListUsersInput : Type := mkInput {
  pagination : PaginationParams;
  filters : option FilterParams;
  includeInactive : option bool
}.

Record ListUsersOutput : Type := mkOutput {
  users : PaginatedUsers
}.

Definition normalizePagination (pagination : PaginationParams) : PaginationParams :=
  {| page := Some (Num.max (Num.of_Z 1)
                           (Num.or_default (page pagination) (Num.of_Z 1)));
     pageSize := Some (Num.min (Num.of_Z 100)
                         (Num.max (Num.of_Z 5)
                            (Num.or_default (pageSize pagination) (Num.of_Z 10))));
     sortBy := Some (or_else (sortBy pagination) (str "createdAt"));
     sortOrder := Some (nullish (sortOrder pagination) Desc) |}.

Definition allowed_status : list jstring :=
  [str "active"; str "inactive"; str "all"].

Definition validateFilters (filters : option FilterParams) : Result unit :=
  match filters with
  | None => Success tt
  | Some f =>
      let errors :=
        (match search f with
         | Some s => if truthy s && (100 <? length s)%nat
                     then [str "Suchbegriff darf maximal 100 Zeichen haben"]
                     else []
         | None => []
         end) ++
        (match dateFrom f, dateTo f with
         | Some from, Some to =>
             if (to <? from)%Z
             then [str "Startdatum muss vor dem Enddatum liegen"]
             else []
         | _, _ => []
         end) ++
        (match status f with
         | Some s => if truthy s && negb (array_includes allowed_status s)
                     then [str "Ung" ++ [252%N] ++ str "ltiger Status-Filter"]
                     else []
         | None => []
         end) in
      if (0 <? length errors)%nat then
        Failure (new_DomainError (join (str ", ") errors) (str "VALIDATION_ERROR")
                                 [(str "errors", CtxArray errors)])
      else Success tt
  end.

(** [{ ...inputFilters }] *)
Definition copy_filters (inputFilters : option FilterParams) : FilterParams :=
  match inputFilters with
  | Some f => f
  | None => mkFilters None None None None
  end.

Definition buildFilters (inputFilters : option FilterParams)
    (includeInactive : option bool) : FilterParams :=
  let filters := copy_filters inputFilters in
  if negb (nullish includeInactive false) && negb (truthy_opt (status filters)) then
    {| search := search filters;
       status := Some (str "active");
       dateFrom := dateFrom filters;
       dateTo := dateTo filters |}
  else filters.

Definition execute (userRepository : UserRepository) (input : ListUsersInput)
  : async event (Result ListUsersOutput) :=
  try_catch
    (let normalizedPagination := normalizePagination (pagination input) in
     match validateFilters (filters input) with
     | Failure e => ret (Failure e)
     | Success _ =>
         let filters := buildFilters (filters input) (includeInactive input) in
         usersResult <-
           await (CallFindAll normalizedPagination filters)
                 (findAll userRepository normalizedPagination filters) ;;
         match usersResult with
         | Failure e => ret (Failure e)
         | Success found => ret (Success {| users := found |})
         end
     end)
    (fun error =>
       ret (Failure (error_or error
                       (str "Unbekannter Fehler beim Auflisten der Benutzer")))).

End ListUsers.

(* ===================================================================== *)
(** * UpdateUserUseCase (domain/use-cases/UpdateUser.ts) *)
(* ===================================================================== *)

Module UpdateUser.

Record Updates : Type := mkUpdates {
  firstName : option jstring;
  lastName : option jstring;
  avatar : option jstring
}.

Record UpdateUserInput : Type := mkInput {
  id : jstring;
  updates : Updates
}.

Record UpdateUserOutput : Type := mkOutput {
  user : User.User
}.

(** [Object.keys(input.updates).length] *)
Definition keys_count (u : Updates) : nat :=
  let present (k : option jstring) : nat :=
    match k with Some _ => 1%nat | None => 0%nat end in
  (present (firstName u) + present (lastName u) + present (avatar u))%nat.

Definition name_errors (value : option jstring) (empty_msg long_msg : jstring)
  : list jstring :=
  match value with
  | Some v =>
      (if (length (trim v) =? 0)%nat then [empty_msg] else []) ++
      (if (50 <? length v)%nat then [long_msg] else [])
  | None => []
  end.

(** [URL_parses s] tells whether [new URL(s)] returns rather than throws. *)
Definition validateInput (URL_parses : jstring -> bool) (input : UpdateUserInput)
  : Result unit :=
  let errors :=
    (if negb (truthy (id input)) || (length (trim (id input)) =? 0)%nat
     then [str "Benutzer-ID ist erforderlich"] else []) ++
    (if (keys_count (updates input) =? 0)%nat
     then [str "Mindestens eine " ++ [196%N] ++ str "nderung ist erforderlich"]
     else []) ++
    name_errors (firstName (updates input))
                (str "Vorname darf nicht leer sein")
                (str "Vorname darf maximal 50 Zeichen haben") ++
    name_errors (lastName (updates input))
                (str "Nachname darf nicht leer sein")
                (str "Nachname darf maximal 50 Zeichen haben") ++
    (match avatar (updates input) with
     | Some a => if (0 <? length a)%nat && negb (URL_parses a)
                 then [str "Avatar-URL ist ung" ++ [252%N] ++ str "ltig"]
                 else []
     | None => []
     end) in
  if (0 <? length errors)%nat then
    Failure (new_DomainError (join (str ", ") errors) (str "VALIDATION_ERROR")
                             [(str "errors", CtxArray errors)])
  else Success tt.

(** [a !== b] on optional strings. *)
Definition opt_differs (a b : option jstring) : bool :=
  match a, b with
  | Some x, Some y => negb (jstring_eqb x y)
  | None, None => false
  | _, _ => true
  end.

Definition hasChanges (currentUser : User.User) (updates : Updates) : bool :=
  match firstName updates with
  | Some v => negb (jstring_eqb v (User.firstName currentUser))
  | None => false
  end
  || match lastName updates with
     | Some v => negb (jstring_eqb v (User.lastName currentUser))
     | None => false
     end
  || match avatar updates with
     | Some v => opt_differs (Some v) (User.avatar currentUser)
     | None => false
     end.

Definition logChanges (auditLogger : AuditLogger) (oldUser newUser : User.User)
  : async event unit :=
  let changes : list change :=
    (if negb (jstring_eqb (User.firstName oldUser) (User.firstName newUser))
     then [(str "firstName", Some (User.firstName oldUser),
            Some (User.firstName newUser))] else []) ++
    (if negb (jstring_eqb (User.lastName oldUser) (User.lastName newUser))
     then [(str "lastName", Some (User.lastName oldUser),
            Some (User.lastName newUser))] else []) ++
    (if opt_differs (User.avatar oldUser) (User.avatar newUser)
     then [(str "avatar", User.avatar oldUser, User.avatar newUser)] else []) in
  if (0 <? length changes)%nat then
    try_catch
      (await (CallLogUserUpdate (User.id newUser) changes)
             (logUserUpdate auditLogger (User.id newUser) changes))
      (fun error =>
         emit (ConsoleError
                 (str "Fehler beim Loggen der Benutzer-" ++ [196%N] ++ str "nderungen:")
                 error))
  else ret tt.

(** [now] is the clock reading inside [updateProfile]. *)
Definition execute (userRepository : UserRepository)
    (auditLogger : option AuditLogger) (URL_parses : jstring -> bool)
    (now : Z) (input : UpdateUserInput)
  : async event (Result UpdateUserOutput) :=
  try_catch
    (match validateInput URL_parses input with
     | Failure e => ret (Failure e)
     | Success _ =>
         currentUserResult <-
           await (CallFindById (id input)) (findById userRepository (id input)) ;;
         match currentUserResult with
         | Failure e => ret (Failure e)
         | Success None =>
             ret (Failure (new_NotFoundError (str "Benutzer") (id input)))
         | Success (Some currentUser) =>
             if negb (hasChanges currentUser (updates input)) then
               ret (Success {| user := currentUser |})
             else
               updatedUser <-
                 lift (User.updateProfile now currentUser
                         {| User.upd_firstName := firstName (updates input);
                            User.upd_lastName := lastName (updates input);
                            User.upd_email := None;
                            User.upd_avatar := avatar (updates input) |}) ;;
               saveResult <-
                 await (CallUpdate updatedUser) (update userRepository updatedUser) ;;
               match saveResult with
               | Failure e => ret (Failure e)
               | Success saved =>
                   match auditLogger with
                   | Some logger => logChanges logger currentUser updatedUser
                   | None => ret tt
                   end ;;
                   ret (Success {| user := saved |})
               end
         end
     end)
    (fun error =>
       ret (Failure (error_or error
                       (str "Unbekannter Fehler beim Aktualisieren des Benutzers")))).

End UpdateUser.

(* ===================================================================== *)
(** * Facts about the use cases *)
(* ===================================================================== *)

Module UseCaseFacts.

(** Dependencies whose awaited calls all settle (fulfil, reject or throw). *)
Definition repository_settles (r : UserRepository) : Prop :=
  (forall id, settles (findById r id)) /\
  (forall p f, settles (findAll r p f)) /\
  (forall u, settles (save r u)) /\
  (forall u, settles (update r u)) /\
  (forall e, settles (emailExists r e)).


Definition logger_settles (l : option AuditLogger) : Prop :=
  forall logger, l = Some logger ->
  forall id changes, settles (logUserUpdate logger id changes).

(** ** Neither rejected nor, with settling dependencies, left pending *)










(** ** Dependencies to run the use cases against *)

Definition no_users : PaginatedUsers :=
  {| pr_data := []; pr_success := true; pr_message := None;
     pr_page := Num.of_Z 1; pr_pageSize := Num.of_Z 10; pr_total := Num.of_Z 0;
     pr_totalPages := Num.of_Z 0; pr_hasNext := false; pr_hasPrevious := false |}.

(** A repository that answers every call. *)
Definition working_repository : UserRepository :=
  {| findById := fun _ => Resolves (Success (Some UserFacts.john));
     findAll := fun _ _ => Resolves (Success no_users);
     save := fun u => Resolves (Success u);
     update := fun u => Resolves (Success u);
     emailExists := fun _ => Resolves (Success false) |}.

Definition outage : thrown := ThrownError (new_Error (str "connection lost")).


Definition working_hasher : PasswordHasher :=
  {| hash := fun p => Resolves (str "hashed:" ++ p) |}.

Definition working_mailer : EmailService :=
  {| sendWelcomeEmail := fun _ _ => Resolves tt |}.

Definition broken_mailer : EmailService :=
  {| sendWelcomeEmail := fun _ _ => Rejects outage |}.

Definition silent_mailer : EmailService :=
  {| sendWelcomeEmail := fun _ _ => NeverSettles |}.

Definition john_input : CreateUser.CreateUserInput :=
  {| CreateUser.email := str "john.doe@example.com";
     CreateUser.firstName := str "John";
     CreateUser.lastName := str "Doe";
     CreateUser.password := str "SecurePass123!" |}.

Definition weak_password_input : CreateUser.CreateUserInput :=
  {| CreateUser.email := str "john.doe@example.com";
     CreateUser.firstName := str "John";
     CreateUser.lastName := str "Doe";
     CreateUser.password := str "123" |}.

Lemma working_repository_settles : repository_settles working_repository.
Proof. repeat split; intros; discriminate. Qed.



Example create_user_run :
  CreateUser.execute working_repository working_hasher working_mailer
                     (str "user-1") 1000 john_input
  = ([ CallEmailExists (str "john.doe@example.com");
       CallHash (str "SecurePass123!");
       CallSave UserFacts.john;
       CallSendWelcomeEmail (str "john.doe@example.com") (str "John") ],
     Fulfilled (Success {| CreateUser.user := UserFacts.john |})).
Proof. reflexivity. Qed.

Example create_user_run_mail_fails :
  CreateUser.execute working_repository working_hasher broken_mailer
                     (str "user-1") 1000 john_input
  = ([ CallEmailExists (str "john.doe@example.com");
       CallHash (str "SecurePass123!");
       CallSave UserFacts.john;
       CallSendWelcomeEmail (str "john.doe@example.com") (str "John");
       ConsoleError (str "Fehler beim Senden der Willkommens-E-Mail:") outage ],
     Fulfilled (Success {| CreateUser.user := UserFacts.john |})).
Proof. reflexivity. Qed.

Example create_user_run_mail_hangs :
  promise (CreateUser.execute working_repository working_hasher silent_mailer
                              (str "user-1") 1000 john_input)
  = Fulfilled (Success {| CreateUser.user := UserFacts.john |}).
Proof. reflexivity. Qed.

(** A first name of one letter passes [validateInput] and fails in
    [User.create], after the repository and the hasher have been called. *)
Example create_user_entity_validation_is_later :
  exists e,
    CreateUser.execute working_repository working_hasher working_mailer
      (str "user-1") 1000
      {| CreateUser.email := str "john.doe@example.com";
         CreateUser.firstName := str "J";
         CreateUser.lastName := str "Doe";
         CreateUser.password := str "SecurePass123!" |}
    = ([ CallEmailExists (str "john.doe@example.com");
         CallHash (str "SecurePass123!") ],
       Fulfilled (Failure e))
    /\ is_ValidationError e = true.
Proof. eexists. split; reflexivity. Qed.








(** C6. When the input validation of a use case fails, [execute] is fulfilled
    with that failure and the run has no event at all: no method of the
    repository, the password hasher, the email service or the audit logger
    was called. *)
Theorem validation_failure_short_circuits :
  (forall repo hasher mailer uuid now input e,
     CreateUser.validateInput input = Failure e ->
     CreateUser.execute repo hasher mailer uuid now input
     = ([], Fulfilled (Failure e))) /\
  (forall repo input e,
     GetUser.validateInput input = Failure e ->
     GetUser.execute repo input = ([], Fulfilled (Failure e))) /\
  (forall repo input e,
     ListUsers.validateFilters (ListUsers.filters input) = Failure e ->
     ListUsers.execute repo input = ([], Fulfilled (Failure e))) /\
  (forall repo logger URL_parses now input e,
     UpdateUser.validateInput URL_parses input = Failure e ->
     UpdateUser.execute repo logger URL_parses now input
     = ([], Fulfilled (Failure e))).
Proof.
  split; [| split; [| split]].
  - intros repo hasher mailer uuid now input e H.
    unfold CreateUser.execute. rewrite H. reflexivity.
  - intros repo input e H. unfold GetUser.execute. rewrite H. reflexivity.
  - intros repo input e H. unfold ListUsers.execute. cbv zeta.
    rewrite H. reflexivity.
  - intros repo logger URL_parses now input e H.
    unfold UpdateUser.execute. rewrite H. reflexivity.
Qed.

Lemma validation_failure_short_circuits_witness :
  exists e,
    CreateUser.execute working_repository working_hasher working_mailer
                       (str "user-1") 1000 weak_password_input
    = ([], Fulfilled (Failure e)) /\
    err_field e = Some (str "password").
Proof.
  destruct validation_failure_short_circuits as (Hcreate & _).
  eexists. split.
  - apply Hcreate. reflexivity.
  - reflexivity.
Defined.

(** C7. The outcome of CreateUser does not depend on the welcome email.  Two
    runs that differ only in the email service (one whose [sendWelcomeEmail]
    resolves, rejects, throws or never settles, against any other) are
    fulfilled with the same [Result] and make the same dependency calls;
    their events differ at most by the console line that reports the email
    failure. *)
Theorem welcome_email_does_not_change_result :
  forall repo hasher mailer1 mailer2 uuid now input,
    promise (CreateUser.execute repo hasher mailer1 uuid now input)
    = promise (CreateUser.execute repo hasher mailer2 uuid now input) /\
    filter is_dependency_call
           (events (CreateUser.execute repo hasher mailer1 uuid now input))
    = filter is_dependency_call
             (events (CreateUser.execute repo hasher mailer2 uuid now input)).
Proof.
  intros repo hasher mailer1 mailer2 uuid now input.
  unfold CreateUser.execute, CreateUser.sendWelcomeEmailAsync.
  destruct (CreateUser.validateInput input); [| split; reflexivity].
  destruct (emailExists repo (CreateUser.email input)) as [[[|]|]| | |];
    try (split; reflexivity).
  destruct (hash hasher (CreateUser.password input)); try (split; reflexivity).
  destruct (User.create _ _ _) as [u|]; try (split; reflexivity).
  cbn [Async.bind Async.await Async.lift Async.ret].
  destruct (save repo u) as [[saved|]| | |]; try (split; reflexivity).
  destruct (sendWelcomeEmail mailer1 _ _), (sendWelcomeEmail mailer2 _ _);
    split; reflexivity.
Qed.

(** ** What ListUsers passes to the repository *)

(** The run calls [findAll] once, after the filters have passed validation,
    and calls nothing else. *)
Lemma list_events repo input :
  events (ListUsers.execute repo input) =
  match ListUsers.validateFilters (ListUsers.filters input) with
  | Failure _ => []
  | Success _ =>
      [CallFindAll (ListUsers.normalizePagination (ListUsers.pagination input))
                   (ListUsers.buildFilters (ListUsers.filters input)
                                           (ListUsers.includeInactive input))]
  end.
Proof.
  unfold ListUsers.execute. cbv zeta.
  destruct (ListUsers.validateFilters (ListUsers.filters input)); [| reflexivity].
  destruct (findAll repo _ _) as [[found|e]|e|e|]; reflexivity.
Qed.

Lemma list_findAll_arguments repo input p f :
  In (CallFindAll p f) (events (ListUsers.execute repo input)) ->
  p = ListUsers.normalizePagination (ListUsers.pagination input) /\
  f = ListUsers.buildFilters (ListUsers.filters input)
                             (ListUsers.includeInactive input).
Proof.
  rewrite list_events.
  destruct (ListUsers.validateFilters (ListUsers.filters input));
    simpl; intros H; [| contradiction].
  destruct H as [H | []]. inversion H. auto.
Qed.

(** C8. ListUsers clamps the pagination before it queries the repository.
    Whenever the filters pass validation, the run makes one call,
    [userRepository.findAll], and the pagination it hands over is the clamped
    one: page is [max(1, page || 1)], pageSize is
    [min(100, max(5, pageSize || 10))] (the bounds and the default of
    [PAGINATION]), sortBy defaults to 'createdAt' and sortOrder to 'desc'; so
    the repository sees a page of at least 1 and a page size from 5 to
    100, for every number in the input, [NaN] and the infinities included. *)
Theorem findAll_receives_clamped_pagination :
  forall repo input,
    ListUsers.validateFilters (ListUsers.filters input) = Success tt ->
    let given := ListUsers.pagination input in
    exists p,
      events (ListUsers.execute repo input)
      = [CallFindAll p (ListUsers.buildFilters (ListUsers.filters input)
                                               (ListUsers.includeInactive input))] /\
      page p = Some (Num.max (Num.of_Z 1) (Num.or_default (page given) (Num.of_Z 1))) /\
      pageSize p =
        Some (Num.min (Num.of_Z PAGINATION.MAX_PAGE_SIZE)
                (Num.max (Num.of_Z PAGINATION.MIN_PAGE_SIZE)
                   (Num.or_default (pageSize given)
                                   (Num.of_Z PAGINATION.DEFAULT_PAGE_SIZE)))) /\
      sortBy p = Some (or_else (sortBy given) (str "createdAt")) /\
      sortOrder p = Some (nullish (sortOrder given) Desc) /\
      exists pg ps,
        page p = Some pg /\ pageSize p = Some ps /\
        Num.leb (Num.of_Z 1) pg = true /\
        Num.leb (Num.of_Z 5) ps = true /\ Num.leb ps (Num.of_Z 100) = true.
Proof.
  intros repo input V given.
  exists (ListUsers.normalizePagination (ListUsers.pagination input)).
  split; [rewrite list_events, V; reflexivity|].
  unfold ListUsers.normalizePagination. cbn [page pageSize sortBy sortOrder].
  fold given.
  repeat (split; [reflexivity|]).
  eexists. eexists. split; [reflexivity|]. split; [reflexivity|].
  assert (N1 : Num.or_default (page given) (Num.of_Z 1) <> Num.NaN)
    by (apply Num.or_default_not_NaN; discriminate).
  assert (N2 : Num.or_default (pageSize given) (Num.of_Z 10) <> Num.NaN)
    by (apply Num.or_default_not_NaN; discriminate).
  split; [apply Num.leb_max_l; exact N1|].
  split.
  - apply Num.leb_min_lower; [reflexivity|]. apply Num.leb_max_l; exact N2.
  - apply Num.leb_min_l. apply Num.max_not_NaN; [discriminate | exact N2].
Qed.

Definition wild_pagination : ListUsers.ListUsersInput :=
  {| ListUsers.pagination :=
       {| page := Some (Num.of_Z (-3)); pageSize := Some (Num.of_Z 1000);
          sortBy := None; sortOrder := None |};
     ListUsers.filters := None;
     ListUsers.includeInactive := None |}.

Definition clamped : PaginationParams :=
  {| page := Some (Num.of_Z 1); pageSize := Some (Num.of_Z 100);
     sortBy := Some (str "createdAt"); sortOrder := Some Desc |}.

Definition active_only : FilterParams :=
  {| search := None; status := Some (str "active");
     dateFrom := None; dateTo := None |}.

Example list_users_run :
  events (ListUsers.execute working_repository wild_pagination)
  = [CallFindAll clamped active_only].
Proof. reflexivity. Qed.

Lemma findAll_receives_clamped_pagination_witness :
  exists p,
    events (ListUsers.execute working_repository wild_pagination)
    = [CallFindAll p active_only] /\
    page p = Some (Num.of_Z 1) /\ pageSize p = Some (Num.of_Z 100) /\
    exists pg ps,
      page p = Some pg /\ pageSize p = Some ps /\
      Num.leb (Num.of_Z 1) pg = true /\
      Num.leb (Num.of_Z 5) ps = true /\ Num.leb ps (Num.of_Z 100) = true.
Proof.
  destruct (findAll_receives_clamped_pagination
              working_repository wild_pagination eq_refl)
    as (p & E & Hp & Hs & _ & _ & B).
  exists p. split; [exact E|]. split; [exact Hp|]. split; [exact Hs | exact B].
Defined.

(** C10. ListUsers lists active users unless told otherwise.  Whenever the
    filters pass validation, the run makes one call,
    [userRepository.findAll].  When [includeInactive] is not true and the
    status filter is absent or the empty string, the filters handed over
    carry status 'active' and are the input filters otherwise; when
    [includeInactive] is true or a non-empty status is given, they are the
    input filters unchanged (no filter at all when the input has none). *)
Theorem findAll_receives_active_by_default :
  forall repo input,
    ListUsers.validateFilters (ListUsers.filters input) = Success tt ->
    let given := ListUsers.copy_filters (ListUsers.filters input) in
    exists f,
      events (ListUsers.execute repo input)
      = [CallFindAll (ListUsers.normalizePagination (ListUsers.pagination input)) f] /\
      (ListUsers.includeInactive input <> Some true ->
       truthy_opt (status given) = false ->
       status f = Some (str "active") /\ search f = search given /\
       dateFrom f = dateFrom given /\ dateTo f = dateTo given) /\
      (ListUsers.includeInactive input = Some true \/
       truthy_opt (status given) = true ->
       f = given).
Proof.
  intros repo input V given.
  exists (ListUsers.buildFilters (ListUsers.filters input)
                                 (ListUsers.includeInactive input)).
  split; [rewrite list_events, V; reflexivity|].
  unfold ListUsers.buildFilters. fold given. cbv zeta. split.
  - intros Hinc Hst. rewrite Hst.
    destruct (ListUsers.includeInactive input) as [[|]|]; simpl;
      try (exfalso; apply Hinc; reflexivity); auto.
  - intros [Hinc | Hst].
    + rewrite Hinc. reflexivity.
    + rewrite Hst. rewrite andb_false_r. reflexivity.
Qed.

Definition inactive_only : FilterParams :=
  {| search := Some (str "doe"); status := Some (str "inactive");
     dateFrom := None; dateTo := None |}.

Definition list_inactive : ListUsers.ListUsersInput :=
  {| ListUsers.pagination := clamped;
     ListUsers.filters := Some inactive_only;
     ListUsers.includeInactive := None |}.

Lemma findAll_receives_active_by_default_witness :
  (exists f,
     events (ListUsers.execute working_repository wild_pagination)
     = [CallFindAll clamped f] /\ status f = Some (str "active")) /\
  (exists f,
     events (ListUsers.execute working_repository list_inactive)
     = [CallFindAll clamped f] /\ f = inactive_only).
Proof.
  split.
  - destruct (findAll_receives_active_by_default
                working_repository wild_pagination eq_refl) as (f & E & Hd & _).
    exists f. split; [exact E|].
    apply Hd; [discriminate | reflexivity].
  - destruct (findAll_receives_active_by_default
                working_repository list_inactive eq_refl) as (f & E & _ & Hk).
    exists f. split; [exact E|].
    apply Hk. right. reflexivity.
Defined.

(** The second half of the claim as the specification states it: a status
    filter that the input gives is passed on as it is. *)
Definition explicit_status_passes_unchanged : Prop :=
  forall repo input given s p f,
    ListUsers.filters input = Some given -> status given = Some s ->
    In (CallFindAll p f) (events (ListUsers.execute repo input)) ->
    f = given.

Definition empty_status : FilterParams :=
  {| search := Some (str "doe"); status := Some [];
     dateFrom := None; dateTo := None |}.

Definition list_empty_status : ListUsers.ListUsersInput :=
  {| ListUsers.pagination := clamped;
     ListUsers.filters := Some empty_status;
     ListUsers.includeInactive := Some false |}.

(** C10, as stated, fails: [buildFilters] tests [!filters.status], so a
    status given as the empty string counts as no status and is replaced by
    'active'. *)
Lemma empty_status_replaced_by_active :
  events (ListUsers.execute working_repository list_empty_status)
  = [CallFindAll clamped
       {| search := Some (str "doe"); status := Some (str "active");
          dateFrom := None; dateTo := None |}] /\
  ~ explicit_status_passes_unchanged.
Proof.
  split; [reflexivity|].
  intros H.
  assert (Hin : In (CallFindAll clamped
                      {| search := Some (str "doe"); status := Some (str "active");
                         dateFrom := None; dateTo := None |})
                   (events (ListUsers.execute working_repository list_empty_status)))
    by (left; reflexivity).
  specialize (H working_repository list_empty_status empty_status [] clamped _
                eq_refl eq_refl Hin).
  discriminate H.
Qed.

End UseCaseFacts.

(* ===================================================================== *)
(** * The HTTP client (infrastructure/api/HttpClient.ts) *)
(* ===================================================================== *)

(** Time is in milliseconds on one clock.  The network is given by what
    happens to each attempt of a request, the attempts counted from 0. *)

Module Http.

Local Open Scope Z_scope.

(** ** Configuration *)

Definition headers : Type := list (jstring * jstring).

Record HttpClientOptions : Type := mkOptions {
  opt_baseUrl : option jstring;
  opt_timeout : option Z;
  opt_headers : option headers;
  opt_retryAttempts : option Z;
  opt_retryDelay : option Z
}.

(** [AbortSignal]: the time its controller aborts it, if ever. *)
Record AbortSignal : Type := mkSignal {
  aborts_at : option Z
}.

Record RequestOptions : Type := mkRequestOptions {
  req_headers : option headers;
  req_timeout : option Z;
  req_signal : option AbortSignal
}.

Record HttpClient : Type := mkClient {
  baseUrl : jstring;
  timeout : Z;
  retryAttempts : Z;
  retryDelay : Z;
  defaultHeaders : headers
}.

(** [n || d] for an optional count or duration: [undefined] and [0] fall
    back to [d]. *)
Definition or_number (n : option Z) (d : Z) : Z :=
  match n with
  | Some v => if v =? 0 then d else v
  | None => d
  end.

(** [API_CONFIG.baseUrl], without [VITE_API_BASE_URL] in the environment. *)
Definition API_CONFIG_baseUrl : jstring := str "https://api.example.com".

(** The constructor. *)
Definition new (options : HttpClientOptions) : HttpClient :=
  {| baseUrl := or_else (opt_baseUrl options) API_CONFIG_baseUrl;
     timeout := or_number (opt_timeout options) API_CONFIG.timeout;
     retryAttempts := or_number (opt_retryAttempts options) API_CONFIG.retryAttempts;
     retryDelay := or_number (opt_retryDelay options) API_CONFIG.retryDelay;
     defaultHeaders :=
       [(str "Content-Type", str "application/json");
        (str "Accept", str "application/json")]
       ++ nullish (opt_headers options) [] |}.

Definition no_options : HttpClientOptions := mkOptions None None None None None.

(** ** Responses and errors *)

(** The [error] member of an error envelope. *)
Record api_error : Type := mkApiError {
  code : jstring;
  message : jstring;
  details : option jstring
}.

(** [ApiErrorResponse]: [{ error, success: false }]. *)
Record ApiErrorResponse : Type := mkErrorResponse {
  error : api_error
}.

(** The [success] member of a parsed body. *)
Inductive success_member : Type :=
| SuccessAbsent
| SuccessBoolean (b : bool)
| SuccessOther.

(** What [handleResponse] reads of the body: [null] (an empty or unparsable
    text), an object with the members the type guards look at, or any other
    JSON value.  [raw] is the JSON text. *)
Inductive parsed : Type :=
| Null
| Object (raw : jstring) (data : option jstring) (err : option api_error)
         (success : success_member) (msg : option jstring)
| OtherJson (raw : jstring).

(** [ApiResponse<T>]; [res_data] is the [data] member, a JSON value. *)
Record ApiResponse : Type := mkResponse {
  res_data : parsed;
  res_success : bool;
  res_message : option jstring
}.

(** What a [catch] clause of the client can receive: an [Error] thrown by
    [fetch], or the plain object thrown by [handleResponse]. *)
Inductive caught : Type :=
| CaughtError (e : js_error)
| CaughtObject (r : ApiErrorResponse).

(** The [DOMException] an aborted [fetch] rejects with. *)
Definition AbortError : js_error :=
  mkError DOMExceptionCls (str "AbortError")
          (str "The operation was aborted.") None None [].

Definition is_TypeError (e : js_error) : bool :=
  match err_class e with TypeErrorCls => true | _ => false end.

Definition shouldRetry (error : caught) : bool :=
  match error with
  | CaughtError e =>
      if is_TypeError e && includes (err_message e) (str "fetch") then true
      else if jstring_eqb (err_name e) (str "AbortError") then true
      else false
  | CaughtObject _ => false
  end.

Definition createApiError (error : caught) : ApiErrorResponse :=
  match error with
  | CaughtError e =>
      if is_TypeError e && includes (err_message e) (str "fetch") then
        {| error := {| code := str "NETWORK_ERROR";
                       message := str "Netzwerkfehler: Bitte pr" ++ [252%N]
                                  ++ str "fen Sie Ihre Internetverbindung";
                       details := None |} |}
      else if jstring_eqb (err_name e) (str "AbortError") then
        {| error := {| code := str "TIMEOUT_ERROR";
                       message := str "Anfrage-Timeout: Der Server antwortet nicht";
                       details := None |} |}
      else
        {| error := {| code := str "UNKNOWN_ERROR";
                       message := err_message e;
                       details := None |} |}
  | CaughtObject _ =>
      {| error := {| code := str "UNKNOWN_ERROR";
                     message := str "Unbekannter Fehler";
                     details := None |} |}
  end.

(** Decimal digits of a status code. *)
Fixpoint digits (fuel : nat) (n : Z) (acc : jstring) : jstring :=
  match fuel with
  | O => acc
  | S fuel' =>
      let acc' := Z.to_N (48 + n mod 10) :: acc in
      if n / 10 =? 0 then acc' else digits fuel' (n / 10) acc'
  end.

Definition show_status (status : Z) : jstring := digits 20 status [].

Definition getErrorMessage (status : Z) : jstring :=
  if status =? 400 then str "Ung" ++ [252%N] ++ str "ltige Anfrage"
  else if status =? 401 then str "Nicht autorisiert"
  else if status =? 403 then str "Zugriff verweigert"
  else if status =? 404 then str "Ressource nicht gefunden"
  else if status =? 500 then str "Interner Serverfehler"
  else str "HTTP-Fehler: " ++ show_status status.

Definition getSuccessMessage (status : Z) : option jstring :=
  if status =? 201 then Some (str "Erfolgreich erstellt")
  else if status =? 204 then Some (str "Erfolgreich gel" ++ [246%N] ++ str "scht")
  else None.

Definition isApiResponse (data : parsed) : bool :=
  match data with
  | Object _ (Some _) _ (SuccessBoolean _) _ => true
  | _ => false
  end.

Definition isApiErrorResponse (data : parsed) : bool :=
  match data with
  | Object _ _ (Some _) (SuccessBoolean false) _ => true
  | _ => false
  end.

(** [data as Record<string, unknown>], as JSON text. *)
Definition raw_details (data : parsed) : option jstring :=
  match data with
  | Null => None
  | Object raw _ _ _ _ => Some raw
  | OtherJson raw => Some raw
  end.

Definition createHttpError (status : Z) (data : parsed) : ApiErrorResponse :=
  match data with
  | Object _ _ (Some e) (SuccessBoolean false) _ => {| error := e |}
  | _ => {| error := {| code := str "HTTP_" ++ show_status status;
                        message := getErrorMessage status;
                        details := raw_details data |} |}
  end.

(** [response.ok] *)
Definition ok (status : Z) : bool := (200 <=? status) && (status <=? 299).

(** The response as [ApiResponse], or the object thrown for a status
    outside 200..299. *)
Definition handleResponse (status : Z) (responseData : parsed)
  : ApiResponse + ApiErrorResponse :=
  if negb (ok status) then inr (createHttpError status responseData)
  else match responseData with
       | Object _ (Some d) _ (SuccessBoolean b) m =>
           inl {| res_data := OtherJson d; res_success := b; res_message := m |}
       | _ => inl {| res_data := responseData; res_success := true;
                     res_message := getSuccessMessage status |}
       end.

(** ** The network and [fetch] *)

Record RequestInit : Type := mkInit {
  method : jstring;
  init_headers : headers;
  init_signal : option AbortSignal;
  body : option jstring
}.

(** What the network does with one attempt: answer after a while, fail after
    a while (as [fetch] does with a [TypeError]), or stay silent. *)
Inductive exchange : Type :=
| Responds (after : Z) (status : Z) (body : parsed)
| Fails (after : Z) (e : js_error)
| Silent.

(** The network tells it for every URL, request and attempt. *)
Definition network : Type := jstring -> RequestInit -> nat -> exchange.

(** How a call of [fetch] ends, and when. *)
Inductive fetched : Type :=
| Response (at_time : Z) (status : Z) (body : parsed)
| Rejection (at_time : Z) (e : js_error)
| NoSettle.

(** [fetch] started at [t0] with a signal that aborts at [abort_at]: the
    answer wins when it comes strictly before the abort. *)
Definition fetch (x : exchange) (abort_at : option Z) (t0 : Z) : fetched :=
  match abort_at with
  | Some a =>
      if a <=? t0 then Rejection t0 AbortError
      else match x with
           | Responds d status body =>
               if t0 + d <? a then Response (t0 + d) status body
               else Rejection a AbortError
           | Fails d e =>
               if t0 + d <? a then Rejection (t0 + d) e
               else Rejection a AbortError
           | Silent => Rejection a AbortError
           end
  | None =>
      match x with
      | Responds d status body => Response (t0 + d) status body
      | Fails d e => Rejection (t0 + d) e
      | Silent => NoSettle
      end
  end.

(** The abort time of [init.signal || controller.signal]: the caller's
    signal when there is one, else the controller the timer of this attempt
    aborts after [timeout] ([setTimeout] takes a negative delay as 0). *)
Definition signal_in_use (this : HttpClient) (init : RequestInit) (t0 : Z)
  : option Z :=
  match init_signal init with
  | Some s => aborts_at s
  | None => Some (t0 + Z.max 0 (timeout this))
  end.

(** ** Retrying *)

(** How one attempt ended. *)
Inductive attempt_result : Type :=
| Responded (status : Z)
| FetchRejected (e : js_error)
| NoAnswer.

Inductive http_event : Type :=
| Attempt (n : nat) (started : Z) (r : attempt_result)
| Wait (ms : Z).

(** How the promise of a request settles. *)
Inductive final : Type :=
| Returned (r : ApiResponse)
| Threw (e : ApiErrorResponse)
| Hangs
| OutOfFuel.

Definition run : Type := (list http_event * final)%type.

Definition trace (r : run) : list http_event := fst r.
Definition result (r : run) : final := snd r.

(** [executeWithRetry]; [n] counts the attempts made before this one and
    [t] is the time it starts.  The recursion is on [fuel]; [request] gives
    it as much as [attemptsLeft] can ever use. *)
Fixpoint executeWithRetry (this : HttpClient) (net : network)
    (url : jstring) (init : RequestInit)
    (fuel : nat) (attemptsLeft : Z) (n : nat) (t : Z) {struct fuel} : run :=
  let retry_or_throw (r : attempt_result) (error : caught) (t' : Z) : run :=
    if (0 <? attemptsLeft) && shouldRetry error then
      match fuel with
      | S fuel' =>
          let (events, fin) :=
            executeWithRetry this net url init fuel' (attemptsLeft - 1) (S n)
                             (t' + Z.max 0 (retryDelay this)) in
          (Attempt n t r :: Wait (retryDelay this) :: events, fin)
      | O => ([Attempt n t r], OutOfFuel)
      end
    else ([Attempt n t r], Threw (createApiError error)) in
  match fetch (net url init n) (signal_in_use this init t) t with
  | Response t' status body =>
      match handleResponse status body with
      | inl response => ([Attempt n t (Responded status)], Returned response)
      | inr httpError =>
          retry_or_throw (Responded status) (CaughtObject httpError) t'
      end
  | Rejection t' e => retry_or_throw (FetchRejected e) (CaughtError e) t'
  | NoSettle => ([Attempt n t NoAnswer], Hangs)
  end.

Definition startsWith_http (endpoint : jstring) : bool :=
  startsWith endpoint (str "http").

(** [s.replace(/\/$/, '')] *)
Definition strip_trailing_slash (s : jstring) : jstring :=
  match rev s with
  | 47%N :: r => rev r
  | _ => s
  end.

(** [s.replace(/^\//, '')] *)
Definition strip_leading_slash (s : jstring) : jstring :=
  match s with
  | 47%N :: r => r
  | _ => s
  end.

Definition buildUrl (this : HttpClient) (endpoint : jstring) : jstring :=
  if startsWith_http endpoint then endpoint
  else strip_trailing_slash (baseUrl this) ++ [47%N] ++ strip_leading_slash endpoint.

Definition takes_body (method : jstring) : bool :=
  array_includes [str "POST"; str "PUT"; str "PATCH"] method.

(** [request], started at time [t]. *)
Definition request (this : HttpClient) (net : network) (t : Z)
    (method url : jstring) (data : option jstring) (options : RequestOptions)
  : run :=
  let fullUrl := buildUrl this url in
  let requestInit :=
    {| method := method;
       init_headers := defaultHeaders this ++ nullish (req_headers options) [];
       init_signal := req_signal options;
       body := if truthy_opt data && takes_body method then data else None |} in
  executeWithRetry this net fullUrl requestInit (Z.to_nat (retryAttempts this))
                   (retryAttempts this) 0%nat t.

Definition get (this : HttpClient) (net : network) (t : Z) (url : jstring)
    (options : RequestOptions) : run :=
  request this net t (str "GET") url None options.

Definition post (this : HttpClient) (net : network) (t : Z) (url : jstring)
    (data : option jstring) (options : RequestOptions) : run :=
  request this net t (str "POST") url data options.

Definition put (this : HttpClient) (net : network) (t : Z) (url : jstring)
    (data : option jstring) (options : RequestOptions) : run :=
  request this net t (str "PUT") url data options.

Definition patch (this : HttpClient) (net : network) (t : Z) (url : jstring)
    (data : option jstring) (options : RequestOptions) : run :=
  request this net t (str "PATCH") url data options.

Definition delete (this : HttpClient) (net : network) (t : Z) (url : jstring)
    (options : RequestOptions) : run :=
  request this net t (str "DELETE") url None options.

(** The retries of a run: the waits between its attempts. *)
Definition is_wait (e : http_event) : bool :=
  match e with Wait _ => true | Attempt _ _ _ => false end.

Definition retries (r : run) : nat := length (filter is_wait (trace r)).

End Http.

(* ===================================================================== *)
(** * Facts about the HTTP client *)
(* ===================================================================== *)

Module HttpFacts.
Import Http.

Local Open Scope Z_scope.

(** The errors [shouldRetry] lets through: a [TypeError] of [fetch], and an
    abort. *)
Definition transient (e : js_error) : Prop :=
  (is_TypeError e = true /\ includes (err_message e) (str "fetch") = true) \/
  err_name e = str "AbortError".

Lemma shouldRetry_transient error :
  shouldRetry error = true <-> exists e, error = CaughtError e /\ transient e.
Proof.
  unfold transient. split.
  - destruct error as [e|r]; cbn [shouldRetry]; [| intros H; discriminate H].
    destruct (is_TypeError e && includes (err_message e) (str "fetch")) eqn:T.
    + intros _. exists e. apply andb_true_iff in T. auto.
    + destruct (jstring_eqb (err_name e) (str "AbortError")) eqn:A;
        [| intros H; discriminate H].
      intros _. exists e. apply jstring_eqb_spec in A. auto.
  - intros (e & -> & [[T I] | A]); cbn [shouldRetry].
    + rewrite T, I. reflexivity.
    + rewrite A, jstring_eqb_refl.
      destruct (is_TypeError e && includes (err_message e) (str "fetch"));
        reflexivity.
Qed.

(** The shape of every run: an attempt is the last one, or it is a rejected
    [fetch] with a transient error, followed by a wait of [delay] and by the
    rest of the run. *)
Inductive retry_discipline (delay : Z) : list http_event -> Prop :=
| last_attempt n t r :
    retry_discipline delay [Attempt n t r]
| retried n t e rest :
    transient e -> retry_discipline delay rest ->
    retry_discipline delay (Attempt n t (FetchRejected e) :: Wait delay :: rest).

Definition waits (l : list http_event) : nat := length (filter is_wait l).

(** What [executeWithRetry] does, with enough fuel. *)
Lemma executeWithRetry_disciplined this net url init fuel :
  forall attemptsLeft n t,
    (Z.to_nat attemptsLeft <= fuel)%nat ->
    let r := executeWithRetry this net url init fuel attemptsLeft n t in
    retry_discipline (retryDelay this) (trace r) /\
    Z.of_nat (waits (trace r)) <= Z.max 0 attemptsLeft /\
    result r <> OutOfFuel.
Proof.
  induction fuel as [|fuel IH]; intros attemptsLeft n t Hfuel;
    cbn [executeWithRetry]; cbv zeta.
  - (* no fuel: [attemptsLeft] is not positive, nothing is retried *)
    assert (L : (0 <? attemptsLeft) = false) by (apply Z.ltb_ge; lia).
    rewrite L. cbn [andb].
    destruct (fetch (net url init n) (signal_in_use this init t) t) as [t' st b|t' e|];
      [destruct (handleResponse st b) | |];
      cbn [trace result fst snd waits filter is_wait length];
      (split; [constructor | split; [lia | discriminate]]).
  - destruct (fetch (net url init n) (signal_in_use this init t) t) as [t' st b|t' e|].
    + destruct (handleResponse st b) as [resp|herr].
      * cbn [trace result fst snd waits filter is_wait length].
        split; [constructor | split; [lia | discriminate]].
      * cbn [shouldRetry]. rewrite andb_false_r.
        cbn [trace result fst snd waits filter is_wait length].
        split; [constructor | split; [lia | discriminate]].
    + destruct ((0 <? attemptsLeft) && shouldRetry (CaughtError e)) eqn:R.
      * apply andb_true_iff in R. destruct R as [L R].
        apply Z.ltb_lt in L.
        apply shouldRetry_transient in R. destruct R as (e' & E & T).
        inversion E; subst e'.
        specialize (IH (attemptsLeft - 1) (S n)
                       (t' + Z.max 0 (retryDelay this))).
        destruct (executeWithRetry this net url init fuel (attemptsLeft - 1) (S n)
                    (t' + Z.max 0 (retryDelay this))) as [evs fin].
        cbn [trace result fst snd] in *. destruct IH as (D & W & F); [lia|].
        split; [constructor; assumption|].
        split; [| exact F].
        unfold waits in *. cbn [filter is_wait length].
        rewrite Nat2Z.inj_succ. lia.
      * cbn [trace result fst snd waits filter is_wait length].
        split; [constructor | split; [lia | discriminate]].
    + cbn [trace result fst snd waits filter is_wait length].
      split; [constructor | split; [lia | discriminate]].
Qed.

(** An attempt that got a response is never followed by another one. *)
Lemma response_ends_run delay l :
  retry_discipline delay l ->
  forall pre n t status post,
    l = pre ++ Attempt n t (Responded status) :: post -> post = [].
Proof.
  induction 1 as [n0 t0 r|n0 t0 e rest T D IH]; intros pre n t status post E.
  - destruct pre as [|x pre]; simpl in E.
    + inversion E. reflexivity.
    + inversion E. destruct pre; discriminate.
  - destruct pre as [|x [|y pre]]; simpl in E.
    + discriminate.
    + discriminate.
    + inversion E. eapply IH. eassumption.
Qed.

(** ** Concrete clients, networks and requests *)

Definition default_client : HttpClient := new no_options.

Definition plain_request : RequestOptions := mkRequestOptions None None None.

(** A network on which every [fetch] fails at once, as in a browser that is
    offline. *)
Definition offline : network :=
  fun _ _ _ => Fails 5 (new_TypeError (str "Failed to fetch")).

(** A server that never answers. *)
Definition silent : network := fun _ _ _ => Silent.

(** A server that answers 503 to everything. *)
Definition unavailable : network := fun _ _ _ => Responds 20 503 Null.

Example default_client_fields :
  timeout default_client = 10000 /\ retryAttempts default_client = 3 /\
  retryDelay default_client = 1000.
Proof. repeat split. Qed.

Example offline_run :
  get default_client offline 0 (str "/users") plain_request
  = ([ Attempt 0 0 (FetchRejected (new_TypeError (str "Failed to fetch")));
       Wait 1000;
       Attempt 1 1005 (FetchRejected (new_TypeError (str "Failed to fetch")));
       Wait 1000;
       Attempt 2 2010 (FetchRejected (new_TypeError (str "Failed to fetch")));
       Wait 1000;
       Attempt 3 3015 (FetchRejected (new_TypeError (str "Failed to fetch"))) ],
     Threw (createApiError
              (CaughtError (new_TypeError (str "Failed to fetch"))))).
Proof. reflexivity. Qed.

Example silent_run :
  get default_client silent 0 (str "/users") plain_request
  = ([ Attempt 0 0 (FetchRejected AbortError); Wait 1000;
       Attempt 1 11000 (FetchRejected AbortError); Wait 1000;
       Attempt 2 22000 (FetchRejected AbortError); Wait 1000;
       Attempt 3 33000 (FetchRejected AbortError) ],
     Threw (createApiError (CaughtError AbortError))).
Proof. reflexivity. Qed.

(** The object [handleResponse] throws for a 503 is caught by the [catch] of
    [executeWithRetry], which does not retry it and wraps it again. *)
Example unavailable_run :
  get default_client unavailable 0 (str "/users") plain_request
  = ([ Attempt 0 0 (Responded 503) ],
     Threw {| error := {| code := str "UNKNOWN_ERROR";
                          message := str "Unbekannter Fehler";
                          details := None |} |}).
Proof. reflexivity. Qed.

(** C1. The client retries only after a [fetch] that was rejected with a
    transient error (a [TypeError] whose message contains 'fetch', or an
    [AbortError]), and never after a response, whatever its status; before
    each retry it waits [retryDelay]; and a request makes at most
    [retryAttempts] retries, where [retryAttempts] is the configured value, or
    the default 3 when the option is absent or 0. *)
Theorem retries_only_transient_and_bounded :
  (forall options,
     retryAttempts (new options)
     = match opt_retryAttempts options with
       | Some v => if v =? 0 then 3 else v
       | None => 3
       end) /\
  (forall this net t method url data options,
     let r := request this net t method url data options in
     retry_discipline (retryDelay this) (trace r) /\
     (forall pre n t0 status post,
        trace r = pre ++ Attempt n t0 (Responded status) :: post -> post = []) /\
     Z.of_nat (retries r) <= Z.max 0 (retryAttempts this) /\
     result r <> OutOfFuel).
Proof.
  split.
  - intros options. reflexivity.
  - intros this net t method url data options r.
    destruct (executeWithRetry_disciplined this net (buildUrl this url)
                {| method := method;
                   init_headers := defaultHeaders this
                                   ++ nullish (req_headers options) [];
                   init_signal := req_signal options;
                   body := if truthy_opt data && takes_body method
                           then data else None |}
                (Z.to_nat (retryAttempts this)) (retryAttempts this) 0%nat t
                (Nat.le_refl _)) as (D & W & F).
    split; [exact D|]. split; [| split; [exact W | exact F]].
    intros pre n t0 status post E. eapply response_ends_run; [exact D | exact E].
Qed.

(** The number of retries the specification grants a client built from
    [options]: the configured [retryAttempts], 3 when none is configured. *)
Definition configured_retries (options : HttpClientOptions) : Z :=
  nullish (opt_retryAttempts options) API_CONFIG.retryAttempts.

Definition no_retries : HttpClientOptions :=
  mkOptions None None None (Some 0) None.

(** C1, as stated, fails: a client configured with [retryAttempts: 0]
    retries three times. *)
Lemma zero_retryAttempts_not_honoured :
  configured_retries no_retries = 0 /\
  retries (get (new no_retries) offline 0 (str "/users") plain_request) = 3%nat /\
  ~ (forall options net t url request_options,
       Z.of_nat (retries (get (new options) net t url request_options))
       <= configured_retries options).
Proof.
  split; [reflexivity|]. split; [reflexivity|].
  intros H.
  specialize (H no_retries offline 0 (str "/users") plain_request).
  vm_compute in H. apply H. reflexivity.
Qed.

(** ** Timeouts *)


Definition aborted_attempt (ev : http_event) : Prop :=
  match ev with
  | Attempt _ _ r => r = FetchRejected AbortError
  | Wait _ => True
  end.

Definition timeout_error : ApiErrorResponse :=
  createApiError (CaughtError AbortError).












End HttpFacts.

(* ===================================================================== *)
(** * More of the User entity: queries and how the methods compose *)
(* ===================================================================== *)

Module UserQueries.
Import User.

Definition hasRole (this : User) (role : jstring) : bool :=
  array_includes (roles this) role.

Definition hasAnyRole (this : User) (rs : list jstring) : bool :=
  existsb (fun role => array_includes (roles this) role) rs.

Definition hasAllRoles (this : User) (rs : list jstring) : bool :=
  forallb (fun role => array_includes (roles this) role) rs.

Definition canLogin (this : User) : bool := isActive this.

(** The address shape that [EMAIL_REGEX] accepts: a local part, [@], a
    domain, a dot and a last part, each non-empty and free of whitespace and
    of [@]. *)
Definition plain (c : N) : Prop := is_whitespace c = false /\ c <> 64%N.

Definition email_shape (e : jstring) : Prop :=
  exists l d t,
    e = l ++ 64%N :: d ++ 46%N :: t /\
    l <> [] /\ d <> [] /\ t <> [] /\
    Forall plain l /\ Forall plain d /\ Forall plain t.

(** Which fields an update method may write, besides [updatedAt]. *)
Definition writes_email (op : update_op) : bool :=
  match op with
  | OpUpdateProfile u => match upd_email u with Some _ => true | None => false end
  | OpChangeEmail _ => true
  | _ => false
  end.

Definition writes_names (op : update_op) : bool :=
  match op with OpUpdateProfile _ => true | _ => false end.

Definition writes_isActive (op : update_op) : bool :=
  match op with OpActivate | OpDeactivate => true | _ => false end.

Definition writes_roles (op : update_op) : bool :=
  match op with OpAddRole _ | OpRemoveRole _ => true | _ => false end.

Definition writes_lastLoginAt (op : update_op) : bool :=
  match op with OpUpdateLastLogin => true | _ => false end.

End UserQueries.

Module UserQueryFacts.
Import User UserQueries UserFacts.

Lemma plain_iff c : VALIDATION_RULES.not_space_or_at c = true <-> plain c.
Proof.
  unfold VALIDATION_RULES.not_space_or_at, plain.
  rewrite negb_true_iff, orb_false_iff, N.eqb_neq. tauto.
Qed.

Lemma Forall_plain l :
  Forall (fun c => VALIDATION_RULES.not_space_or_at c = true) l <-> Forall plain l.
Proof.
  split; intros H; (eapply Forall_impl; [| exact H]); intros c; apply plain_iff.
Qed.

Lemma email_regex_shape e :
  Regex.matches VALIDATION_RULES.EMAIL_REGEX e <-> email_shape e.
Proof.
  unfold VALIDATION_RULES.EMAIL_REGEX, email_shape. split.
  - intros M.
    inversion M as [| |p1 r1 l s1 Hl Fl M1]; subst.
    inversion M1 as [|p2 r2 c2 s2 Hc2 M2|]; subst.
    inversion M2 as [| |p3 r3 d s3 Hd Fd M3]; subst.
    inversion M3 as [|p4 r4 c4 s4 Hc4 M4|]; subst.
    inversion M4 as [| |p5 r5 t s5 Ht Ft M5]; subst.
    inversion M5; subst.
    apply N.eqb_eq in Hc2, Hc4. subst c2 c4.
    exists l, d, t. rewrite app_nil_r.
    repeat split; try assumption; apply Forall_plain; assumption.
  - intros (l & d & t & -> & Hl & Hd & Ht & Fl & Fd & Ft).
    apply Forall_plain in Fl, Fd, Ft.
    constructor; [exact Hl | exact Fl|].
    constructor; [reflexivity|].
    constructor; [exact Hd | exact Fd|].
    constructor; [reflexivity|].
    rewrite <- (app_nil_r t).
    constructor; [exact Ht | exact Ft | constructor].
Qed.

(** X1. [validateEmail] accepts exactly the addresses of the shape
    local@domain.last, where the three parts are non-empty and hold neither
    whitespace nor [@]. *)
Theorem validateEmail_accepts_shape :
  forall e, validateEmail e = Ok tt <-> email_shape e.
Proof.
  intros e. rewrite <- email_regex_shape. split.
  - apply validateEmail_ok.
  - apply validateEmail_complete.
Qed.

Lemma validateEmail_shaped e : validateEmail e = Ok tt -> email_shape e.
Proof. intros H. apply email_regex_shape, validateEmail_ok, H. Qed.

Lemma shaped_validateEmail e : email_shape e -> validateEmail e = Ok tt.
Proof. intros H. apply validateEmail_complete, email_regex_shape, H. Qed.

(** The constructor looks at the email and the two names only. *)
Lemma new_same_checked p u p' :
  new p = Ok u ->
  email p' = email p -> firstName p' = firstName p -> lastName p' = lastName p ->
  new p' = Ok p'.
Proof.
  unfold new. intros H He Hf Hl. rewrite He, Hf, Hl.
  step_outcome H. step_outcome H. step_outcome H.
  destruct a, a0, a1. reflexivity.
Qed.

(** X2. An update method writes its own field and [updatedAt], and nothing
    else: the email changes only under [changeEmail] or an [updateProfile]
    that carries an email, the names and the avatar only under
    [updateProfile], [isActive] only under [activate] and [deactivate], the
    roles only under [addRole] and [removeRole], [lastLoginAt] only under
    [updateLastLogin]; [id] and [createdAt] never. *)
Theorem update_writes_only_its_field :
  forall clock this op u,
    update clock this op = Ok u ->
    id u = id this /\ createdAt u = createdAt this /\
    (writes_email op = false -> email u = email this) /\
    (writes_names op = false ->
     firstName u = firstName this /\ lastName u = lastName this /\
     avatar u = avatar this) /\
    (writes_isActive op = false -> isActive u = isActive this) /\
    (writes_roles op = false -> roles u = roles this) /\
    (writes_lastLoginAt op = false -> lastLoginAt u = lastLoginAt this).
Proof.
  intros clock this op u H. destruct op; simpl in H.
  - unfold updateProfile in H.
    step_outcome H. step_outcome H. step_outcome H.
    apply new_ok in H. destruct H as [-> _]. simpl.
    repeat split; try reflexivity; try discriminate.
    destruct (upd_email updates); [discriminate | reflexivity].
  - unfold changeEmail in H. step_outcome H.
    destruct (jstring_eqb newEmail (email this)); [discriminate|].
    apply new_ok in H. destruct H as [-> _]. simpl.
    repeat split; try reflexivity; discriminate.
  - unfold activate in H. destruct (isActive this); [discriminate|].
    apply new_ok in H. destruct H as [-> _]. simpl.
    repeat split; try reflexivity; discriminate.
  - unfold deactivate in H. destruct (negb (isActive this)); [discriminate|].
    apply new_ok in H. destruct H as [-> _]. simpl.
    repeat split; try reflexivity; discriminate.
  - unfold updateLastLogin in H.
    apply new_ok in H. destruct H as [-> _]. simpl.
    repeat split; try reflexivity; discriminate.
  - unfold addRole in H.
    destruct (array_includes (roles this) role); [discriminate|].
    apply new_ok in H. destruct H as [-> _]. simpl.
    repeat split; try reflexivity; discriminate.
  - unfold removeRole in H.
    destruct (negb (array_includes (roles this) role)); [discriminate|].
    apply new_ok in H. destruct H as [-> _]. simpl.
    repeat split; try reflexivity; discriminate.
Qed.

Lemma update_writes_only_its_field_witness :
  exists u, update (fun _ => 2000%Z) john (OpAddRole (str "admin")) = Ok u /\
            email u = email john /\ isActive u = isActive john /\
            id u = id john.
Proof.
  eexists. split; [reflexivity|].
  destruct (update_writes_only_its_field
              (fun _ => 2000%Z) john (OpAddRole (str "admin")) _ eq_refl)
    as (Hid & _ & He & _ & Ha & _).
  split; [apply He; reflexivity|]. split; [apply Ha; reflexivity | exact Hid].
Defined.

(** ** Roles *)

Lemma array_includes_In l x : array_includes l x = true <-> In x l.
Proof.
  unfold array_includes. rewrite existsb_exists. split.
  - intros (y & Hy & E). apply jstring_eqb_spec in E. subst. exact Hy.
  - intros H. exists x. split; [exact H | apply jstring_eqb_refl].
Qed.

Lemma filter_other_notin (l : list jstring) x :
  ~ In x l -> filter (fun r => negb (jstring_eqb r x)) l = l.
Proof.
  induction l as [|y l IH]; simpl; intros H; [reflexivity|].
  destruct (jstring_eqb y x) eqn:E.
  - apply jstring_eqb_spec in E. subst. exfalso. apply H. left. reflexivity.
  - simpl. rewrite IH; [reflexivity|]. intros K. apply H. right. exact K.
Qed.

Lemma filter_other_removes (l : list jstring) x :
  ~ In x (filter (fun r => negb (jstring_eqb r x)) l).
Proof.
  intros H. apply filter_In in H. destruct H as [_ H].
  rewrite jstring_eqb_refl in H. discriminate.
Qed.

(** X3. [addRole] followed by [removeRole] of the same role gives back the
    roles the user had: [addRole] appends a role the user does not have yet,
    after which [hasRole] holds, and [removeRole] then succeeds, takes it out
    again and leaves the other roles in their order. *)
Theorem addRole_then_removeRole :
  forall clock1 clock2 this role u1,
    addRole clock1 this role = Ok u1 ->
    hasRole this role = false /\
    roles u1 = roles this ++ [role] /\ hasRole u1 role = true /\
    exists u2,
      removeRole clock2 u1 role = Ok u2 /\
      roles u2 = roles this /\ hasRole u2 role = false.
Proof.
  intros clock1 clock2 this role u1 H. unfold addRole in H. unfold hasRole.
  destruct (array_includes (roles this) role) eqn:I; [discriminate|].
  pose proof H as Hnew. apply new_ok in H. destruct H as [-> _].
  split; [reflexivity|]. split; [reflexivity|].
  assert (Hin : array_includes (roles this ++ [role]) role = true).
  { apply array_includes_In. apply in_or_app. right. left. reflexivity. }
  split; [exact Hin|].
  assert (Hnot : ~ In role (roles this)).
  { intros K. apply array_includes_In in K. congruence. }
  assert (Hf : filter (fun r => negb (jstring_eqb r role)) (roles this ++ [role])
               = roles this).
  { rewrite filter_app, (filter_other_notin _ _ Hnot). simpl.
    rewrite jstring_eqb_refl. simpl. apply app_nil_r. }
  unfold removeRole. cbn [roles with_roles]. rewrite Hin. cbn [negb].
  eexists. split.
  - eapply new_same_checked; [exact Hnew | reflexivity | reflexivity | reflexivity].
  - cbn [roles with_roles]. rewrite Hf. split; [reflexivity | exact I].
Qed.

Lemma addRole_then_removeRole_witness :
  exists u2,
    removeRole 3000
      (with_roles john (roles john ++ [str "admin"]) 2000) (str "admin") = Ok u2 /\
    roles u2 = roles john /\ hasRole u2 (str "admin") = false.
Proof.
  destruct (addRole_then_removeRole 2000%Z 3000%Z john (str "admin")
              (with_roles john (roles john ++ [str "admin"]) 2000) eq_refl)
    as (_ & _ & _ & H).
  exact H.
Defined.

(** X4. Roles stay free of duplicates: when the roles of a user are pairwise
    different, so are the roles of the user [addRole] or [removeRole]
    returns; and after [removeRole] the user no longer has the role. *)
Theorem roles_stay_distinct :
  forall clock this role u,
    NoDup (roles this) ->
    (addRole clock this role = Ok u -> NoDup (roles u)) /\
    (removeRole clock this role = Ok u ->
     NoDup (roles u) /\ hasRole u role = false).
Proof.
  intros clock this role u Hnd. split; intros H.
  - unfold addRole in H.
    destruct (array_includes (roles this) role) eqn:I; [discriminate|].
    apply new_ok in H. destruct H as [-> _]. cbn [roles with_roles].
    apply NoDup_app; [exact Hnd | repeat constructor; intros [] |].
    intros x Hx [Hr | []]. subst x.
    apply array_includes_In in Hx. congruence.
  - unfold removeRole in H.
    destruct (negb (array_includes (roles this) role)); [discriminate|].
    apply new_ok in H. destruct H as [-> _]. cbn [roles with_roles]. split.
    + apply NoDup_filter. exact Hnd.
    + unfold hasRole. cbn [roles].
      destruct (array_includes _ role) eqn:I; [| reflexivity].
      apply array_includes_In in I. exfalso.
      exact (filter_other_removes _ _ I).
Qed.

Lemma roles_stay_distinct_witness :
  NoDup (roles (with_roles john (roles john ++ [str "admin"]) 2000)).
Proof.
  refine (proj1 (roles_stay_distinct 2000%Z john (str "admin") _ _) eq_refl).
  simpl. repeat constructor. intros [].
Defined.

(** ** Activation *)

(** X5. [deactivate] works on an active user only and returns one who
    cannot log in; deactivating that user again throws
    USER_ALREADY_INACTIVE, and [activate] gives back the user as it was, but
    for [updatedAt]. *)
Theorem deactivate_then_activate :
  forall clock1 clock2 this u1,
    deactivate clock1 this = Ok u1 ->
    isActive this = true /\ canLogin u1 = false /\
    (exists e, deactivate clock2 u1 = Throw e /\
               err_code e = Some (str "USER_ALREADY_INACTIVE")) /\
    exists u2,
      activate clock2 u1 = Ok u2 /\ canLogin u2 = true /\
      updatedAt u2 = clock2 /\
      with_isActive u2 true (updatedAt this) = this.
Proof.
  intros clock1 clock2 this u1 H. unfold deactivate in H.
  destruct (isActive this) eqn:A; [| discriminate]. cbn [negb] in H.
  pose proof H as Hnew. apply new_ok in H. destruct H as [-> _].
  split; [reflexivity|]. split; [reflexivity|]. split.
  - eexists. split; reflexivity.
  - exists (with_isActive this true clock2). split; [| split; [| split]].
    + unfold activate. cbn [isActive with_isActive].
      eapply new_same_checked; [exact Hnew | reflexivity | reflexivity | reflexivity].
    + reflexivity.
    + reflexivity.
    + unfold with_isActive. cbn. rewrite <- A. destruct this; reflexivity.
Qed.

Lemma deactivate_then_activate_witness :
  exists u2,
    activate 3000 (with_isActive john false 2000) = Ok u2 /\ canLogin u2 = true.
Proof.
  destruct (deactivate_then_activate 2000%Z 3000%Z john
              (with_isActive john false 2000) eq_refl)
    as (_ & _ & _ & u2 & H & C & _).
  exists u2. split; [exact H | exact C].
Defined.

(** ** Changing the email *)

(** X6. [changeEmail] returns a user only for a new address that differs
    from the current one and has the accepted shape, and the user it returns
    carries that address.  Called with the current address it throws:
    EMAIL_UNCHANGED when that address is well-formed, a ValidationError
    otherwise. *)
Theorem changeEmail_needs_a_new_address :
  forall clock this newEmail,
    (forall u, changeEmail clock this newEmail = Ok u ->
               email u = newEmail /\ newEmail <> email this /\
               email_shape newEmail) /\
    (newEmail = email this ->
     exists e, changeEmail clock this newEmail = Throw e /\
               (email_shape newEmail ->
                err_code e = Some (str "EMAIL_UNCHANGED")) /\
               (~ email_shape newEmail -> is_ValidationError e = true)).
Proof.
  intros clock this newEmail. split.
  - intros u H. unfold changeEmail in H. step_outcome H.
    destruct a. apply validateEmail_shaped in E.
    destruct (jstring_eqb newEmail (email this)) eqn:Q; [discriminate|].
    apply new_ok in H. destruct H as [-> _]. cbn [email with_email].
    split; [reflexivity|]. split; [| exact E].
    intros K. apply jstring_eqb_spec in K. congruence.
  - intros ->. unfold changeEmail.
    destruct (validateEmail (email this)) as [[]|e] eqn:V; cbn [obind].
    + rewrite jstring_eqb_refl. eexists. split; [reflexivity|].
      split; [reflexivity|]. intros K. exfalso. apply K.
      apply validateEmail_shaped. exact V.
    + exists e. split; [reflexivity|]. split.
      * intros K. apply shaped_validateEmail in K. congruence.
      * intros _. eapply validateEmail_throws. exact V.
Qed.

Lemma changeEmail_needs_a_new_address_witness :
  exists e, changeEmail 2000 john (email john) = Throw e /\
            err_code e = Some (str "EMAIL_UNCHANGED").
Proof.
  destruct (proj2 (changeEmail_needs_a_new_address 2000%Z john (email john))
                  eq_refl) as (e & H & Hc & _).
  exists e. split; [exact H|]. apply Hc.
  apply validateEmail_shaped. reflexivity.
Defined.

(** ** Empty strings in a profile update *)

Lemma new_needs_names p u : new p = Ok u -> firstName p <> [] /\ lastName p <> [] /\ email p <> [].
Proof.
  intros H. apply new_ok in H. destruct H as (_ & M & (F & _) & (L & _)).
  split; [exact F|]. split; [exact L|].
  intros E. rewrite E in M. apply Regex.test_spec in M. discriminate M.
Qed.

(** X7. An empty string in the argument of [updateProfile] is neither
    skipped nor stored: the guard [if (updates.x)] skips its validation, but
    the spread still writes it, and the constructor then throws.  Whenever
    the first name, the last name or the email of the updates is the empty
    string, [updateProfile] throws a ValidationError. *)
Theorem updateProfile_rejects_empty_string :
  forall clock this updates,
    upd_firstName updates = Some [] \/ upd_lastName updates = Some [] \/
    upd_email updates = Some [] ->
    exists e, updateProfile clock this updates = Throw e /\
              is_ValidationError e = true.
Proof.
  intros clock this updates Hempty. unfold updateProfile.
  destruct (when_truthy (upd_firstName updates) _) as [[]|e] eqn:V1; cbn [obind].
  2:{ exists e. split; [reflexivity|].
      unfold when_truthy in V1. destruct (upd_firstName updates) as [v|];
        [| discriminate].
      destruct (truthy v); [| discriminate].
      eapply validateName_throws. exact V1. }
  destruct (when_truthy (upd_lastName updates) _) as [[]|e] eqn:V2; cbn [obind].
  2:{ exists e. split; [reflexivity|].
      unfold when_truthy in V2. destruct (upd_lastName updates) as [v|];
        [| discriminate].
      destruct (truthy v); [| discriminate].
      eapply validateName_throws. exact V2. }
  destruct (when_truthy (upd_email updates) validateEmail) as [[]|e] eqn:V3;
    cbn [obind].
  2:{ exists e. split; [reflexivity|].
      unfold when_truthy in V3. destruct (upd_email updates) as [v|];
        [| discriminate].
      destruct (truthy v); [| discriminate].
      eapply validateEmail_throws. exact V3. }
  cbv zeta.
  match goal with |- exists e, new ?p = _ /\ _ => destruct (new p) as [u|e] eqn:Hn end.
  - exfalso. apply new_needs_names in Hn. cbn [firstName lastName email] in Hn.
    destruct Hn as (F & L & E).
    destruct Hempty as [H | [H | H]]; rewrite H in *; cbn [spread] in *; congruence.
  - exists e. split; [reflexivity|]. eapply new_throws. exact Hn.
Qed.

Lemma updateProfile_rejects_empty_string_witness :
  exists e, updateProfile 2000 john (mkUpdates (Some []) None None None) = Throw e /\
            is_ValidationError e = true.
Proof.
  apply updateProfile_rejects_empty_string. left. reflexivity.
Defined.

(** ** What the constructor accepts *)

(** A string of whitespace only. *)
Definition blank (s : jstring) : Prop :=
  Forall (fun c => is_whitespace c = true) s.

(** The names [validateName] lets through. *)
Definition name_accepted (n : jstring) : Prop :=
  (2 <= length n <= 50)%nat /\
  Forall (fun c => is_name_char c = true) n /\
  ~ blank n.

Lemma not_blank_iff s :
  negb (truthy s) || (length (trim s) =? 0)%nat = false <-> ~ blank s.
Proof.
  unfold blank. rewrite <- trim_empty_iff. split.
  - intros H E. rewrite E in H. rewrite orb_true_r in H. discriminate H.
  - intros H. destruct s as [|c s]; [exfalso; apply H; reflexivity|].
    cbn [truthy negb orb]. apply Nat.eqb_neq. intros L.
    apply H. apply length_zero_iff_nil. exact L.
Qed.

Lemma validateName_iff n f : validateName n f = Ok tt <-> name_accepted n.
Proof.
  unfold validateName, name_accepted. split.
  - intros H.
    destruct (negb (truthy n) || (length (trim n) =? 0)%nat) eqn:E1;
      [discriminate|].
    destruct (length n <? 2)%nat eqn:E2; [discriminate|].
    destruct (50 <? length n)%nat eqn:E3; [discriminate|].
    destruct (Regex.test NAME_REGEX n) eqn:T; [| discriminate].
    apply Nat.ltb_ge in E2, E3. apply not_blank_iff in E1.
    apply Regex.test_spec in T.
    inversion T as [| |p r w s Hw Hall Hm Ea Eb]; subst.
    inversion Hm; subst. rewrite app_nil_r in *.
    split; [lia|]. split; assumption.
  - intros (L & F & B). apply not_blank_iff in B. rewrite B.
    assert (E2 : (length n <? 2)%nat = false) by (apply Nat.ltb_ge; lia).
    assert (E3 : (50 <? length n)%nat = false) by (apply Nat.ltb_ge; lia).
    rewrite E2, E3.
    assert (T : Regex.test NAME_REGEX n = true).
    { apply Regex.test_spec. unfold NAME_REGEX. rewrite <- (app_nil_r n).
      constructor; [| exact F | constructor].
      intros E. subst n. simpl in L. lia. }
    rewrite T. reflexivity.
Qed.

(** X8. The constructor of User accepts exactly the props whose email has
    the accepted shape and whose first and last name have 2 to 50
    characters, all of them letters, whitespace, hyphens or apostrophes, and
    not all of them whitespace; it returns them unchanged.  The other fields
    are not looked at. *)
Theorem new_accepts_exactly :
  forall p,
    new p = Ok p <->
    email_shape (email p) /\ name_accepted (firstName p) /\
    name_accepted (lastName p).
Proof.
  intros p. unfold new. split.
  - intros H. step_outcome H. step_outcome H. step_outcome H.
    destruct a, a0, a1.
    split; [apply validateEmail_shaped; assumption|].
    split; eapply validateName_iff; eassumption.
  - intros (E & F & L).
    rewrite (shaped_validateEmail _ E).
    rewrite (proj2 (validateName_iff _ (str "Vorname")) F).
    rewrite (proj2 (validateName_iff _ (str "Nachname")) L).
    reflexivity.
Qed.

End UserQueryFacts.

(* ===================================================================== *)
(** * More of the Product entity: queries, stock, tags and images *)
(* ===================================================================== *)

Module ProductQueries.
Import Product.

Definition isAvailable (this : Product) : bool :=
  isActive this && Num.gtb (inStock this) (Num.of_Z 0).

Definition canOrder (this : Product) (quantity : Num.number) : bool :=
  isAvailable this && Num.leb quantity (inStock this).

Definition hasTag (this : Product) (tag : jstring) : bool :=
  existsb (fun t => jstring_eqb (toLowerCase t) (toLowerCase tag)) (tags this).

Definition isInCategory (this : Product) (category : jstring) : bool :=
  jstring_eqb (categoryId this) category.

Definition isOutOfStock (this : Product) : bool :=
  Num.eqb (inStock this) (Num.of_Z 0).

(** [isLowStock(threshold = 10)] *)
Definition isLowStock (this : Product) (threshold : option Num.number) : bool :=
  Num.leb (inStock this) (nullish threshold (Num.of_Z 10)) &&
  Num.gtb (inStock this) (Num.of_Z 0).

Definition hasImages (this : Product) : bool := (0 <? length (images this))%nat.

Definition getMainImage (this : Product) : option jstring := hd_error (images this).

(** The integers that a double holds exactly, [Number.isSafeInteger]: on
    them the exact sums and differences of [Num] are those of the
    program. *)
Definition MAX_SAFE_INTEGER : Z := 9007199254740991.

Definition isSafeInteger (a : Num.number) : bool :=
  Num.isInteger a && Num.leb (Num.of_Z (- MAX_SAFE_INTEGER)) a
  && Num.leb a (Num.of_Z MAX_SAFE_INTEGER).

(** Which fields an update method may write, besides [updatedAt]. *)
Definition writes_info (op : update_op) : bool :=
  match op with OpUpdateBasicInfo _ => true | _ => false end.

Definition writes_stock (op : update_op) : bool :=
  match op with
  | OpUpdateStock _ | OpReduceStock _ | OpAddStock _ => true
  | _ => false
  end.

Definition writes_images (op : update_op) : bool :=
  match op with OpAddImage _ | OpRemoveImage _ => true | _ => false end.

Definition writes_tags (op : update_op) : bool :=
  match op with OpAddTag _ | OpRemoveTag _ => true | _ => false end.

Definition writes_isActive (op : update_op) : bool :=
  match op with OpActivate | OpDeactivate => true | _ => false end.

End ProductQueries.

Module ProductQueryFacts.
Import Product ProductQueries ProductFacts.

(** ** Integers among the rationals *)

Lemma isInteger_iff q :
  Num.isInteger (Num.Fin q) = true <-> exists z, q == inject_Z z.
Proof.
  split; [apply Num.isInteger_spec|].
  intros [z Hz]. simpl. apply Z.eqb_eq.
  unfold Qeq, inject_Z in Hz. simpl in Hz. rewrite Z.mul_1_r in Hz.
  rewrite Hz. apply Z.mod_mul. discriminate.
Qed.

Lemma isInteger_plus x y :
  Num.isInteger (Num.Fin x) = true -> Num.isInteger (Num.Fin y) = true ->
  Num.isInteger (Num.Fin (x + y)) = true.
Proof.
  rewrite !isInteger_iff. intros [a Ha] [b Hb]. exists (a + b)%Z.
  rewrite Ha, Hb, inject_Z_plus. reflexivity.
Qed.

Lemma isInteger_opp x :
  Num.isInteger (Num.Fin x) = true -> Num.isInteger (Num.Fin (- x)) = true.
Proof.
  rewrite !isInteger_iff. intros [a Ha]. exists (- a)%Z.
  rewrite Ha, inject_Z_opp. reflexivity.
Qed.

Lemma isSafeInteger_Fin a :
  isSafeInteger a = true -> exists q, a = Num.Fin q /\ Num.isInteger (Num.Fin q) = true.
Proof.
  unfold isSafeInteger. intros H.
  apply andb_true_iff in H. destruct H as [H _].
  apply andb_true_iff in H. destruct H as [H _].
  destruct a as [| |q|]; try discriminate. exists q. auto.
Qed.

(** The constructor looks at the name, the description, the price and the
    stock only. *)
Lemma product_new_same_checked p u p' :
  new p = Ok u ->
  name p' = name p -> description p' = description p -> price p' = price p ->
  validateStock (inStock p') = Ok tt ->
  new p' = Ok p'.
Proof.
  unfold new. intros H Hn Hd Hp Hs. rewrite Hn, Hd, Hp, Hs.
  step_outcome H. step_outcome H. step_outcome H.
  destruct a, a0, a1. reflexivity.
Qed.

Lemma product_new_stock p u : new p = Ok u -> validateStock (inStock p) = Ok tt.
Proof.
  unfold new. intros H.
  step_outcome H. step_outcome H. step_outcome H. step_outcome H.
  destruct a2. reflexivity.
Qed.

(** Whatever the constructor throws is a ValidationError. *)
Lemma product_new_throws p e : new p = Throw e -> is_ValidationError e = true.
Proof.
  unfold new, validateName, validateDescription, validatePrice, validateStock.
  intros H.
  repeat match type of H with
         | context [if ?c then _ else _] => destruct c; cbn [obind] in H
         end;
    inversion H; reflexivity.
Qed.

(** ** Stock *)

Lemma validateStock_difference a q :
  Num.isInteger (Num.Fin a) = true -> Num.isInteger (Num.Fin q) = true ->
  q <= a ->
  validateStock (Num.sub (Num.Fin a) (Num.Fin q)) = Ok tt.
Proof.
  intros Ia Iq L. unfold validateStock, Num.sub. cbn [Num.neg Num.add Num.ltb Num.of_Z].
  assert (G : Num.q_ltb (a + - q) (inject_Z 0) = false).
  { apply Num.q_ltb_ge. change (inject_Z 0) with 0%Q. lra. }
  rewrite G. rewrite (isInteger_plus _ _ Ia (isInteger_opp _ Iq)). reflexivity.
Qed.

(** X9. An order that [canOrder] admits can be taken from the stock: on a
    Product, for a positive quantity with [canOrder(quantity)], the quantity
    and the stock being integers that a double holds exactly,
    [reduceStock(quantity)] returns a Product whose stock is the difference,
    again a non-negative integer, and that is still available exactly when
    the order did not take the whole stock. *)
Theorem canOrder_then_reduceStock :
  forall clock p this quantity,
    new p = Ok this ->
    isSafeInteger (inStock this) = true ->
    isSafeInteger quantity = true ->
    Num.gtb quantity (Num.of_Z 0) = true ->
    canOrder this quantity = true ->
    exists u,
      reduceStock clock this quantity = Ok u /\
      inStock u = Num.sub (inStock this) quantity /\
      stock_ok (inStock u) /\
      isAvailable u = negb (Num.eqb quantity (inStock this)).
Proof.
  intros clock p this quantity Hnew Sa Sq Pos Can.
  pose proof Hnew as Hp. apply product_new_ok in Hp. destruct Hp as [-> _].
  destruct (isSafeInteger_Fin _ Sa) as (a & Ea & Ia).
  destruct (isSafeInteger_Fin _ Sq) as (q & Eq & Iq).
  unfold canOrder, isAvailable in Can.
  apply andb_true_iff in Can. destruct Can as [Av Le].
  apply andb_true_iff in Av. destruct Av as [Act _].
  rewrite Eq, Ea in Le. cbn [Num.leb] in Le. apply negb_true_iff in Le.
  rewrite Eq in Pos. unfold Num.gtb, Num.of_Z in Pos. cbn [Num.ltb] in Pos.
  assert (Lqa : q <= a) by (apply Num.q_ltb_ge; exact Le).
  assert (Pq : 0 < q) by (apply Num.q_ltb_lt in Pos; exact Pos).
  assert (V : validateStock (Num.sub (Num.Fin a) (Num.Fin q)) = Ok tt)
    by (apply validateStock_difference; assumption).
  exists (set_stock p (Num.sub (inStock p) quantity) clock).
  split; [| split; [reflexivity | split]].
  - unfold reduceStock. rewrite Eq, Ea. unfold Num.of_Z. cbn [Num.leb Num.ltb].
    rewrite Pos, Le. cbn [negb].
    eapply product_new_same_checked; [exact Hnew | reflexivity | reflexivity
                                      | reflexivity | exact V].
  - cbn [inStock set_stock]. rewrite Eq, Ea. apply validateStock_ok. exact V.
  - unfold isAvailable. cbn [inStock isActive set_stock]. rewrite Act, Eq, Ea.
    unfold Num.gtb, Num.sub, Num.of_Z.
    cbn [Num.neg Num.add Num.ltb Num.eqb andb].
    destruct (Qeq_bool q a) eqn:E; cbn [negb].
    + apply Qeq_bool_iff in E. apply Num.q_ltb_ge.
      change (inject_Z 0) with 0%Q. lra.
    + apply Qeq_bool_neq in E. apply Num.q_ltb_lt.
      change (inject_Z 0) with 0%Q. lra.
Qed.

Lemma canOrder_then_reduceStock_witness :
  exists u,
    reduceStock 2000 (widget (Num.of_Z 10)) (Num.of_Z 5) = Ok u /\
    inStock u = Num.sub (Num.of_Z 5) (Num.of_Z 5) /\
    isAvailable u = false.
Proof.
  destruct (canOrder_then_reduceStock 2000%Z (widget (Num.of_Z 10))
              (widget (Num.of_Z 10)) (Num.of_Z 5)
              eq_refl eq_refl eq_refl eq_refl eq_refl) as (u & H & S & _ & A).
  exists u. split; [exact H|]. split; [exact S | exact A].
Defined.

(** X10. [reduceStock] followed by [addStock] of the same quantity gives
    back the stock and leaves every other field but [updatedAt] as it was,
    the quantity and the stock being integers that a double holds
    exactly. *)
Theorem reduceStock_then_addStock :
  forall clock1 clock2 this quantity u1,
    isSafeInteger (inStock this) = true ->
    isSafeInteger quantity = true ->
    reduceStock clock1 this quantity = Ok u1 ->
    exists u2,
      addStock clock2 u1 quantity = Ok u2 /\
      Num.eqb (inStock u2) (inStock this) = true /\
      set_stock u2 (inStock this) (updatedAt this) = this.
Proof.
  intros clock1 clock2 this quantity u1 Sa Sq H.
  destruct (isSafeInteger_Fin _ Sa) as (a & Ea & Ia).
  destruct (isSafeInteger_Fin _ Sq) as (q & Eq & Iq).
  unfold reduceStock in H. rewrite Eq, Ea in H.
  unfold Num.of_Z in H. cbn [Num.leb Num.ltb] in H.
  destruct (Num.q_ltb (inject_Z 0) q) eqn:Pos; cbn [negb] in H; [| discriminate].
  destruct (Num.q_ltb a q) eqn:Le; [discriminate|].
  pose proof H as Hnew. apply product_new_ok in H. destruct H as [-> _].
  apply Num.q_ltb_lt in Pos. change (inject_Z 0) with 0%Q in Pos.
  apply Num.q_ltb_ge in Le.
  assert (V : validateStock (Num.Fin (a + - q + q)) = Ok tt).
  { unfold validateStock, Num.of_Z. cbn [Num.ltb].
    assert (G : Num.q_ltb (a + - q + q) (inject_Z 0) = false).
    { apply Num.q_ltb_ge. change (inject_Z 0) with 0%Q. lra. }
    rewrite G.
    rewrite (isInteger_plus _ _ (isInteger_plus _ _ Ia (isInteger_opp _ Iq)) Iq).
    reflexivity. }
  eexists. split; [| split].
  - unfold addStock. rewrite Eq. unfold Num.of_Z. cbn [Num.leb].
    assert (P : Num.q_ltb (inject_Z 0) q = true)
      by (apply Num.q_ltb_lt; change (inject_Z 0) with 0%Q; exact Pos).
    rewrite P. cbn [negb inStock set_stock Num.sub Num.neg Num.add].
    eapply product_new_same_checked; [exact Hnew | reflexivity | reflexivity
                                      | reflexivity | exact V].
  - cbn [inStock set_stock]. rewrite Ea. cbn [Num.eqb].
    apply Qeq_bool_iff. ring.
  - destruct this; reflexivity.
Qed.

Lemma reduceStock_then_addStock_witness :
  exists u2,
    addStock 3000 (set_stock (widget (Num.of_Z 10))
                     (Num.sub (Num.of_Z 5) (Num.of_Z 2)) 2000) (Num.of_Z 2)
    = Ok u2 /\
    Num.eqb (inStock u2) (Num.of_Z 5) = true.
Proof.
  destruct (reduceStock_then_addStock 2000%Z 3000%Z (widget (Num.of_Z 10))
              (Num.of_Z 2) _ eq_refl eq_refl eq_refl) as (u2 & H & E & _).
  exists u2. split; [exact H | exact E].
Defined.

(** X11. On a Product the three stock queries agree: it is available
    exactly when it is active and not out of stock. *)
Theorem available_iff_active_and_in_stock :
  forall p this,
    new p = Ok this ->
    isAvailable this = isActive this && negb (isOutOfStock this).
Proof.
  intros p this H. pose proof (product_new_stock _ _ H) as E.
  apply product_new_ok in H. destruct H as [-> _].
  unfold isAvailable, isOutOfStock. f_equal.
  unfold validateStock, Num.of_Z in E.
  destruct (inStock p) as [| |s|]; cbn [Num.ltb Num.isInteger negb] in E;
    try discriminate.
  destruct (Num.q_ltb s (inject_Z 0)) eqn:L; [discriminate|].
  unfold Num.gtb, Num.of_Z. cbn [Num.ltb Num.eqb].
  apply Num.q_ltb_ge in L. change (inject_Z 0) with 0%Q in *.
  destruct (Qeq_bool s 0) eqn:Z0; cbn [negb].
  - apply Qeq_bool_iff in Z0. apply Num.q_ltb_ge. lra.
  - apply Qeq_bool_neq in Z0. apply Num.q_ltb_lt. lra.
Qed.

Lemma available_iff_active_and_in_stock_witness :
  isAvailable (widget (Num.of_Z 10)) = true.
Proof.
  rewrite (available_iff_active_and_in_stock (widget (Num.of_Z 10))
             (widget (Num.of_Z 10)) eq_refl).
  reflexivity.
Defined.

(** ** Tags *)

Lemma findIndex_split {A} (p : A -> bool) l i :
  findIndex p l = Some i ->
  exists l1 x l2,
    l = l1 ++ x :: l2 /\ p x = true /\ existsb p l1 = false /\
    remove_at i l = l1 ++ l2.
Proof.
  revert i; induction l as [|y l IH]; intros i; simpl.
  - discriminate.
  - destruct (p y) eqn:E.
    + intros [= <-]. exists [], y, l. simpl. auto.
    + destruct (findIndex p l) as [j|] eqn:F; simpl; [| discriminate].
      intros [= <-].
      destruct (IH j eq_refl) as (l1 & x & l2 & -> & Px & N & R).
      exists (y :: l1), x, l2. simpl. rewrite E, N, R. auto.
Qed.

Lemma findIndex_last {A} (p : A -> bool) l x :
  existsb p l = false -> p x = true ->
  findIndex p (l ++ [x]) = Some (length l) /\
  remove_at (length l) (l ++ [x]) = l.
Proof.
  induction l as [|y l IH]; simpl; intros N Px.
  - rewrite Px. auto.
  - apply orb_false_iff in N. destruct N as [Py N]. rewrite Py.
    destruct (IH N Px) as [-> ->]. auto.
Qed.

Lemma no_tag_like (l : list jstring) y :
  existsb (fun t => jstring_eqb (toLowerCase t) y) l = false <->
  ~ In y (map toLowerCase l).
Proof.
  rewrite <- Bool.not_true_iff_false, existsb_exists, in_map_iff.
  split; intros H (t & A & B); apply H; exists t.
  - split; [exact B | apply jstring_eqb_spec; exact A].
  - apply jstring_eqb_spec in B. split; [exact B | exact A].
Qed.

(** X12. [addTag] appends the trimmed tag, provided no tag of the Product
    equals it up to case.  The Product then has the tag under every spelling
    that differs from the trimmed tag in case only, and [removeTag] with any
    such spelling takes it out again and gives back the tags as they
    were. *)
Theorem addTag_then_removeTag :
  forall clock1 clock2 this tag u1,
    addTag clock1 this tag = Ok u1 ->
    tags u1 = tags this ++ [trim tag] /\
    forall spelling,
      toLowerCase spelling = toLowerCase (trim tag) ->
      hasTag this spelling = false /\ hasTag u1 spelling = true /\
      exists u2, removeTag clock2 u1 spelling = Ok u2 /\ tags u2 = tags this.
Proof.
  intros clock1 clock2 this tag u1 H. unfold addTag in H. cbv zeta in H.
  destruct (negb (truthy (toLowerCase (trim tag)))); [discriminate|].
  destruct (existsb _ (tags this)) eqn:Ex; [discriminate|].
  pose proof H as Hnew. apply product_new_ok in H. destruct H as [-> _].
  split; [reflexivity|]. intros spelling Hs.
  assert (Hlast : jstring_eqb (toLowerCase (trim tag)) (toLowerCase (trim tag)) = true)
    by apply jstring_eqb_refl.
  destruct (findIndex_last
              (fun t => jstring_eqb (toLowerCase t) (toLowerCase (trim tag)))
              (tags this) (trim tag) Ex Hlast) as [Fi Ra].
  split; [| split].
  - unfold hasTag. rewrite Hs. exact Ex.
  - unfold hasTag. cbn [tags set_tags]. rewrite Hs, existsb_app, Ex.
    cbn [existsb orb]. rewrite Hlast. reflexivity.
  - unfold removeTag. cbn [tags set_tags]. rewrite Hs, Fi.
    eexists. split.
    + eapply product_new_same_checked;
        [exact Hnew | reflexivity | reflexivity | reflexivity |].
      exact (product_new_stock _ _ Hnew).
    + cbn [tags set_tags]. exact Ra.
Qed.

Lemma addTag_then_removeTag_witness :
  exists u2,
    removeTag 3000 (set_tags (widget (Num.of_Z 10)) [str "Sale"] 2000) (str "SALE")
    = Ok u2 /\ tags u2 = [].
Proof.
  destruct (addTag_then_removeTag 2000%Z 3000%Z (widget (Num.of_Z 10))
              (str " Sale ") _ eq_refl) as [_ H].
  destruct (H (str "SALE") eq_refl) as (_ & _ & K).
  exact K.
Defined.

(** X13. Tags stay distinct up to case: when no two tags of a Product are
    equal up to case, the same holds of the Product that [addTag] or
    [removeTag] returns; and after [removeTag] the Product no longer has the
    tag. *)
Theorem tags_stay_distinct :
  forall clock this tag u,
    NoDup (map toLowerCase (tags this)) ->
    (addTag clock this tag = Ok u -> NoDup (map toLowerCase (tags u))) /\
    (removeTag clock this tag = Ok u ->
     NoDup (map toLowerCase (tags u)) /\ hasTag u tag = false).
Proof.
  intros clock this tag u Hnd. split; intros H.
  - unfold addTag in H. cbv zeta in H.
    destruct (negb (truthy (toLowerCase (trim tag)))); [discriminate|].
    destruct (existsb _ (tags this)) eqn:Ex; [discriminate|].
    apply product_new_ok in H. destruct H as [-> _]. cbn [tags set_tags].
    rewrite map_app. cbn [map].
    apply NoDup_app; [exact Hnd | repeat constructor; intros [] |].
    intros x Hx [Hr | []]. subst x.
    apply no_tag_like in Ex. contradiction.
  - unfold removeTag in H.
    destruct (findIndex _ (tags this)) as [i|] eqn:F; [| discriminate].
    apply product_new_ok in H. destruct H as [-> _]. cbn [tags set_tags].
    destruct (findIndex_split _ _ _ F) as (l1 & x & l2 & E & Px & _ & R).
    rewrite R. rewrite E, map_app in Hnd. cbn [map] in Hnd.
    apply NoDup_remove in Hnd. destruct Hnd as [Hnd Hx].
    rewrite <- map_app in Hnd, Hx. split; [exact Hnd|].
    unfold hasTag. cbn [tags set_tags].
    apply no_tag_like. apply jstring_eqb_spec in Px. rewrite <- Px. exact Hx.
Qed.

Lemma tags_stay_distinct_witness :
  NoDup (map toLowerCase (tags (set_tags (widget (Num.of_Z 10)) [] 3000))) /\
  hasTag (set_tags (widget (Num.of_Z 10)) [] 3000) (str "SALE") = false.
Proof.
  refine (proj2 (tags_stay_distinct 3000%Z
                   (set_tags (widget (Num.of_Z 10)) [str "Sale"] 2000)
                   (str "SALE") _ _) eq_refl).
  simpl. repeat constructor. intros [].
Defined.

(** ** Images *)

(** X14. [addImage] appends an image the Product does not have yet: the
    Product then has images, its main image is the one it had, or the new
    one when it had none, and [removeImage] of the same image gives back the
    images as they were. *)
Theorem addImage_then_removeImage :
  forall clock1 clock2 this imageUrl u1,
    addImage clock1 this imageUrl = Ok u1 ->
    images u1 = images this ++ [imageUrl] /\
    hasImages u1 = true /\
    getMainImage u1
    = (if hasImages this then getMainImage this else Some imageUrl) /\
    exists u2,
      removeImage clock2 u1 imageUrl = Ok u2 /\ images u2 = images this.
Proof.
  intros clock1 clock2 this imageUrl u1 H. unfold addImage in H.
  destruct (negb (truthy imageUrl) || (length (trim imageUrl) =? 0)%nat);
    [discriminate|].
  destruct (array_includes (images this) imageUrl) eqn:I; [discriminate|].
  pose proof H as Hnew. apply product_new_ok in H. destruct H as [-> _].
  split; [reflexivity|]. split; [| split].
  - unfold hasImages. cbn [images set_images]. rewrite length_app. simpl.
    apply Nat.ltb_lt. lia.
  - unfold hasImages, getMainImage. cbn [images set_images].
    destruct (images this); reflexivity.
  - assert (Hin : array_includes (images this ++ [imageUrl]) imageUrl = true).
    { apply UserQueryFacts.array_includes_In. apply in_or_app.
      right. left. reflexivity. }
    assert (Hnot : ~ In imageUrl (images this)).
    { intros K. apply UserQueryFacts.array_includes_In in K. congruence. }
    unfold removeImage. cbn [images set_images]. rewrite Hin. cbn [negb].
    eexists. split.
    + eapply product_new_same_checked;
        [exact Hnew | reflexivity | reflexivity | reflexivity |].
      exact (product_new_stock _ _ Hnew).
    + cbn [images set_images].
      rewrite filter_app, (UserQueryFacts.filter_other_notin _ _ Hnot). simpl.
      rewrite jstring_eqb_refl. simpl. apply app_nil_r.
Qed.

Lemma addImage_then_removeImage_witness :
  exists u2,
    removeImage 3000 (set_images (widget (Num.of_Z 10)) [str "a.png"] 2000)
                (str "a.png") = Ok u2 /\ images u2 = [].
Proof.
  destruct (addImage_then_removeImage 2000%Z 3000%Z (widget (Num.of_Z 10))
              (str "a.png") _ eq_refl) as (_ & _ & _ & H).
  exact H.
Defined.

(** ** What an update leaves alone *)

(** X15. An update method of the Product writes its own fields and
    [updatedAt], which it sets to the reading of the clock, and nothing else:
    name, description, price and category change only under
    [updateBasicInfo], the stock only under [updateStock], [reduceStock] and
    [addStock], the images only under [addImage] and [removeImage], the tags
    only under [addTag] and [removeTag], [isActive] only under [activate] and
    [deactivate]; [id], [currency] and [createdAt] never. *)
Theorem product_update_writes_only_its_field :
  forall clock this op u,
    update clock this op = Ok u ->
    id u = id this /\ currency u = currency this /\
    createdAt u = createdAt this /\ updatedAt u = clock /\
    (writes_info op = false ->
     name u = name this /\ description u = description this /\
     price u = price this /\ categoryId u = categoryId this) /\
    (writes_stock op = false -> inStock u = inStock this) /\
    (writes_images op = false -> images u = images this) /\
    (writes_tags op = false -> tags u = tags this) /\
    (writes_isActive op = false -> isActive u = isActive this).
Proof.
  intros clock this op u H. destruct op; simpl in H.
  - unfold updateBasicInfo in H.
    step_outcome H. step_outcome H. step_outcome H.
    apply product_new_ok in H. destruct H as [-> _]. simpl.
    repeat split; try reflexivity; discriminate.
  - unfold updateStock in H. step_outcome H.
    apply product_new_ok in H. destruct H as [-> _]. simpl.
    repeat split; try reflexivity; discriminate.
  - unfold reduceStock in H.
    destruct (Num.leb quantity (Num.of_Z 0)); [discriminate|].
    destruct (Num.ltb (inStock this) quantity); [discriminate|].
    apply product_new_ok in H. destruct H as [-> _]. simpl.
    repeat split; try reflexivity; discriminate.
  - unfold addStock in H.
    destruct (Num.leb quantity (Num.of_Z 0)); [discriminate|].
    apply product_new_ok in H. destruct H as [-> _]. simpl.
    repeat split; try reflexivity; discriminate.
  - unfold addImage in H.
    destruct (negb (truthy imageUrl) || (length (trim imageUrl) =? 0)%nat);
      [discriminate|].
    destruct (array_includes (images this) imageUrl); [discriminate|].
    apply product_new_ok in H. destruct H as [-> _]. simpl.
    repeat split; try reflexivity; discriminate.
  - unfold removeImage in H.
    destruct (negb (array_includes (images this) imageUrl)); [discriminate|].
    apply product_new_ok in H. destruct H as [-> _]. simpl.
    repeat split; try reflexivity; discriminate.
  - unfold addTag in H. cbv zeta in H.
    destruct (negb (truthy (toLowerCase (trim tag)))); [discriminate|].
    destruct (existsb _ (tags this)); [discriminate|].
    apply product_new_ok in H. destruct H as [-> _]. simpl.
    repeat split; try reflexivity; discriminate.
  - unfold removeTag in H.
    destruct (findIndex _ (tags this)); [| discriminate].
    apply product_new_ok in H. destruct H as [-> _]. simpl.
    repeat split; try reflexivity; discriminate.
  - unfold activate in H. destruct (isActive this); [discriminate|].
    apply product_new_ok in H. destruct H as [-> _]. simpl.
    repeat split; try reflexivity; discriminate.
  - unfold deactivate in H. destruct (negb (isActive this)); [discriminate|].
    apply product_new_ok in H. destruct H as [-> _]. simpl.
    repeat split; try reflexivity; discriminate.
Qed.

Lemma product_update_writes_only_its_field_witness :
  exists u, update 2000 (widget (Num.of_Z 10)) (OpAddStock (Num.of_Z 3)) = Ok u /\
            price u = Num.of_Z 10 /\ currency u = str "EUR" /\
            updatedAt u = 2000%Z.
Proof.
  eexists. split; [reflexivity|].
  destruct (product_update_writes_only_its_field
              2000%Z (widget (Num.of_Z 10)) (OpAddStock (Num.of_Z 3)) _ eq_refl)
    as (_ & Hc & _ & Hu & Hi & _).
  split; [apply Hi; reflexivity|]. split; [exact Hc | exact Hu].
Defined.

(** ** What the constructor accepts *)

(** The texts [validateName] and [validateDescription] let through. *)
Definition text_accepted (lo hi : nat) (s : jstring) : Prop :=
  (lo <= length s <= hi)%nat /\ ~ UserQueryFacts.blank s.

Lemma product_validateName_iff n :
  validateName n = Ok tt <-> text_accepted 2 100 n.
Proof.
  unfold validateName, text_accepted. split.
  - intros H.
    destruct (negb (truthy n) || (length (trim n) =? 0)%nat) eqn:E1;
      [discriminate|].
    destruct (length n <? 2)%nat eqn:E2; [discriminate|].
    destruct (100 <? length n)%nat eqn:E3; [discriminate|].
    apply Nat.ltb_ge in E2, E3. apply UserQueryFacts.not_blank_iff in E1.
    split; [lia | exact E1].
  - intros (L & B). apply UserQueryFacts.not_blank_iff in B. rewrite B.
    assert (E2 : (length n <? 2)%nat = false) by (apply Nat.ltb_ge; lia).
    assert (E3 : (100 <? length n)%nat = false) by (apply Nat.ltb_ge; lia).
    rewrite E2, E3. reflexivity.
Qed.

Lemma validateDescription_iff d :
  validateDescription d = Ok tt <-> text_accepted 10 1000 d.
Proof.
  unfold validateDescription, text_accepted. split.
  - intros H.
    destruct (negb (truthy d) || (length (trim d) =? 0)%nat) eqn:E1;
      [discriminate|].
    destruct (length d <? 10)%nat eqn:E2; [discriminate|].
    destruct (1000 <? length d)%nat eqn:E3; [discriminate|].
    apply Nat.ltb_ge in E2, E3. apply UserQueryFacts.not_blank_iff in E1.
    split; [lia | exact E1].
  - intros (L & B). apply UserQueryFacts.not_blank_iff in B. rewrite B.
    assert (E2 : (length d <? 10)%nat = false) by (apply Nat.ltb_ge; lia).
    assert (E3 : (1000 <? length d)%nat = false) by (apply Nat.ltb_ge; lia).
    rewrite E2, E3. reflexivity.
Qed.

Lemma validateStock_iff s : validateStock s = Ok tt <-> stock_ok s.
Proof.
  split; [apply validateStock_ok|].
  intros (q & z & -> & Hz & Hq).
  unfold validateStock, Num.of_Z. cbn [Num.ltb].
  assert (G : Num.q_ltb q (inject_Z 0) = false).
  { apply Num.q_ltb_ge. rewrite Hq. rewrite <- Zle_Qle. exact Hz. }
  rewrite G.
  assert (I : Num.isInteger (Num.Fin q) = true)
    by (apply isInteger_iff; exists z; exact Hq).
  rewrite I. reflexivity.
Qed.

(** X16. The constructor of Product accepts exactly the props with a name
    of 2 to 100 and a description of 10 to 1000 characters, neither all
    whitespace, a price that is in [0, 999999.99] or is NaN, and a stock that
    is a non-negative integer; it returns them unchanged.  Category,
    currency, images and tags are not looked at. *)
Theorem product_new_accepts_exactly :
  forall p,
    new p = Ok p <->
    text_accepted 2 100 (name p) /\ text_accepted 10 1000 (description p) /\
    (price p = Num.NaN \/ price_ok (price p)) /\ stock_ok (inStock p).
Proof.
  intros p. unfold new. split.
  - intros H. step_outcome H. step_outcome H. step_outcome H. step_outcome H.
    destruct a, a0, a1, a2.
    split; [apply product_validateName_iff; assumption|].
    split; [apply validateDescription_iff; assumption|].
    split; [apply validatePrice_ok; assumption|].
    apply validateStock_iff; assumption.
  - intros (N & D & P & S).
    rewrite (proj2 (product_validateName_iff _) N).
    rewrite (proj2 (validateDescription_iff _) D).
    rewrite (proj2 (validatePrice_ok _) P).
    rewrite (proj2 (validateStock_iff _) S).
    reflexivity.
Qed.

End ProductQueryFacts.

(* ===================================================================== *)
(** * More of the HTTP client: how an attempt ends the run, and when *)
(* ===================================================================== *)

Module HttpRunFacts.
Import Http HttpFacts.

Local Open Scope Z_scope.

(** The [RequestInit] that [request] hands to [executeWithRetry]. *)
Definition request_init (this : HttpClient) (method : jstring)
    (data : option jstring) (options : RequestOptions) : RequestInit :=
  {| method := method;
     init_headers := defaultHeaders this ++ nullish (req_headers options) [];
     init_signal := req_signal options;
     body := if truthy_opt data && takes_body method then data else None |}.

(** What [createApiError] makes of the object [handleResponse] throws. *)
Definition unknown_error : ApiErrorResponse :=
  {| error := {| code := str "UNKNOWN_ERROR";
                 message := str "Unbekannter Fehler";
                 details := None |} |}.

Definition error_codes : list jstring :=
  [str "NETWORK_ERROR"; str "TIMEOUT_ERROR"; str "UNKNOWN_ERROR"].

(** The largest delay [setTimeout] takes as it is. *)
Definition MAX_TIMER_DELAY : Z := 2147483647.

Lemma handleResponse_ok status body :
  (ok status = true -> exists response, handleResponse status body = inl response) /\
  (ok status = false -> exists e, handleResponse status body = inr e).
Proof.
  unfold handleResponse. split; intros H; rewrite H; cbn [negb]; [| eauto].
  destruct body as [|raw [d|] err [|b|] m|raw]; eauto.
Qed.

Lemma createApiError_codes error :
  In (code (Http.error (createApiError error))) error_codes.
Proof.
  unfold createApiError, error_codes. destruct error as [e|r].
  - destruct (is_TypeError e && includes (err_message e) (str "fetch")).
    + left. reflexivity.
    + destruct (jstring_eqb (err_name e) (str "AbortError")).
      * right. left. reflexivity.
      * right. right. left. reflexivity.
  - right. right. left. reflexivity.
Qed.

Lemma thrown_createApiError error e :
  Threw (createApiError error) = Threw e -> In (code (Http.error e)) error_codes.
Proof.
  intros H. assert (Q : e = createApiError error) by congruence.
  rewrite Q. apply createApiError_codes.
Qed.

(** Whatever [executeWithRetry] throws was built by [createApiError]. *)
Lemma executeWithRetry_codes this net url init fuel :
  forall attemptsLeft n t e,
    result (executeWithRetry this net url init fuel attemptsLeft n t) = Threw e ->
    In (code (Http.error e)) error_codes.
Proof.
  induction fuel as [|fuel IH]; intros attemptsLeft n t e;
    cbn [executeWithRetry]; cbv zeta.
  - destruct (fetch (net url init n) (signal_in_use this init t) t)
      as [t' st b|t' e'|];
      [destruct (handleResponse st b) as [resp|herr] | |];
      repeat match goal with
             | |- context [if ?c then _ else _] => destruct c
             end;
      cbn [result snd]; intros H; try discriminate H;
      eapply thrown_createApiError; exact H.
  - destruct (fetch (net url init n) (signal_in_use this init t) t)
      as [t' st b|t' e'|].
    + destruct (handleResponse st b) as [resp|herr].
      * cbn [result snd]. intros H. discriminate H.
      * cbn [shouldRetry]. rewrite andb_false_r. cbn [result snd].
        apply thrown_createApiError.
    + destruct ((0 <? attemptsLeft) && shouldRetry (CaughtError e')).
      * specialize (IH (attemptsLeft - 1) (S n)
                       (t' + Z.max 0 (retryDelay this)) e).
        destruct (executeWithRetry this net url init fuel (attemptsLeft - 1) (S n)
                    (t' + Z.max 0 (retryDelay this))) as [evs fin].
        cbn [result snd] in *. exact IH.
      * cbn [result snd]. apply thrown_createApiError.
    + cbn [result snd]. intros H. discriminate H.
Qed.

(** X17. An attempt that receives a response, status and body, ends the
    run at once, whatever its number and however many retries are left.  A
    response with a status in 200..299 is returned as [handleResponse] shapes
    it.  A response with any other status is thrown as UNKNOWN_ERROR with the
    message 'Unbekannter Fehler' and no details: the HTTP_<status> error that
    [createHttpError] builds, or the error envelope of the server, is caught
    by the [catch] of [executeWithRetry], not retried, and replaced by
    [createApiError].  And whatever [executeWithRetry] throws has the code
    NETWORK_ERROR, TIMEOUT_ERROR or UNKNOWN_ERROR. *)
Theorem answered_attempt_ends_the_run :
  forall this net url init fuel attemptsLeft n t,
    let r := executeWithRetry this net url init fuel attemptsLeft n t in
    (forall t' status body,
       fetch (net url init n) (signal_in_use this init t) t
       = Response t' status body ->
       trace r = [Attempt n t (Responded status)] /\
       (ok status = true ->
        exists response,
          handleResponse status body = inl response /\
          result r = Returned response) /\
       (ok status = false -> result r = Threw unknown_error)) /\
    (forall e, result r = Threw e -> In (code (Http.error e)) error_codes).
Proof.
  intros this net url init fuel attemptsLeft n t r. split.
  - intros t' status body F. subst r.
    destruct (handleResponse_ok status body) as [Hok Hno].
    destruct fuel as [|fuel]; cbn [executeWithRetry]; cbv zeta; rewrite F;
      (destruct (ok status);
       [ destruct (Hok eq_refl) as [response E]; rewrite E;
         cbn [trace result fst snd];
         split; [reflexivity|];
         split; [intros _; exists response; split; reflexivity
                | intros K; discriminate K]
       | destruct (Hno eq_refl) as [herr E]; rewrite E;
         cbn [shouldRetry]; rewrite andb_false_r;
         cbn [trace result fst snd];
         split; [reflexivity|];
         split; [intros K; discriminate K | intros _; reflexivity] ]).
  - intros e. apply executeWithRetry_codes.
Qed.

Lemma answered_attempt_ends_the_run_witness :
  trace (get default_client unavailable 0 (str "/users") plain_request)
  = [Attempt 0 0 (Responded 503)] /\
  result (get default_client unavailable 0 (str "/users") plain_request)
  = Threw unknown_error.
Proof.
  destruct (answered_attempt_ends_the_run default_client unavailable
              (buildUrl default_client (str "/users"))
              (request_init default_client (str "GET") None plain_request)
              (Z.to_nat (retryAttempts default_client))
              (retryAttempts default_client) 0%nat 0) as [H _].
  destruct (H 20 503 Null eq_refl) as (T & _ & Hno).
  split; [exact T | exact (Hno eq_refl)].
Defined.

(** ** The schedule of the attempts *)

Lemma fetch_by_timeout this init x t :
  init_signal init = None ->
  (exists t' status body,
     fetch x (signal_in_use this init t) t = Response t' status body /\
     t' <= t + Z.max 0 (timeout this)) \/
  (exists t' e,
     fetch x (signal_in_use this init t) t = Rejection t' e /\
     t' <= t + Z.max 0 (timeout this)).
Proof.
  intros Hs. unfold signal_in_use. rewrite Hs. unfold fetch.
  destruct (Z.leb_spec (t + Z.max 0 (timeout this)) t) as [L|L].
  - right. eexists _, _. split; [reflexivity | lia].
  - destruct x as [d st b|d e|].
    + destruct (Z.ltb_spec (t + d) (t + Z.max 0 (timeout this))).
      * left. eexists _, _, _. split; [reflexivity | lia].
      * right. eexists _, _. split; [reflexivity | lia].
    + destruct (Z.ltb_spec (t + d) (t + Z.max 0 (timeout this)));
        right; eexists _, _; (split; [reflexivity | lia]).
    + right. eexists _, _. split; [reflexivity | lia].
Qed.

(** A run begins with the attempt it was started for. *)
Lemma executeWithRetry_starts this net url init fuel attemptsLeft n t :
  exists a rest,
    trace (executeWithRetry this net url init fuel attemptsLeft n t)
    = Attempt n t a :: rest.
Proof.
  destruct fuel as [|fuel]; cbn [executeWithRetry]; cbv zeta;
    destruct (fetch (net url init n) (signal_in_use this init t) t)
      as [t' st b|t' e'|];
    [destruct (handleResponse st b) | | | destruct (handleResponse st b) | |];
    repeat match goal with
           | |- context [if ?c then _ else _] => destruct c
           end;
    repeat match goal with
           | |- context [executeWithRetry ?a ?b ?c ?d ?f ?g ?h ?i] =>
               destruct (executeWithRetry a b c d f g h i)
           end;
    cbn [trace fst]; eauto.
Qed.

Lemma executeWithRetry_schedule this net url init fuel :
  init_signal init = None ->
  forall attemptsLeft n t k t0 res,
    In (Attempt k t0 res)
       (trace (executeWithRetry this net url init fuel attemptsLeft n t)) ->
    (n <= k)%nat /\
    Z.of_nat (k - n) <= Z.max 0 attemptsLeft /\
    t0 <= t + Z.of_nat (k - n)
              * (Z.max 0 (timeout this) + Z.max 0 (retryDelay this)).
Proof.
  intros Hs. induction fuel as [|fuel IH]; intros attemptsLeft n t k t0 res;
    cbn [executeWithRetry]; cbv zeta.
  - destruct (fetch_by_timeout this init (net url init n) t Hs)
      as [(t' & st & b & -> & Ht) | (t' & e & -> & Ht)];
      [destruct (handleResponse st b) |];
      repeat match goal with
             | |- context [if ?c then _ else _] => destruct c
             end;
      cbn [trace fst]; intros [Hin | []]; inversion Hin; subst;
      rewrite Nat.sub_diag; cbn [Z.of_nat]; lia.
  - destruct (fetch_by_timeout this init (net url init n) t Hs)
      as [(t' & st & b & -> & Ht) | (t' & e & -> & Ht)].
    + assert (Hhead :
        In (Attempt k t0 res) [Attempt n t (Responded st)] ->
        (n <= k)%nat /\
        Z.of_nat (k - n) <= Z.max 0 attemptsLeft /\
        t0 <= t + Z.of_nat (k - n)
                  * (Z.max 0 (timeout this) + Z.max 0 (retryDelay this))).
      { intros [Hin | []]. inversion Hin; subst.
        rewrite Nat.sub_diag. cbn [Z.of_nat]. lia. }
      destruct (handleResponse st b).
      * cbn [trace fst]. exact Hhead.
      * cbn [shouldRetry]. rewrite andb_false_r. cbn [trace fst]. exact Hhead.
    + destruct ((0 <? attemptsLeft) && shouldRetry (CaughtError e)) eqn:R.
      * apply andb_true_iff in R. destruct R as [L _]. apply Z.ltb_lt in L.
        specialize (IH (attemptsLeft - 1) (S n)
                       (t' + Z.max 0 (retryDelay this)) k t0 res).
        destruct (executeWithRetry this net url init fuel (attemptsLeft - 1) (S n)
                    (t' + Z.max 0 (retryDelay this))) as [evs fin].
        cbn [trace fst] in *.
        intros [Hin | [Hin | Hin]].
        -- inversion Hin; subst. rewrite Nat.sub_diag. cbn [Z.of_nat]. lia.
        -- discriminate Hin.
        -- destruct (IH Hin) as (Hk & Hc & Hd).
           replace (Z.of_nat (k - n)) with (Z.of_nat (k - S n) + 1) by lia.
           split; [lia|]. split; [lia|].
           rewrite Z.mul_add_distr_r. lia.
      * cbn [trace fst]. intros [Hin | []]. inversion Hin; subst.
        rewrite Nat.sub_diag. cbn [Z.of_nat]. lia.
Qed.

(** X18. The attempts of a request issued without a caller-supplied signal
    keep a schedule, on a clock on which timers fire when they are due and
    with a timeout and a retry delay that [setTimeout] takes as they are (at
    most 2147483647 ms): the run begins with attempt 0 at the time of the
    request, the attempts are numbered up to at most [retryAttempts], and
    attempt [k] starts no later than [k] timeouts and [k] retry delays after
    the request was made. *)
Theorem attempts_keep_their_schedule :
  forall this net t method url data options,
    req_signal options = None ->
    timeout this <= MAX_TIMER_DELAY ->
    retryDelay this <= MAX_TIMER_DELAY ->
    let r := request this net t method url data options in
    (exists a rest, trace r = Attempt 0 t a :: rest) /\
    forall k t0 a,
      In (Attempt k t0 a) (trace r) ->
      Z.of_nat k <= Z.max 0 (retryAttempts this) /\
      t0 <= t + Z.of_nat k
                * (Z.max 0 (timeout this) + Z.max 0 (retryDelay this)).
Proof.
  intros this net t method url data options Hs _ _ r. split.
  - apply executeWithRetry_starts.
  - intros k t0 a Hin.
    destruct (executeWithRetry_schedule this net (buildUrl this url)
                (request_init this method data options)
                (Z.to_nat (retryAttempts this)) Hs (retryAttempts this) 0%nat t
                k t0 a Hin) as (_ & Hc & Hd).
    rewrite Nat.sub_0_r in Hc, Hd. split; assumption.
Qed.

Lemma attempts_keep_their_schedule_witness :
  (exists a rest,
     trace (get default_client offline 0 (str "/users") plain_request)
     = Attempt 0 0 a :: rest) /\
  3015 <= 0 + Z.of_nat 3 * (Z.max 0 (timeout default_client)
                            + Z.max 0 (retryDelay default_client)).
Proof.
  assert (Lt : timeout default_client <= MAX_TIMER_DELAY)
    by (apply Z.leb_le; reflexivity).
  assert (Ld : retryDelay default_client <= MAX_TIMER_DELAY)
    by (apply Z.leb_le; reflexivity).
  destruct (attempts_keep_their_schedule default_client offline 0 (str "GET")
              (str "/users") None plain_request eq_refl Lt Ld) as [Hs Hall].
  split; [exact Hs|].
  refine (proj2 (Hall 3%nat 3015
                   (FetchRejected (new_TypeError (str "Failed to fetch"))) _)).
  simpl. do 6 right. left. reflexivity.
Defined.

(** ** A request that is already cancelled *)

Lemma executeWithRetry_cancelled this net url init fuel a :
  (forall n t, a <= t ->
               fetch (net url init n) (signal_in_use this init t) t
               = Rejection t AbortError) ->
  forall attemptsLeft n t,
    a <= t ->
    fuel = Z.to_nat attemptsLeft ->
    let r := executeWithRetry this net url init fuel attemptsLeft n t in
    Forall aborted_attempt (trace r) /\
    result r = Threw timeout_error /\
    waits (trace r) = fuel.
Proof.
  intros F.
  induction fuel as [|fuel IH]; intros attemptsLeft n t Le Hfuel;
    cbn [executeWithRetry]; cbv zeta; rewrite (F n t Le).
  - assert (L : (0 <? attemptsLeft) = false) by (apply Z.ltb_ge; lia).
    rewrite L. cbn [andb trace result fst snd].
    split; [repeat constructor | split; reflexivity].
  - assert (L : (0 <? attemptsLeft) = true) by (apply Z.ltb_lt; lia).
    rewrite L.
    change (shouldRetry (CaughtError AbortError)) with true. cbn [andb].
    specialize (IH (attemptsLeft - 1) (S n) (t + Z.max 0 (retryDelay this))).
    destruct (executeWithRetry this net url init fuel (attemptsLeft - 1) (S n)
                (t + Z.max 0 (retryDelay this))) as [evs fin].
    cbn [trace result fst snd] in *. destruct IH as (A & R & W); [lia | lia |].
    split; [repeat constructor; assumption|].
    split; [exact R|].
    unfold waits in *. cbn [filter is_wait length]. congruence.
Qed.

(** X19. A request whose signal the caller has already aborted with
    [controller.abort()], without a reason of its own, so that [fetch]
    rejects every attempt at once with the AbortError, is not given up:
    [shouldRetry] takes the AbortError for a timeout, so the client still
    waits and retries [retryAttempts] times, and then reports
    TIMEOUT_ERROR. *)
Theorem cancelled_request_is_retried :
  forall this net t method url data options s a,
    req_signal options = Some s -> aborts_at s = Some a -> a <= t ->
    (forall n t',
       a <= t' ->
       fetch (net (buildUrl this url) (request_init this method data options) n)
             (signal_in_use this (request_init this method data options) t') t'
       = Rejection t' AbortError) ->
    let r := request this net t method url data options in
    Forall aborted_attempt (trace r) /\
    result r = Threw timeout_error /\
    code (Http.error timeout_error) = str "TIMEOUT_ERROR" /\
    retries r = Z.to_nat (retryAttempts this).
Proof.
  intros this net t method url data options s a Hs Ha Le F r.
  destruct (executeWithRetry_cancelled this net (buildUrl this url)
              (request_init this method data options)
              (Z.to_nat (retryAttempts this)) a F
              (retryAttempts this) 0%nat t Le eq_refl) as (A & R & W).
  split; [exact A|]. split; [exact R|]. split; [reflexivity | exact W].
Qed.

Lemma cancelled_request_is_retried_witness :
  retries (get default_client unavailable 100 (str "/users")
             (mkRequestOptions None None (Some (mkSignal (Some 50))))) = 3%nat.
Proof.
  assert (L : 50 <= 100) by lia.
  assert (F : forall (n : nat) t',
            50 <= t' ->
            fetch (unavailable
                     (buildUrl default_client (str "/users"))
                     (request_init default_client (str "GET") None
                        (mkRequestOptions None None (Some (mkSignal (Some 50)))))
                     n)
                  (signal_in_use default_client
                     (request_init default_client (str "GET") None
                        (mkRequestOptions None None (Some (mkSignal (Some 50)))))
                     t') t'
            = Rejection t' AbortError).
  { intros n t' Le. unfold signal_in_use, fetch. cbn [init_signal request_init
      req_signal aborts_at].
    destruct (Z.leb_spec 50 t'); [reflexivity | lia]. }
  exact (proj2 (proj2 (proj2
           (cancelled_request_is_retried default_client unavailable 100
              (str "GET") (str "/users") None
              (mkRequestOptions None None (Some (mkSignal (Some 50))))
              (mkSignal (Some 50)) 50 eq_refl eq_refl L F)))).
Defined.

(** ** URLs *)

Definition slash : N := 47%N.

Lemma strip_leading_slash_cons endpoint :
  strip_leading_slash (slash :: endpoint) = endpoint.
Proof. reflexivity. Qed.

Lemma strip_leading_slash_other endpoint :
  (forall r, endpoint <> slash :: r) -> strip_leading_slash endpoint = endpoint.
Proof.
  intros H. destruct endpoint as [|c r]; [reflexivity|].
  destruct (N.eq_dec c slash) as [-> | Hc]; [exfalso; eapply H; reflexivity|].
  unfold strip_leading_slash, slash in *.
  destruct c as [|p]; [reflexivity|].
  do 6 (destruct p as [p|p|]; try reflexivity).
  congruence.
Qed.

Lemma strip_trailing_slash_snoc base :
  strip_trailing_slash (base ++ [slash]) = base.
Proof.
  unfold strip_trailing_slash. rewrite rev_app_distr. simpl.
  apply rev_involutive.
Qed.

Lemma strip_trailing_slash_other base :
  (forall r, base <> r ++ [slash]) -> strip_trailing_slash base = base.
Proof.
  intros H. unfold strip_trailing_slash.
  destruct (rev base) as [|c r] eqn:E; [reflexivity|].
  destruct (N.eq_dec c slash) as [-> | Hc].
  - exfalso. apply (H (rev r)). rewrite <- (rev_involutive base), E. reflexivity.
  - unfold slash in *. destruct c as [|p]; [reflexivity|].
    do 6 (destruct p as [p|p|]; try reflexivity).
    congruence.
Qed.

(** X20. [buildUrl] joins the base URL and a relative endpoint with exactly
    one slash, whether or not the base ends in a slash and the endpoint
    starts with one; an endpoint that starts with 'http' is used as it
    is. *)
Theorem buildUrl_joins_with_one_slash :
  forall this this' base endpoint,
    baseUrl this = base -> baseUrl this' = base ++ [slash] ->
    (forall r, base <> r ++ [slash]) ->
    (forall r, endpoint <> slash :: r) ->
    startsWith_http endpoint = false ->
    buildUrl this endpoint = base ++ slash :: endpoint /\
    buildUrl this (slash :: endpoint) = base ++ slash :: endpoint /\
    buildUrl this' endpoint = base ++ slash :: endpoint /\
    buildUrl this' (slash :: endpoint) = base ++ slash :: endpoint /\
    forall absolute, buildUrl this (str "http" ++ absolute) = str "http" ++ absolute.
Proof.
  intros this this' base endpoint Hb Hb' Hbase Hend Hrel.
  assert (Hs : startsWith_http (slash :: endpoint) = false) by reflexivity.
  unfold buildUrl. rewrite Hrel, Hs, Hb, Hb'.
  rewrite strip_trailing_slash_snoc, (strip_trailing_slash_other _ Hbase).
  rewrite strip_leading_slash_cons, (strip_leading_slash_other _ Hend).
  split; [reflexivity|]. split; [reflexivity|]. split; [reflexivity|].
  split; [reflexivity|]. intros absolute. destruct absolute; reflexivity.
Qed.

Lemma buildUrl_joins_with_one_slash_witness :
  buildUrl default_client (str "/users") = str "https://api.example.com/users".
Proof.
  assert (Hbase : forall r, str "https://api.example.com" <> r ++ [slash]).
  { intros r E. apply (f_equal (@rev N)) in E. rewrite rev_app_distr in E.
    discriminate E. }
  assert (Hend : forall r, str "users" <> slash :: r) by (intros r E; discriminate E).
  exact (proj1 (proj2
           (buildUrl_joins_with_one_slash default_client
              (new (mkOptions (Some (str "https://api.example.com/")) None None
                              None None))
              (str "https://api.example.com") (str "users")
              eq_refl eq_refl Hbase Hend eq_refl))).
Defined.

End HttpRunFacts.

(* ===================================================================== *)
(** * More of the use cases: what they call, with what, and what they return *)
(* ===================================================================== *)

Module UseCaseRunFacts.
Import UseCaseFacts.

(** ** CreateUser *)

(** The entity [execute] builds from its input. *)
Definition new_user (uuid : jstring) (now : Z)
    (input : CreateUser.CreateUserInput) : User.User :=
  {| User.id := uuid;
     User.email := CreateUser.email input;
     User.firstName := CreateUser.firstName input;
     User.lastName := CreateUser.lastName input;
     User.avatar := None;
     User.isActive := true;
     User.roles := [str "user"];
     User.lastLoginAt := None;
     User.createdAt := now;
     User.updatedAt := now |}.


Lemma create_new_user uuid now input u :
  User.create uuid now
    {| User.c_email := CreateUser.email input;
       User.c_firstName := CreateUser.firstName input;
       User.c_lastName := CreateUser.lastName input;
       User.c_avatar := None;
       User.c_isActive := Some true;
       User.c_roles := Some [str "user"];
       User.c_lastLoginAt := None |} = Ok u ->
  u = new_user uuid now input /\ User.invariant u.
Proof.
  unfold User.create. intros H. apply UserFacts.new_ok in H.
  destruct H as [-> I]. split; [reflexivity | exact I].
Qed.


(** X22. The welcome email is sent exactly when the user was created: the
    run calls [sendWelcomeEmail], with the email and first name of the input,
    if and only if [execute] resolves to a success; and the user of a success
    is the one the repository returned from [save]. *)
Theorem welcome_email_sent_iff_created :
  forall repo hasher mailer uuid now input,
    let r := CreateUser.execute repo hasher mailer uuid now input in
    ((exists out, promise r = Fulfilled (Success out)) <->
     In (CallSendWelcomeEmail (CreateUser.email input)
                              (CreateUser.firstName input)) (events r)) /\
    (forall out, promise r = Fulfilled (Success out) ->
                 save repo (new_user uuid now input)
                 = Resolves (Success (CreateUser.user out))).
Proof.
  intros repo hasher mailer uuid now input.
  assert (Hno : forall r : async event (Result CreateUser.CreateUserOutput),
            (forall out, promise r <> Fulfilled (Success out)) ->
            (forall e f, ~ In (CallSendWelcomeEmail e f) (events r)) ->
            ((exists out, promise r = Fulfilled (Success out)) <->
             In (CallSendWelcomeEmail (CreateUser.email input)
                                      (CreateUser.firstName input)) (events r)) /\
            (forall out, promise r = Fulfilled (Success out) ->
                         save repo (new_user uuid now input)
                         = Resolves (Success (CreateUser.user out)))).
  { intros r Hp He. split.
    - split; [intros [out H]; destruct (Hp _ H) | intros H; destruct (He _ _ H)].
    - intros out H. destruct (Hp _ H). }
  unfold CreateUser.execute, CreateUser.sendWelcomeEmailAsync. cbv zeta.
  destruct (CreateUser.validateInput input);
    [| apply Hno; [intros out H; discriminate H | intros em fn []]].
  destruct (emailExists repo (CreateUser.email input)) as [[[|]|]| | |];
    try (apply Hno;
         [ intros out H; discriminate H
         | simpl; intros em fn H; repeat destruct H as [H|H];
           try discriminate H; contradiction ]).
  destruct (hash hasher (CreateUser.password input));
    try (apply Hno;
         [ intros out H; discriminate H
         | simpl; intros em fn H; repeat destruct H as [H|H];
           try discriminate H; contradiction ]).
  destruct (User.create _ _ _) as [u0|] eqn:C;
    try (apply Hno;
         [ intros out H; discriminate H
         | simpl; intros em fn H; repeat destruct H as [H|H];
           try discriminate H; contradiction ]).
  destruct (create_new_user _ _ _ _ C) as [-> _].
  cbn [Async.bind Async.await Async.lift Async.ret].
  destruct (save repo (new_user uuid now input)) as [[saved|]| | |] eqn:S;
    try (apply Hno;
         [ intros out H; discriminate H
         | simpl; intros em fn H; repeat destruct H as [H|H];
           try discriminate H; contradiction ]).
  destruct (sendWelcomeEmail mailer _ _);
    (split; [split; [intros _; simpl; tauto | intros _; eexists; reflexivity]
            | intros out H; inversion H; reflexivity]).
Qed.

(** X23. The hashed password is computed and dropped: whatever the hasher
    resolves to, [execute] makes the same calls with the same arguments and
    gives the same result; the user handed to [save] carries no password. *)
Theorem hashed_password_is_not_used :
  forall repo mailer uuid now input hasher1 hasher2 hashed1 hashed2,
    hash hasher1 (CreateUser.password input) = Resolves hashed1 ->
    hash hasher2 (CreateUser.password input) = Resolves hashed2 ->
    CreateUser.execute repo hasher1 mailer uuid now input
    = CreateUser.execute repo hasher2 mailer uuid now input.
Proof.
  intros repo mailer uuid now input hasher1 hasher2 hashed1 hashed2 H1 H2.
  unfold CreateUser.execute. rewrite H1, H2. reflexivity.
Qed.

Lemma hashed_password_is_not_used_witness :
  CreateUser.execute working_repository working_hasher working_mailer
                     (str "user-1") 1000 john_input
  = CreateUser.execute working_repository {| hash := fun _ => Resolves [] |}
                       working_mailer (str "user-1") 1000 john_input.
Proof.
  exact (hashed_password_is_not_used working_repository working_mailer
           (str "user-1") 1000%Z john_input working_hasher
           {| hash := fun _ => Resolves [] |} _ _ eq_refl eq_refl).
Defined.

(** ** GetUser *)

(** X24. GetUser succeeds exactly when the id passes the check and the
    repository resolves [findById] to a success that holds a user, and it
    returns that user; when the repository finds nobody the result is the
    NotFoundError.  It calls nothing but [findById], at most once. *)
Theorem getUser_returns_what_was_found :
  forall repo input,
    let r := GetUser.execute repo input in
    (forall out,
       promise r = Fulfilled (Success out) <->
       GetUser.validateInput input = Success tt /\
       findById repo (GetUser.id input)
       = Resolves (Success (Some (GetUser.user out)))) /\
    (GetUser.validateInput input = Success tt ->
     findById repo (GetUser.id input) = Resolves (Success None) ->
     promise r = Fulfilled (Failure (new_NotFoundError (str "Benutzer")
                                                       (GetUser.id input)))) /\
    (events r = [] \/ events r = [CallFindById (GetUser.id input)]).
Proof.
  intros repo input. unfold GetUser.execute. cbv zeta.
  destruct (GetUser.validateInput input) as [[]|e].
  - destruct (findById repo (GetUser.id input)) as [[[found|]|e]|e|e|]; simpl;
      (split; [intros [found']; split;
                 [intros H; inversion H; auto
                 | intros [_ H]; inversion H; reflexivity]
              | split; [intros _ H; try discriminate H; reflexivity
                       | right; reflexivity]]).
  - simpl. split; [intros out; split; [intros H; discriminate H
                                      | intros [H _]; discriminate H]
                  | split; [intros H; discriminate H | left; reflexivity]].
Qed.

(** ** UpdateUser *)

(** The argument [execute] passes to [updateProfile]. *)
Definition profile_updates (u : UpdateUser.Updates) : User.ProfileUpdates :=
  {| User.upd_firstName := UpdateUser.firstName u;
     User.upd_lastName := UpdateUser.lastName u;
     User.upd_email := None;
     User.upd_avatar := UpdateUser.avatar u |}.

(** The [changes] object of [logChanges]. *)
Definition changes_of (oldUser newUser : User.User) : list change :=
  (if negb (jstring_eqb (User.firstName oldUser) (User.firstName newUser))
   then [(str "firstName", Some (User.firstName oldUser),
          Some (User.firstName newUser))] else []) ++
  (if negb (jstring_eqb (User.lastName oldUser) (User.lastName newUser))
   then [(str "lastName", Some (User.lastName oldUser),
          Some (User.lastName newUser))] else []) ++
  (if UpdateUser.opt_differs (User.avatar oldUser) (User.avatar newUser)
   then [(str "avatar", User.avatar oldUser, User.avatar newUser)] else []).

Lemma updateProfile_result now current u updated :
  User.updateProfile now current (profile_updates u) = Ok updated ->
  User.id updated = User.id current /\
  User.email updated = User.email current /\
  User.firstName updated
  = spread (User.firstName current) (UpdateUser.firstName u) /\
  User.lastName updated = spread (User.lastName current) (UpdateUser.lastName u) /\
  User.avatar updated = spread_opt (User.avatar current) (UpdateUser.avatar u) /\
  User.isActive updated = User.isActive current /\
  User.roles updated = User.roles current /\
  User.lastLoginAt updated = User.lastLoginAt current /\
  User.createdAt updated = User.createdAt current /\
  User.updatedAt updated <> User.updatedAt current /\
  User.invariant updated.
Proof.
  unfold User.updateProfile, profile_updates. intros H.
  step_outcome H. step_outcome H. step_outcome H. cbv zeta in H.
  apply UserFacts.new_ok in H. destruct H as [-> I].
  repeat (split; [reflexivity|]). split; [| exact I].
  cbn [User.updatedAt].
  destruct (Z.eqb_spec now (User.updatedAt current)); lia.
Qed.

Lemma jstring_eqb_sym a b : jstring_eqb a b = jstring_eqb b a.
Proof.
  destruct (jstring_eqb a b) eqn:E.
  - apply jstring_eqb_spec in E. subst. symmetry. apply jstring_eqb_refl.
  - destruct (jstring_eqb b a) eqn:E'; [| reflexivity].
    apply jstring_eqb_spec in E'. subst. rewrite jstring_eqb_refl in E.
    discriminate E.
Qed.

(** A change [hasChanges] sees is a change [logChanges] records. *)
Lemma hasChanges_recorded now current u updated :
  UpdateUser.hasChanges current u = true ->
  User.updateProfile now current (profile_updates u) = Ok updated ->
  changes_of current updated <> [].
Proof.
  intros Hc Hu E. apply updateProfile_result in Hu.
  destruct Hu as (_ & _ & Hf & Hl & Ha & _).
  unfold changes_of in E.
  apply app_eq_nil in E. destruct E as [E1 E].
  apply app_eq_nil in E. destruct E as [E2 E3].
  assert (F : jstring_eqb (User.firstName current) (User.firstName updated) = true)
    by (destruct (jstring_eqb (User.firstName current) (User.firstName updated));
        [reflexivity | discriminate E1]).
  assert (L : jstring_eqb (User.lastName current) (User.lastName updated) = true)
    by (destruct (jstring_eqb (User.lastName current) (User.lastName updated));
        [reflexivity | discriminate E2]).
  assert (A : UpdateUser.opt_differs (User.avatar current) (User.avatar updated)
              = false)
    by (destruct (UpdateUser.opt_differs (User.avatar current)
                                          (User.avatar updated));
        [discriminate E3 | reflexivity]).
  apply jstring_eqb_spec in F, L. rewrite Hf in F. rewrite Hl in L. rewrite Ha in A.
  assert (H1 : match UpdateUser.firstName u with
               | Some v => negb (jstring_eqb v (User.firstName current))
               | None => false
               end = false).
  { destruct (UpdateUser.firstName u) as [f|]; [| reflexivity].
    cbn [spread] in F. rewrite <- F, jstring_eqb_refl. reflexivity. }
  assert (H2 : match UpdateUser.lastName u with
               | Some v => negb (jstring_eqb v (User.lastName current))
               | None => false
               end = false).
  { destruct (UpdateUser.lastName u) as [l|]; [| reflexivity].
    cbn [spread] in L. rewrite <- L, jstring_eqb_refl. reflexivity. }
  assert (H3 : match UpdateUser.avatar u with
               | Some v => UpdateUser.opt_differs (Some v) (User.avatar current)
               | None => false
               end = false).
  { destruct (UpdateUser.avatar u) as [a|]; [| reflexivity].
    cbn [spread_opt] in A. unfold UpdateUser.opt_differs in *.
    destruct (User.avatar current) as [c|]; [| discriminate A].
    rewrite jstring_eqb_sym. exact A. }
  unfold UpdateUser.hasChanges in Hc. rewrite H1, H2, H3 in Hc. discriminate Hc.
Qed.

(** How a run that reaches [userRepository.update] got there. *)
Lemma update_call_origin repo logger URL_parses now input updated :
  In (CallUpdate updated)
     (events (UpdateUser.execute repo logger URL_parses now input)) ->
  exists current,
    findById repo (UpdateUser.id input) = Resolves (Success (Some current)) /\
    UpdateUser.hasChanges current (UpdateUser.updates input) = true /\
    User.updateProfile now current (profile_updates (UpdateUser.updates input))
    = Ok updated.
Proof.
  unfold UpdateUser.execute. cbv zeta.
  change {| User.upd_firstName := UpdateUser.firstName (UpdateUser.updates input);
            User.upd_lastName := UpdateUser.lastName (UpdateUser.updates input);
            User.upd_email := None;
            User.upd_avatar := UpdateUser.avatar (UpdateUser.updates input) |}
    with (profile_updates (UpdateUser.updates input)).
  destruct (UpdateUser.validateInput URL_parses input); [| intros []].
  destruct (findById repo (UpdateUser.id input)) as [[[current|]|]| | |];
    try (simpl; intros H; repeat destruct H as [H|H];
         try discriminate H; contradiction).
  cbn [Async.bind Async.await].
  destruct (UpdateUser.hasChanges current (UpdateUser.updates input)) eqn:Hc;
    cbn [negb];
    [| simpl; intros H; repeat destruct H as [H|H];
       try discriminate H; contradiction].
  destruct (User.updateProfile now current _) as [u|] eqn:U;
    [| simpl; intros H; repeat destruct H as [H|H];
       try discriminate H; contradiction].
  intros H. exists current. split; [reflexivity|]. split; [exact Hc|].
  rewrite U. f_equal.
  cbn [Async.bind Async.await Async.lift Async.ret] in H.
  destruct (update repo u) as [[saved|]| | |];
    [ destruct logger as [lg|];
      [ unfold UpdateUser.logChanges in H; cbv zeta in H;
        destruct (0 <? length _)%nat;
        [ destruct (logUserUpdate lg _ _) | ] | ] | | | | ];
    simpl in H; repeat destruct H as [H|H];
    try discriminate H; try contradiction; inversion H; reflexivity.
Qed.

(** X25. UpdateUser hands to [userRepository.update] only a changed
    profile, each key of the updates being absent or a string.  The user it
    passes is the one [findById] resolved to, with the given first name, last
    name and avatar written over (a key that is absent leaves the field as it
    was), at least one of them different from before, and a different
    [updatedAt]; its id, email, roles, [isActive], [lastLoginAt] and
    [createdAt] are those of the user found, and it satisfies the entity's
    validation.  And the call is made: when the input passes validation,
    [findById] resolves to a user, [hasChanges] holds and [updateProfile]
    returns, the run calls [findById] and then [update] with the user
    [updateProfile] returned. *)
Theorem update_saves_only_profile_changes :
  forall repo logger URL_parses now input,
    let r := UpdateUser.execute repo logger URL_parses now input in
    let given := UpdateUser.updates input in
    (forall updated,
       In (CallUpdate updated) (events r) ->
       exists current,
         findById repo (UpdateUser.id input) = Resolves (Success (Some current)) /\
         User.firstName updated
         = spread (User.firstName current) (UpdateUser.firstName given) /\
         User.lastName updated
         = spread (User.lastName current) (UpdateUser.lastName given) /\
         User.avatar updated
         = spread_opt (User.avatar current) (UpdateUser.avatar given) /\
         changes_of current updated <> [] /\
         User.id updated = User.id current /\
         User.email updated = User.email current /\
         User.isActive updated = User.isActive current /\
         User.roles updated = User.roles current /\
         User.lastLoginAt updated = User.lastLoginAt current /\
         User.createdAt updated = User.createdAt current /\
         User.updatedAt updated <> User.updatedAt current /\
         User.invariant updated) /\
    (forall current updated,
       UpdateUser.validateInput URL_parses input = Success tt ->
       findById repo (UpdateUser.id input) = Resolves (Success (Some current)) ->
       UpdateUser.hasChanges current given = true ->
       User.updateProfile now current (profile_updates given) = Ok updated ->
       exists rest,
         events r
         = CallFindById (UpdateUser.id input) :: CallUpdate updated :: rest).
Proof.
  intros repo logger URL_parses now input r given. split.
  - intros updated H. subst r given.
    destruct (update_call_origin _ _ _ _ _ _ H) as (current & Hf & Hc & Hu).
    exists current. split; [exact Hf|].
    pose proof (hasChanges_recorded _ _ _ _ Hc Hu) as Hne.
    apply updateProfile_result in Hu. tauto.
  - intros current updated V Hf Hc Hu. subst r given.
    unfold UpdateUser.execute. cbv zeta.
    change {| User.upd_firstName := UpdateUser.firstName (UpdateUser.updates input);
              User.upd_lastName := UpdateUser.lastName (UpdateUser.updates input);
              User.upd_email := None;
              User.upd_avatar := UpdateUser.avatar (UpdateUser.updates input) |}
      with (profile_updates (UpdateUser.updates input)).
    rewrite V, Hf. cbn [Async.bind Async.await]. rewrite Hc. cbn [negb].
    rewrite Hu. cbn [Async.bind Async.await Async.lift Async.ret].
    destruct (update repo updated) as [[saved|]| | |];
      [ destruct logger as [lg|];
        [ unfold UpdateUser.logChanges; cbv zeta;
          destruct (0 <? length _)%nat;
          [ destruct (logUserUpdate lg _ _) | ] | ] | | | | ];
      simpl; eexists; reflexivity.
Qed.

Definition johnny : User.User :=
  {| User.id := str "user-1";
     User.email := str "john.doe@example.com";
     User.firstName := str "Johnny";
     User.lastName := str "Doe";
     User.avatar := None;
     User.isActive := true;
     User.roles := [str "user"];
     User.lastLoginAt := None;
     User.createdAt := 1000;
     User.updatedAt := 2000 |}.

Definition rename_john : UpdateUser.UpdateUserInput :=
  {| UpdateUser.id := str "user-1";
     UpdateUser.updates :=
       {| UpdateUser.firstName := Some (str "Johnny");
          UpdateUser.lastName := None;
          UpdateUser.avatar := None |} |}.

Definition working_logger : AuditLogger :=
  {| logUserUpdate := fun _ _ => Resolves tt |}.

Definition broken_logger : AuditLogger :=
  {| logUserUpdate := fun _ _ => Rejects outage |}.

Example rename_john_run :
  UpdateUser.execute working_repository (Some broken_logger) (fun _ => true)
                     2000 rename_john
  = ([ CallFindById (str "user-1");
       CallUpdate johnny;
       CallLogUserUpdate (str "user-1")
         [(str "firstName", Some (str "John"), Some (str "Johnny"))];
       ConsoleError (str "Fehler beim Loggen der Benutzer-" ++ [196%N]
                     ++ str "nderungen:") outage ],
     Fulfilled (Success {| UpdateUser.user := johnny |})).
Proof. reflexivity. Qed.

Lemma update_saves_only_profile_changes_witness :
  (exists rest,
     events (UpdateUser.execute working_repository (Some broken_logger)
               (fun _ => true) 2000 rename_john)
     = CallFindById (str "user-1") :: CallUpdate johnny :: rest) /\
  exists current,
    findById working_repository (str "user-1")
    = Resolves (Success (Some current)) /\
    User.firstName johnny = str "Johnny" /\
    User.email johnny = User.email current /\
    User.updatedAt johnny <> User.updatedAt current.
Proof.
  destruct (update_saves_only_profile_changes working_repository
              (Some broken_logger) (fun _ => true) 2000%Z rename_john)
    as [Honly Hcall].
  split.
  - exact (Hcall UserFacts.john johnny eq_refl eq_refl eq_refl eq_refl).
  - assert (Hin : In (CallUpdate johnny)
                     (events (UpdateUser.execute working_repository
                                (Some broken_logger) (fun _ => true) 2000
                                rename_john)))
      by (right; left; reflexivity).
    destruct (Honly johnny Hin)
      as (current & Hf & Hn & _ & _ & _ & _ & He & _ & _ & _ & _ & Hu & _).
    exists current. split; [exact Hf|]. split; [reflexivity|].
    split; [exact He | exact Hu].
Defined.

Lemma logChanges_fulfilled logger old new :
  (forall id changes, settles (logUserUpdate logger id changes)) ->
  promise (UpdateUser.logChanges logger old new) = Fulfilled tt.
Proof.
  intros H. unfold UpdateUser.logChanges. cbv zeta.
  match goal with |- context [if ?b then _ else _] => destruct b end;
    [| reflexivity].
  match goal with
  | |- context [logUserUpdate logger ?i ?c] =>
      specialize (H i c); destruct (logUserUpdate logger i c) as [[]|e|e|]
  end; try reflexivity.
  exfalso. apply H. reflexivity.
Qed.

Lemma promise_bind {A B} (m : async event A) (f : A -> async event B) a :
  promise m = Fulfilled a -> promise (Async.bind m f) = promise (f a).
Proof.
  destruct m as [l s]. simpl. intros ->. destruct (f a). reflexivity.
Qed.

(** X26. The audit log cannot change what UpdateUser returns: with any two
    audit loggers whose call settles, one of which may be absent, failing or
    rejecting, [execute] resolves to the same [Result]. *)
Theorem audit_log_does_not_change_result :
  forall repo URL_parses now input logger1 logger2,
    logger_settles logger1 -> logger_settles logger2 ->
    promise (UpdateUser.execute repo logger1 URL_parses now input)
    = promise (UpdateUser.execute repo logger2 URL_parses now input).
Proof.
  intros repo URL_parses now input logger1 logger2 H1 H2.
  assert (L : forall logger old new,
            logger_settles logger ->
            promise (match logger with
                     | Some lg => UpdateUser.logChanges lg old new
                     | None => ret tt
                     end) = Fulfilled tt).
  { intros [lg|] old new H; [| reflexivity].
    apply logChanges_fulfilled. intros id changes. eapply H. reflexivity. }
  unfold UpdateUser.execute. cbv zeta.
  destruct (UpdateUser.validateInput URL_parses input); [| reflexivity].
  destruct (findById repo (UpdateUser.id input)) as [[[current|]|]| | |];
    try reflexivity.
  cbn [Async.bind Async.await].
  destruct (negb (UpdateUser.hasChanges current (UpdateUser.updates input)));
    [reflexivity|].
  destruct (User.updateProfile now current _) as [u|]; [| reflexivity].
  cbn [Async.bind Async.await Async.lift Async.ret].
  destruct (update repo u) as [[saved|]| | |]; try reflexivity.
  pose proof (L logger1 current u H1) as P1.
  pose proof (L logger2 current u H2) as P2.
  destruct (match logger1 with
            | Some lg => UpdateUser.logChanges lg current u
            | None => ret tt
            end) as [l1 s1].
  destruct (match logger2 with
            | Some lg => UpdateUser.logChanges lg current u
            | None => ret tt
            end) as [l2 s2].
  cbn [promise snd] in P1, P2. subst s1 s2. reflexivity.
Qed.

Lemma audit_log_does_not_change_result_witness :
  promise (UpdateUser.execute working_repository (Some broken_logger)
             (fun _ => true) 2000 rename_john)
  = promise (UpdateUser.execute working_repository None
               (fun _ => true) 2000 rename_john).
Proof.
  apply audit_log_does_not_change_result.
  - intros lg E id changes. inversion E. discriminate.
  - intros lg E. discriminate E.
Defined.

(** X27. With an audit logger, every update the repository accepted is
    logged: when [userRepository.update] resolved to a success, the run calls
    [logUserUpdate] with the id of the updated user and the changes made,
    which are never empty. *)
Theorem accepted_update_is_logged :
  forall repo logger URL_parses now input updated saved,
    let r := UpdateUser.execute repo (Some logger) URL_parses now input in
    In (CallUpdate updated) (events r) ->
    update repo updated = Resolves (Success saved) ->
    exists current,
      findById repo (UpdateUser.id input) = Resolves (Success (Some current)) /\
      changes_of current updated <> [] /\
      In (CallLogUserUpdate (User.id updated) (changes_of current updated))
         (events r).
Proof.
  intros repo logger URL_parses now input updated saved r Hin Hup. subst r.
  destruct (update_call_origin _ _ _ _ _ _ Hin) as (current & Hf & Hc & Hu).
  exists current. split; [exact Hf|].
  pose proof (hasChanges_recorded _ _ _ _ Hc Hu) as Hne.
  split; [exact Hne|].
  unfold UpdateUser.execute. cbv zeta.
  change {| User.upd_firstName := UpdateUser.firstName (UpdateUser.updates input);
            User.upd_lastName := UpdateUser.lastName (UpdateUser.updates input);
            User.upd_email := None;
            User.upd_avatar := UpdateUser.avatar (UpdateUser.updates input) |}
    with (profile_updates (UpdateUser.updates input)).
  destruct (UpdateUser.validateInput URL_parses input) as [[]|] eqn:V.
  2:{ unfold UpdateUser.execute in Hin. rewrite V in Hin. destruct Hin. }
  rewrite Hf. cbn [Async.bind Async.await]. rewrite Hc. cbn [negb].
  rewrite Hu. cbn [Async.bind Async.await Async.lift Async.ret]. rewrite Hup.
  unfold UpdateUser.logChanges. cbv zeta.
  change ((if negb (jstring_eqb (User.firstName current) (User.firstName updated))
           then [(str "firstName", Some (User.firstName current),
                  Some (User.firstName updated))] else []) ++
          (if negb (jstring_eqb (User.lastName current) (User.lastName updated))
           then [(str "lastName", Some (User.lastName current),
                  Some (User.lastName updated))] else []) ++
          (if UpdateUser.opt_differs (User.avatar current) (User.avatar updated)
           then [(str "avatar", User.avatar current, User.avatar updated)]
           else []))
    with (changes_of current updated).
  destruct (changes_of current updated) as [|c cs] eqn:Ch; [congruence|].
  cbn [length Nat.ltb Nat.leb].
  destruct (logUserUpdate logger _ _); simpl; right; right; left; reflexivity.
Qed.

Lemma accepted_update_is_logged_witness :
  exists current,
    In (CallLogUserUpdate (User.id johnny) (changes_of current johnny))
       (events (UpdateUser.execute working_repository (Some broken_logger)
                  (fun _ => true) 2000 rename_john)).
Proof.
  assert (Hin : In (CallUpdate johnny)
                   (events (UpdateUser.execute working_repository
                              (Some broken_logger) (fun _ => true) 2000
                              rename_john)))
    by (right; left; reflexivity).
  destruct (accepted_update_is_logged working_repository broken_logger
              (fun _ => true) 2000%Z rename_john johnny johnny Hin eq_refl)
    as (current & _ & _ & H).
  exists current. exact H.
Defined.

(** ** ListUsers *)

Lemma validateFilters_checked f0 :
  ListUsers.validateFilters (Some f0) = Success tt ->
  (forall s, search f0 = Some s -> (length s <= 100)%nat) /\
  (forall a b, dateFrom f0 = Some a -> dateTo f0 = Some b -> (a <= b)%Z) /\
  (forall s, status f0 = Some s -> s = [] \/ In s ListUsers.allowed_status).
Proof.
  unfold ListUsers.validateFilters. cbv zeta.
  match goal with
  | |- (if (0 <? length ?errors)%nat then _ else _) = _ -> _ =>
      destruct errors as [|e es] eqn:E; [| intros H; discriminate H]
  end.
  intros _.
  apply app_eq_nil in E. destruct E as [E1 E].
  apply app_eq_nil in E. destruct E as [E2 E3].
  split; [| split].
  - intros s Hs. rewrite Hs in E1.
    destruct s as [|c s]; [simpl; lia|]. cbn [truthy andb] in E1.
    destruct (Nat.ltb_spec 100 (length (c :: s))); [discriminate E1 | lia].
  - intros a b Ha Hb. rewrite Ha, Hb in E2.
    destruct (Z.ltb_spec b a); [discriminate E2 | lia].
  - intros s Hs. rewrite Hs in E3.
    destruct s as [|c s]; [left; reflexivity|]. right. cbn [truthy andb] in E3.
    destruct (array_includes ListUsers.allowed_status (c :: s)) eqn:A;
      [| discriminate E3].
    apply UserQueryFacts.array_includes_In. exact A.
Qed.

(** X28. The filters ListUsers hands to [userRepository.findAll] have passed
    its checks: a search term of at most 100 characters, a start date that is
    not after the end date, and a status that is empty or one of 'active',
    'inactive', 'all'.  Unless the input says [includeInactive: true], the
    status is always there and is one of the three. *)
Theorem findAll_receives_checked_filters :
  forall repo input p f,
    In (CallFindAll p f) (events (ListUsers.execute repo input)) ->
    (forall s, search f = Some s -> (length s <= 100)%nat) /\
    (forall a b, dateFrom f = Some a -> dateTo f = Some b -> (a <= b)%Z) /\
    (forall s, status f = Some s -> s = [] \/ In s ListUsers.allowed_status) /\
    (ListUsers.includeInactive input <> Some true ->
     exists s, status f = Some s /\ In s ListUsers.allowed_status).
Proof.
  intros repo input p f H.
  destruct (list_findAll_arguments _ _ _ _ H) as [_ ->].
  rewrite list_events in H.
  destruct (ListUsers.validateFilters (ListUsers.filters input)) as [[]|] eqn:V;
    [| destruct H].
  clear H.
  assert (C : (forall s, search (ListUsers.copy_filters (ListUsers.filters input))
                         = Some s -> (length s <= 100)%nat) /\
              (forall a b,
                 dateFrom (ListUsers.copy_filters (ListUsers.filters input)) = Some a ->
                 dateTo (ListUsers.copy_filters (ListUsers.filters input)) = Some b ->
                 (a <= b)%Z) /\
              (forall s, status (ListUsers.copy_filters (ListUsers.filters input))
                         = Some s -> s = [] \/ In s ListUsers.allowed_status)).
  { destruct (ListUsers.filters input) as [f0|]; cbn [ListUsers.copy_filters].
    - apply validateFilters_checked. exact V.
    - cbn [search dateFrom dateTo status].
      split; [| split]; intros; discriminate. }
  destruct C as (Cs & Cd & Ct).
  unfold ListUsers.buildFilters. cbv zeta.
  set (filters := ListUsers.copy_filters (ListUsers.filters input)) in *.
  destruct (truthy_opt (status filters)) eqn:T.
  - rewrite andb_false_r.
    split; [exact Cs|]. split; [exact Cd|]. split; [exact Ct|].
    intros _. unfold truthy_opt in T.
    destruct (status filters) as [s|] eqn:S; [| discriminate T].
    exists s. split; [reflexivity|].
    destruct (Ct s eq_refl) as [-> | Hin]; [discriminate T | exact Hin].
  - rewrite andb_true_r.
    destruct (ListUsers.includeInactive input) as [[|]|]; cbn [nullish negb].
    + split; [exact Cs|]. split; [exact Cd|]. split; [exact Ct|].
      intros K. exfalso. apply K. reflexivity.
    + cbn [search dateFrom dateTo status].
      split; [exact Cs|]. split; [exact Cd|].
      split; [intros s [= <-]; right; left; reflexivity|].
      intros _. eexists. split; [reflexivity | left; reflexivity].
    + cbn [search dateFrom dateTo status].
      split; [exact Cs|]. split; [exact Cd|].
      split; [intros s [= <-]; right; left; reflexivity|].
      intros _. eexists. split; [reflexivity | left; reflexivity].
Qed.

Lemma findAll_receives_checked_filters_witness :
  exists s, status active_only = Some s /\ In s ListUsers.allowed_status.
Proof.
  assert (Hin : In (CallFindAll clamped active_only)
                   (events (ListUsers.execute working_repository wild_pagination)))
    by (left; reflexivity).
  destruct (findAll_receives_checked_filters _ _ _ _ Hin) as (_ & _ & _ & H).
  apply H. discriminate.
Defined.

End UseCaseRunFacts.
